(** * The workerutil worker: dequeue loop, heartbeat loop and handler routines

    A shallow embedding of [internal/workerutil/worker.go].  The worker is a
    concurrent Go program: one main routine ([Start]), one heartbeat routine
    and one routine per dequeued record.  The embedding keeps the fields of
    the [Worker] struct in a record, gives every routine a program counter,
    and makes one atomic action of one routine a value of type [label].  The
    answers of the outside world (the store, the handler, the clocks and the
    Go scheduler) are carried by the labels, so that [step] is an executable
    function, [step l w = None] says that the action [l] cannot happen in
    [w] (wrong place in the program, or a blocked channel operation), and an
    execution is a list of labels folded by [run].  Every interleaving of the
    routines is such a list.

    The grain of the interleaving: the body of dequeueAndHandle after the
    slot is taken is one action, so is [handle] from the return of the
    handler to the return of the terminal store call, so is one turn of the
    heartbeat loop; every call of the cleanup of a routine is an action of
    its own. *)

From stdpp Require Import gmap strings list fin_maps.
From Stdlib Require Import ZArith Lia.

#[local] Set Warnings "-clear-no-such-hyp".

Local Open Scope Z_scope.

(** ** Errors (github.com/cockroachdb/errors, context, errcode) *)

Inductive error : Type :=
| ErrNew (msg : string)                    (* errors.New(msg) *)
| ErrWrap (cause : error) (msg : string)   (* errors.Wrap(cause, msg) *)
| ErrNonRetryable (cause : error).         (* errcode.MakeNonRetryable(cause) *)

#[global] Instance error_eq_dec : EqDecision error.
Proof. solve_decision. Defined.

(** [err.Error()] *)
Fixpoint Error (e : error) : string :=
  match e with
  | ErrNew msg => msg
  | ErrWrap cause msg => msg +:+ ": " +:+ Error cause
  | ErrNonRetryable cause => Error cause
  end.

(** [errors.Is(err, reference)] on a non-nil [err]: some error of the chain is
    the reference. *)
Fixpoint chain_Is (e reference : error) : bool :=
  bool_decide (e = reference) ||
  match e with
  | ErrNew _ => false
  | ErrWrap cause _ => chain_Is cause reference
  | ErrNonRetryable cause => chain_Is cause reference
  end.

(** [errors.Is] on Go's nilable [error] values: a nil reference matches only
    a nil error. *)
Definition errors_Is (err reference : option error) : bool :=
  match reference, err with
  | None, None => true
  | None, Some _ => false
  | Some _, None => false
  | Some r, Some e => chain_Is e r
  end.

Definition errors_Wrap (e : error) (msg : string) : error := ErrWrap e msg.

(** Modelled from the spec: [errcode.IsNonRetryable] is not among the sources;
    the spec speaks of an "error flagged non-retryable".  The flag is a marker
    somewhere in the chain; a nil error carries none. *)
Fixpoint chain_NonRetryable (e : error) : bool :=
  match e with
  | ErrNew _ => false
  | ErrWrap cause _ => chain_NonRetryable cause
  | ErrNonRetryable _ => true
  end.

Definition IsNonRetryable (err : option error) : bool :=
  match err with
  | None => false
  | Some e => chain_NonRetryable e
  end.

(** ErrJobAlreadyExists occurs when a duplicate job identifier is dequeued. *)
Definition ErrJobAlreadyExists : error := ErrNew "job already exists".

(** [context.Canceled] *)
Definition context_Canceled : error := ErrNew "context canceled".

(** ** Contexts

    The worker owns one root context ([w.ctx]) and derives one cancelable
    context per dequeued record; the n-th derived context is [CtxHandle n]. *)

Inductive ctx : Type :=
| CtxRoot
| CtxHandle (n : nat).

#[global] Instance ctx_eq_dec : EqDecision ctx.
Proof. solve_decision. Defined.

(** ** The set of running job ids *)

Module IDSet.

(** Modelled from the spec: the type [IDSet] ([newIDSet], [Add], [Remove],
    [Cancel], [Has], [Slice]) is not among the sources.  Section 4.1 of the
    spec: a set of record ids, each with the cancel trigger of the record's
    context.  The trigger is named by the number of the context it cancels. *)
Abbreviation t := (gmap Z nat).

Definition newIDSet : t := ∅.

(** Add(id, cancel): inserts; returns false if id already present. *)
Definition Add (id : Z) (cancel : nat) (s : t) : t * bool :=
  match s !! id with
  | Some _ => (s, false)
  | None => (<[id := cancel]> s, true)
  end.

(** Remove(id): idempotent removal. *)
Definition Remove (id : Z) (s : t) : t := delete id s.

(** Has(id): membership test. *)
Definition Has (id : Z) (s : t) : bool := bool_decide (is_Some (s !! id)).

(** Slice(): snapshot of the current ids. *)
Definition Slice (s : t) : list Z := (map_to_list s).*1.

(** Cancel(id): if present, fires that entry's trigger; the entry stays.
    The result is the set of canceled contexts. *)
Definition Cancel (id : Z) (s : t) (canceled : gset nat) : gset nat :=
  match s !! id with
  | Some c => {[ c ]} ∪ canceled
  | None => canceled
  end.

End IDSet.

(** ** Options and handler capabilities *)

Record WorkerOptions : Type := {
  Name : string;
  WorkerHostname : string;
  NumHandlers : Z;
  NumTotalJobs : Z;
  MaxActiveTime : Z;
  Interval : Z;
  HeartbeatInterval : Z
}.

(** The handler always has [Handle]; the two type assertions of the source,
    [w.handler.(WithPreDequeue)] and [w.handler.(WithHooks)], are two flags. *)
Record Handler : Type := {
  WithPreDequeue : bool;
  WithHooks : bool
}.

(** Go's [int] on the 64-bit targets of the repository. *)
Definition max_int : Z := 2 ^ 63 - 1.
Definition wrap_int (z : Z) : Z := (z + 2 ^ 63) mod 2 ^ 64 - 2 ^ 63.

(** ** What the outside world answers *)

(** [Handler.PreDequeue(ctx)] returns [(dequeueable, extraDequeueArguments, err)]. *)
Record PreDequeueRet : Type := {
  pd_dequeueable : bool;
  pd_extra : option string;
  pd_err : option error
}.

(** [store.Dequeue(ctx, hostname, extra)] returns [(record, dequeued, err)];
    of the record only [RecordID()] is used. *)
Record DequeueRet : Type := {
  dq_record : Z;
  dq_dequeued : bool;
  dq_err : option error
}.

(** [store.MarkComplete / MarkErrored / MarkFailed] return [(marked, err)]. *)
Record MarkRet : Type := {
  mk_marked : bool;
  mk_err : option error
}.

(** ** Observable events *)

(** The routine that performs an event. *)
Inductive actor : Type :=
| Main
| Heartbeat
| Routine (k : nat).    (* the k-th handler routine started by the worker *)

#[global] Instance actor_eq_dec : EqDecision actor.
Proof. solve_decision. Defined.

Inductive event : Type :=
| EvPreDequeue (c : ctx)
| EvDequeue (c : ctx) (host : string) (extra : option string) (ret : DequeueRet)
| EvPreHandle (c : ctx) (id : Z)
| EvHandle (c : ctx) (id : Z)
| EvMarkComplete (c : ctx) (id : Z)
| EvMarkErrored (c : ctx) (id : Z) (msg : string)
| EvMarkFailed (c : ctx) (id : Z) (msg : string)
| EvPostHandle (c : ctx) (id : Z)
| EvNumJobsDec
| EvSemRelease
| EvWgDone
| EvRemove (id : Z)                      (* runningIDSet.Remove from the cleanup *)
| EvHeartbeat (c : ctx) (ids : list Z)
| EvHeartbeatRemove (id : Z)             (* runningIDSet.Remove from the heartbeat *)
| EvLog (level : string) (msg : string) (detail : string).

(** ** Deferred calls

    The cleanup of a handler routine is a deferred closure which itself
    defers a call.  A function body is a list of statements; [Defer] pushes a
    call that runs when the enclosing body returns, last pushed first. *)

Inductive action : Type :=
| ActHandle          (* w.handle(handleCtx, record), plus the log of its error *)
| ActPostHandle      (* hook.PostHandle(w.ctx, record) *)
| ActNumJobsDec      (* w.options.Metrics.numJobs.Dec() *)
| ActSemRelease      (* w.handlerSemaphore <- struct{}{} *)
| ActWgDone          (* w.wg.Done() *)
| ActRemove.         (* w.runningIDSet.Remove(record.RecordID()) *)

#[global] Instance action_eq_dec : EqDecision action.
Proof. solve_decision. Defined.

#[local] Unset Elimination Schemes.
Inductive stmt : Type :=
| Call (a : action)
| Defer (s : stmt)
| Closure (body : list stmt).

(** The order in which the calls of a statement run. *)
Fixpoint linearize (s : stmt) : list action :=
  match s with
  | Call a => [a]
  | Defer s' => linearize s'
  | Closure body =>
      (fix go (b : list stmt) (deferred : list (list action)) : list action :=
         match b with
         | [] => concat deferred
         | Defer s' :: rest => go rest (linearize s' :: deferred)
         | s' :: rest => linearize s' ++ go rest deferred
         end) body []
  end.
#[local] Set Elimination Schemes.

(** The routine started by [dequeueAndHandle]:
[[
    go func() {
        defer func() {
            if hook, ok := w.handler.(WithHooks); ok {
                hook.PostHandle(w.ctx, record)
            }
            defer w.runningIDSet.Remove(record.RecordID())
            w.options.Metrics.numJobs.Dec()
            w.handlerSemaphore <- struct{}{}
            w.wg.Done()
        }()
        if err := w.handle(handleCtx, record); err != nil { log15.Error(...) }
    }()
]] *)
Definition cleanup (h : Handler) : list stmt :=
  (if WithHooks h then [Call ActPostHandle] else []) ++
  [Defer (Call ActRemove); Call ActNumJobsDec; Call ActSemRelease; Call ActWgDone].

Definition routineBody (h : Handler) : stmt :=
  Closure [Defer (Closure (cleanup h)); Call ActHandle].

Definition routineProgram (h : Handler) : list action :=
  linearize (routineBody h).

(** ** The worker *)

(** Where the main routine ([Start]) stands. *)
Inductive main_pc : Type :=
| MNotStarted
| MLoopTop                                   (* at the head of [loop:] *)
| MAcquire                                   (* in the select that opens dequeueAndHandle *)
| MHoldSlot                                  (* a slot is taken, nothing is dequeued yet *)
| MReturned (ok : bool) (err : option error) (* dequeueAndHandle has returned *)
| MSelect (delay : Z)                        (* in the select that closes the iteration *)
| MDrain (reason : string)                   (* after the loop, in w.wg.Wait() *)
| MFinished (reason : string).               (* Start has returned *)

(** A handler routine: its record, the number of its context, and the calls
    it has still to make. *)
Record activity : Type := {
  act_id : Z;
  act_ctx : nat;
  act_todo : list action
}.

Record Worker : Type := mkWorker {
  (* fields of the Go struct *)
  handler : Handler;
  options : WorkerOptions;
  numDequeues : Z;                (* tracks number of dequeue attempts *)
  handlerSemaphore : nat;         (* slots waiting in the channel *)
  rootCanceled : bool;            (* w.ctx is done; set by w.cancel *)
  wg : Z;                         (* tracks active handler routines *)
  finished : bool;                (* the channel [finished] is closed *)
  runningIDSet : gmap Z nat;      (* tracks the running job IDs to heartbeat *)
  (* the rest of the program state *)
  numJobs : Z;                    (* options.Metrics.numJobs *)
  canceled : gset nat;            (* the per-record contexts canceled so far *)
  nextCtx : nat;                  (* how many per-record contexts were derived *)
  mainPc : main_pc;
  heartbeatRunning : bool;
  routines : list activity;
  trace : list (actor * event)
}.

Definition set_numDequeues (v : Z) (w : Worker) : Worker :=
  mkWorker (handler w) (options w) v (handlerSemaphore w) (rootCanceled w) (wg w)
    (finished w) (runningIDSet w) (numJobs w) (canceled w) (nextCtx w) (mainPc w)
    (heartbeatRunning w) (routines w) (trace w).
Definition set_handlerSemaphore (v : nat) (w : Worker) : Worker :=
  mkWorker (handler w) (options w) (numDequeues w) v (rootCanceled w) (wg w)
    (finished w) (runningIDSet w) (numJobs w) (canceled w) (nextCtx w) (mainPc w)
    (heartbeatRunning w) (routines w) (trace w).
Definition set_rootCanceled (v : bool) (w : Worker) : Worker :=
  mkWorker (handler w) (options w) (numDequeues w) (handlerSemaphore w) v (wg w)
    (finished w) (runningIDSet w) (numJobs w) (canceled w) (nextCtx w) (mainPc w)
    (heartbeatRunning w) (routines w) (trace w).
Definition set_wg (v : Z) (w : Worker) : Worker :=
  mkWorker (handler w) (options w) (numDequeues w) (handlerSemaphore w) (rootCanceled w) v
    (finished w) (runningIDSet w) (numJobs w) (canceled w) (nextCtx w) (mainPc w)
    (heartbeatRunning w) (routines w) (trace w).
Definition set_finished (v : bool) (w : Worker) : Worker :=
  mkWorker (handler w) (options w) (numDequeues w) (handlerSemaphore w) (rootCanceled w) (wg w)
    v (runningIDSet w) (numJobs w) (canceled w) (nextCtx w) (mainPc w)
    (heartbeatRunning w) (routines w) (trace w).
Definition set_runningIDSet (v : gmap Z nat) (w : Worker) : Worker :=
  mkWorker (handler w) (options w) (numDequeues w) (handlerSemaphore w) (rootCanceled w) (wg w)
    (finished w) v (numJobs w) (canceled w) (nextCtx w) (mainPc w)
    (heartbeatRunning w) (routines w) (trace w).
Definition set_numJobs (v : Z) (w : Worker) : Worker :=
  mkWorker (handler w) (options w) (numDequeues w) (handlerSemaphore w) (rootCanceled w) (wg w)
    (finished w) (runningIDSet w) v (canceled w) (nextCtx w) (mainPc w)
    (heartbeatRunning w) (routines w) (trace w).
Definition set_canceled (v : gset nat) (w : Worker) : Worker :=
  mkWorker (handler w) (options w) (numDequeues w) (handlerSemaphore w) (rootCanceled w) (wg w)
    (finished w) (runningIDSet w) (numJobs w) v (nextCtx w) (mainPc w)
    (heartbeatRunning w) (routines w) (trace w).
Definition set_nextCtx (v : nat) (w : Worker) : Worker :=
  mkWorker (handler w) (options w) (numDequeues w) (handlerSemaphore w) (rootCanceled w) (wg w)
    (finished w) (runningIDSet w) (numJobs w) (canceled w) v (mainPc w)
    (heartbeatRunning w) (routines w) (trace w).
Definition set_mainPc (v : main_pc) (w : Worker) : Worker :=
  mkWorker (handler w) (options w) (numDequeues w) (handlerSemaphore w) (rootCanceled w) (wg w)
    (finished w) (runningIDSet w) (numJobs w) (canceled w) (nextCtx w) v
    (heartbeatRunning w) (routines w) (trace w).
Definition set_heartbeatRunning (v : bool) (w : Worker) : Worker :=
  mkWorker (handler w) (options w) (numDequeues w) (handlerSemaphore w) (rootCanceled w) (wg w)
    (finished w) (runningIDSet w) (numJobs w) (canceled w) (nextCtx w) (mainPc w)
    v (routines w) (trace w).
Definition set_routines (v : list activity) (w : Worker) : Worker :=
  mkWorker (handler w) (options w) (numDequeues w) (handlerSemaphore w) (rootCanceled w) (wg w)
    (finished w) (runningIDSet w) (numJobs w) (canceled w) (nextCtx w) (mainPc w)
    (heartbeatRunning w) v (trace w).
Definition set_trace (v : list (actor * event)) (w : Worker) : Worker :=
  mkWorker (handler w) (options w) (numDequeues w) (handlerSemaphore w) (rootCanceled w) (wg w)
    (finished w) (runningIDSet w) (numJobs w) (canceled w) (nextCtx w) (mainPc w)
    (heartbeatRunning w) (routines w) v.

(** Append an event to the history. *)
Definition emit (a : actor) (e : event) (w : Worker) : Worker :=
  set_trace (trace w ++ [(a, e)]) w.

(** [c.Err()] *)
Definition ctx_Err (w : Worker) (c : ctx) : option error :=
  match c with
  | CtxRoot => if rootCanceled w then Some context_Canceled else None
  | CtxHandle n =>
      if rootCanceled w || bool_decide (n ∈ canceled w)
      then Some context_Canceled else None
  end.

(** The capacity of [handlerSemaphore]. *)
Definition capacity (w : Worker) : nat := Z.to_nat (NumHandlers (options w)).

(** [newWorker]: panics (None) without a name, and on a negative channel
    size; the semaphore starts full.  [hostname_Get] is [hostname.Get()]. *)
Definition newWorker (hostname_Get : string) (h : Handler) (o : WorkerOptions)
  : option Worker :=
  if bool_decide (Name o = "") then None
  else
    let o' :=
      if bool_decide (WorkerHostname o = "")
      then {| Name := Name o; WorkerHostname := hostname_Get;
              NumHandlers := NumHandlers o; NumTotalJobs := NumTotalJobs o;
              MaxActiveTime := MaxActiveTime o; Interval := Interval o;
              HeartbeatInterval := HeartbeatInterval o |}
      else o in
    if NumHandlers o <? 0 then None
    else Some {|
      handler := h; options := o'; numDequeues := 0;
      handlerSemaphore := Z.to_nat (NumHandlers o);
      rootCanceled := false; wg := 0; finished := false;
      runningIDSet := IDSet.newIDSet;
      numJobs := 0; canceled := ∅; nextCtx := 0; mainPc := MNotStarted;
      heartbeatRunning := false; routines := []; trace := [] |}.

(** ** The handler semaphore *)

(** [<-w.handlerSemaphore] can proceed when a slot waits in the channel. *)
Definition sem_ready (w : Worker) : bool := (0 <? handlerSemaphore w)%nat.

(** [w.handlerSemaphore <- struct{}{}]: the send proceeds while the buffer
    has room; on a channel without buffer it proceeds only by handing the
    slot to the main routine waiting in its first select; otherwise the
    sender is blocked (None). *)
Definition sem_send (w : Worker) : option Worker :=
  if (handlerSemaphore w <? capacity w)%nat
  then Some (set_handlerSemaphore (S (handlerSemaphore w)) w)
  else if (capacity w =? 0)%nat
  then match mainPc w with
       | MAcquire => Some (set_mainPc MHoldSlot w)
       | _ => None
       end
  else None.

(** ** dequeueAndHandle *)

(** preDequeueHook invokes the handler's pre-dequeue hook if it exists. *)
Definition preDequeueHook (pre : PreDequeueRet) (w : Worker)
  : Worker * PreDequeueRet :=
  if WithPreDequeue (handler w)
  then (emit Main (EvPreDequeue CtxRoot) w, pre)
  else (w, {| pd_dequeueable := true; pd_extra := None; pd_err := None |}).

(** The body of dequeueAndHandle after the slot is taken and before the
    deferred function runs; the result is [(dequeued, err)]. *)
Definition dequeueAndHandle_body (pre : PreDequeueRet) (dq : DequeueRet) (w : Worker)
  : Worker * (bool * option error) :=
  let '(w, hook) := preDequeueHook pre w in
  match pd_err hook with
  | Some e => (w, (false, Some (errors_Wrap e "Handler.PreDequeueHook")))
  | None =>
    if negb (pd_dequeueable hook) then (w, (false, None))
    else
      let w := emit Main (EvDequeue CtxRoot (WorkerHostname (options w))
                                    (pd_extra hook) dq) w in
      match dq_err dq with
      | Some e => (w, (false, Some (errors_Wrap e "store.Dequeue")))
      | None =>
        if negb (dq_dequeued dq) then (w, (false, None))
        else
          let id := dq_record dq in
          (* handleCtx, cancel := context.WithCancel(w.ctx) *)
          let c := nextCtx w in
          let w := set_nextCtx (S c) w in
          let '(ids, added) := IDSet.Add id c (runningIDSet w) in
          let w := set_runningIDSet ids w in
          if negb added then (w, (false, Some ErrJobAlreadyExists))
          else
            let w := set_numJobs (numJobs w + 1) w in
            let w := emit Main (EvLog "debug" "Dequeued record for processing" "") w in
            let w := if WithHooks (handler w)
                     then emit Main (EvPreHandle (CtxHandle c) id) w else w in
            let w := set_wg (wg w + 1) w in
            let w := set_routines
                       (routines w ++
                        [{| act_id := id; act_ctx := c;
                            act_todo := routineProgram (handler w) |}]) w in
            (w, (true, None))
      end
  end.

(** dequeueAndHandle from the point where the slot is taken: the body, then
    the deferred function, which gives the slot back unless a record was
    handed to a routine. *)
Definition dequeueAndHandle (pre : PreDequeueRet) (dq : DequeueRet) (w : Worker)
  : option (Worker * (bool * option error)) :=
  let '(w, (dequeued, err)) := dequeueAndHandle_body pre dq w in
  if negb dequeued
  then w' ← sem_send w; Some (w', (dequeued, err))
  else Some (w, (dequeued, err)).

(** ** handle *)

(** isJobCanceled returns true if the job has been canceled through the
    Cancel interface. *)
Definition isJobCanceled (w : Worker) (id : Z) (handleErr ctxErr : option error) : bool :=
  errors_Is handleErr ctxErr && IDSet.Has id (runningIDSet w).

(** [handleErr.Error()]; the call sites are reached with a non-nil error only. *)
Definition Error_of (err : option error) : string :=
  match err with Some e => Error e | None => "" end.

(** The terminal store call and its result: the event, and the error that
    [handle] returns. *)
Definition mark (k : nat) (e : event) (what : string) (level msg : string) (mr : MarkRet)
    (w : Worker) : Worker * option error :=
  let w := emit (Routine k) e w in
  match mk_err mr with
  | Some markErr => (w, Some (errors_Wrap markErr what))
  | None =>
      if mk_marked mr
      then (emit (Routine k) (EvLog level msg "") w, None)
      else (w, None)
  end.

(** handle processes the given record: [handleErr] is what [Handler.Handle]
    returned under the record's context [ctx], [mr] what the store answers to
    the terminal call.  The context handed to the store is [w.ctx]. *)
Definition handle (k : nat) (c : ctx) (id : Z) (handleErr : option error) (mr : MarkRet)
    (w : Worker) : Worker * option error :=
  let w := emit (Routine k) (EvHandle c id) w in
  let '(w, err) :=
    if IsNonRetryable handleErr
       || (bool_decide (handleErr ≠ None) && isJobCanceled w id handleErr (ctx_Err w c))
    then mark k (EvMarkFailed CtxRoot id (Error_of handleErr))
              "store.MarkFailed" "warn" "Marked record as failed" mr w
    else if bool_decide (handleErr ≠ None)
    then mark k (EvMarkErrored CtxRoot id (Error_of handleErr))
              "store.MarkErrored" "warn" "Marked record as errored" mr w
    else mark k (EvMarkComplete CtxRoot id)
              "store.MarkComplete" "debug" "Marked record as complete" mr w in
  match err with
  | Some e => (w, Some e)
  | None => (emit (Routine k) (EvLog "debug" "Handled record" "") w, None)
  end.

(** One call of a handler routine. *)
Definition perform (k : nat) (a : activity) (act : action)
    (handleErr : option error) (mr : MarkRet) (w : Worker) : option Worker :=
  match act with
  | ActHandle =>
      let '(w, err) := handle k (CtxHandle (act_ctx a)) (act_id a) handleErr mr w in
      match err with
      | Some e => Some (emit (Routine k) (EvLog "error" "Failed to finalize record" (Error e)) w)
      | None => Some w
      end
  | ActPostHandle => Some (emit (Routine k) (EvPostHandle CtxRoot (act_id a)) w)
  | ActNumJobsDec => Some (emit (Routine k) EvNumJobsDec (set_numJobs (numJobs w - 1) w))
  | ActSemRelease => w' ← sem_send w; Some (emit (Routine k) EvSemRelease w')
  | ActWgDone => Some (emit (Routine k) EvWgDone (set_wg (wg w - 1) w))
  | ActRemove =>
      Some (emit (Routine k) (EvRemove (act_id a))
              (set_runningIDSet (IDSet.Remove (act_id a) (runningIDSet w)) w))
  end.

Definition set_todo (todo : list action) (a : activity) : activity :=
  {| act_id := act_id a; act_ctx := act_ctx a; act_todo := todo |}.

(** The k-th routine makes its next call. *)
Definition routine_step (k : nat) (handleErr : option error) (mr : MarkRet) (w : Worker)
  : option Worker :=
  match routines w !! k with
  | Some a =>
      match act_todo a with
      | act :: rest =>
          w' ← perform k a act handleErr mr w;
          Some (set_routines (<[k := set_todo rest a]> (routines w')) w')
      | [] => None
      end
  | None => None
  end.

(** ** Start: the main loop *)

(** Leaving [loop:]: the shutdown is logged and the routine waits in
    [w.wg.Wait()]. *)
Definition break_loop (reason : string) (w : Worker) : Worker :=
  set_mainPc (MDrain reason)
    (emit Main (EvLog "info" "Shutting down dequeue loop" reason) w).

(** Start spawns the heartbeat routine, arms the shutdown timer and enters
    the loop. *)
Definition Start_enter (w : Worker) : option Worker :=
  match mainPc w with
  | MNotStarted => Some (set_mainPc MLoopTop (set_heartbeatRunning true w))
  | _ => None
  end.

(** The check that opens an iteration. *)
Definition Start_loop_top (w : Worker) : option Worker :=
  match mainPc w with
  | MLoopTop =>
      if negb (NumTotalJobs (options w) =? 0)
         && (NumTotalJobs (options w) <=? numDequeues w)
      then Some (break_loop "NumTotalJobs dequeued" w)
      else Some (set_mainPc MAcquire w)
  | _ => None
  end.

(** The first select of dequeueAndHandle takes a slot ... *)
Definition acquire_slot (w : Worker) : option Worker :=
  match mainPc w with
  | MAcquire =>
      if sem_ready w
      then Some (set_mainPc MHoldSlot
                   (set_handlerSemaphore (pred (handlerSemaphore w)) w))
      else None
  | _ => None
  end.

(** ... or sees the root context done and returns [false, w.ctx.Err()]. *)
Definition acquire_ctx_done (w : Worker) : option Worker :=
  match mainPc w with
  | MAcquire =>
      if rootCanceled w
      then Some (set_mainPc (MReturned false (ctx_Err w CtxRoot)) w)
      else None
  | _ => None
  end.

(** The rest of dequeueAndHandle. *)
Definition dequeue_step (pre : PreDequeueRet) (dq : DequeueRet) (w : Worker)
  : option Worker :=
  match mainPc w with
  | MHoldSlot =>
      '(w', (ok, err)) ← dequeueAndHandle pre dq w;
      Some (set_mainPc (MReturned ok err) w')
  | _ => None
  end.

(** The delay of the iteration and the count of successful dequeues. *)
Definition next_delay (ok : bool) (w : Worker) : Worker :=
  if ok
  then set_mainPc (MSelect 0) (set_numDequeues (wrap_int (numDequeues w + 1)) w)
  else set_mainPc (MSelect (Interval (options w))) w.

(** What Start does with the result of dequeueAndHandle. *)
Definition after_dequeue (w : Worker) : option Worker :=
  match mainPc w with
  | MReturned ok err =>
      match err with
      | Some e =>
          if bool_decide (ctx_Err w CtxRoot ≠ None)
             && errors_Is (Some e) (ctx_Err w CtxRoot)
          then Some (break_loop "" w)
          else Some (next_delay ok
                       (emit Main (EvLog "error" "Failed to dequeue and handle record"
                                         (Error e)) w))
      | None => Some (next_delay ok w)
      end
  | _ => None
  end.

(** The cases of the select that closes an iteration. *)
Inductive select_case : Type :=
| CaseAfterDelay     (* <-w.dequeueClock.After(delay) *)
| CaseCtxDone        (* <-w.ctx.Done() *)
| CaseShutdown.      (* <-shutdownChan *)

Definition select_step (c : select_case) (w : Worker) : option Worker :=
  match mainPc w with
  | MSelect _ =>
      match c with
      | CaseAfterDelay => Some (set_mainPc MLoopTop w)
      | CaseCtxDone =>
          if rootCanceled w then Some (break_loop "" w) else None
      | CaseShutdown =>
          if 0 <? MaxActiveTime (options w)
          then Some (break_loop "MaxActiveTime elapsed" w) else None
      end
  | _ => None
  end.

(** [w.wg.Wait()] returns once no routine is counted; Start returns and the
    deferred [close(w.finished)] runs. *)
Definition wait_done (w : Worker) : option Worker :=
  match mainPc w with
  | MDrain reason =>
      if wg w =? 0
      then Some (set_mainPc (MFinished reason) (set_finished true w))
      else None
  | _ => None
  end.

(** ** The heartbeat routine *)

(** The body of the loop over [ids]: an id the store did not return is
    logged and removed. *)
Definition heartbeat_remove (knownIDs : list Z) (w : Worker) (id : Z) : Worker :=
  if bool_decide (id ∈ knownIDs) then w
  else emit Heartbeat (EvHeartbeatRemove id)
         (set_runningIDSet (IDSet.Remove id (runningIDSet w))
            (emit Heartbeat (EvLog "error" "Removed unknown job from running set" "") w)).

(** The log of a failed heartbeat. *)
Definition heartbeat_log (err : option error) (w : Worker) : Worker :=
  match err with
  | Some e => emit Heartbeat (EvLog "error" "Failed to refresh heartbeats" (Error e)) w
  | None => w
  end.

(** One turn of the heartbeat loop after its timer fired: [knownIDs] and
    [err] are what [store.Heartbeat(w.ctx, ids)] returns. *)
Definition heartbeat_tick (knownIDs : list Z) (err : option error) (w : Worker)
  : option Worker :=
  if heartbeatRunning w then
    let ids := IDSet.Slice (runningIDSet w) in
    let w := emit Heartbeat (EvHeartbeat CtxRoot ids) w in
    let w := heartbeat_log err w in
    Some (foldl (heartbeat_remove knownIDs) w ids)
  else None.

(** The heartbeat routine returns when the root context is done. *)
Definition heartbeat_exit (w : Worker) : option Worker :=
  if heartbeatRunning w && rootCanceled w
  then Some (set_heartbeatRunning false w)
  else None.

(** ** Stop, Wait, Cancel *)

(** [w.cancel()]: cancels the root context. *)
Definition cancel (w : Worker) : Worker := set_rootCanceled true w.

(** Wait blocks until all handler goroutines have exited: [<-w.finished].
    None: the caller is still blocked in this state. *)
Definition Wait (w : Worker) : option Worker :=
  if finished w then Some w else None.

(** Stop: [w.cancel(); w.Wait()], for a caller that is not kept waiting. *)
Definition Stop (w : Worker) : option Worker := Wait (cancel w).

(** Cancel cancels the handler context of the running job with the given
    record id. *)
Definition Cancel (id : Z) (w : Worker) : Worker :=
  set_canceled (IDSet.Cancel id (runningIDSet w) (canceled w)) w.

(** ** Executions *)

Inductive label : Type :=
| LStart
| LLoopTop
| LAcquire
| LAcquireCtxDone
| LDequeue (pre : PreDequeueRet) (dq : DequeueRet)
| LAfterDequeue
| LSelect (c : select_case)
| LWaitDone
| LRoutine (k : nat) (handleErr : option error) (mr : MarkRet)
| LHeartbeat (knownIDs : list Z) (err : option error)
| LHeartbeatExit
| LCancel (id : Z)      (* somebody calls w.Cancel(id) *)
| LCancelRoot.          (* somebody calls w.cancel(): Stop, or the parent context ends *)

(** One atomic action; None when the action cannot happen in this state. *)
Definition step (l : label) (w : Worker) : option Worker :=
  match l with
  | LStart => Start_enter w
  | LLoopTop => Start_loop_top w
  | LAcquire => acquire_slot w
  | LAcquireCtxDone => acquire_ctx_done w
  | LDequeue pre dq => dequeue_step pre dq w
  | LAfterDequeue => after_dequeue w
  | LSelect c => select_step c w
  | LWaitDone => wait_done w
  | LRoutine k handleErr mr => routine_step k handleErr mr w
  | LHeartbeat knownIDs err => heartbeat_tick knownIDs err w
  | LHeartbeatExit => heartbeat_exit w
  | LCancel id => Some (Cancel id w)
  | LCancelRoot => Some (cancel w)
  end.

Fixpoint run (s : list label) (w : Worker) : option Worker :=
  match s with
  | [] => Some w
  | l :: s' => w' ← step l w; run s' w'
  end.

(** The states the worker built from [o] and [h] can be in. *)
Definition reachable (host : string) (h : Handler) (o : WorkerOptions) (w : Worker) : Prop :=
  ∃ w0 s, newWorker host h o = Some w0 ∧ run s w0 = Some w.

(** ** Reading the history *)

(** The terminal store calls. *)
Definition is_mark (e : event) : bool :=
  match e with
  | EvMarkComplete _ _ | EvMarkErrored _ _ _ | EvMarkFailed _ _ _ => true
  | _ => false
  end.

(** The context handed to a terminal store call. *)
Definition mark_ctx (e : event) : option ctx :=
  match e with
  | EvMarkComplete c _ | EvMarkErrored c _ _ | EvMarkFailed c _ _ => Some c
  | _ => None
  end.

(** The record of a terminal store call. *)
Definition mark_id (e : event) : option Z :=
  match e with
  | EvMarkComplete _ id | EvMarkErrored _ id _ | EvMarkFailed _ id _ => Some id
  | _ => None
  end.

Definition is_log (e : event) : bool :=
  match e with EvLog _ _ _ => true | _ => false end.

(** The events the history gained from [w] to [w']. *)
Definition emitted (w w' : Worker) : list (actor * event) :=
  drop (length (trace w)) (trace w').

(** The terminal store calls among the events gained from [w] to [w']. *)
Definition terminal_calls (w w' : Worker) : list (actor * event) :=
  List.filter (λ ae, is_mark ae.2) (emitted w w').

(** How many elements satisfy [f]. *)
Fixpoint count {A : Type} (f : A → bool) (l : list A) : nat :=
  match l with
  | [] => 0
  | x :: l' => (if f x then 1 else 0) + count f l'
  end.

(** ** Slots and routines *)

(** A routine holds a handler slot until it has sent it back: the handler,
    the terminal store call or PostHandle are still to come or under way. *)
Definition holds_slot (a : activity) : bool :=
  bool_decide (ActSemRelease ∈ act_todo a).

(** A routine is counted by the wait group until its [wg.Done()]. *)
Definition counted (a : activity) : bool :=
  bool_decide (ActWgDone ∈ act_todo a).

(** The handler of a routine has returned and its terminal call was made. *)
Definition handled (a : activity) : bool :=
  bool_decide (ActHandle ∉ act_todo a).

(** The number of running handler activities. *)
Definition running (w : Worker) : nat := count holds_slot (routines w).

(** The slot the main routine holds between the first select of
    dequeueAndHandle and its return. *)
Definition main_holds (w : Worker) : nat :=
  match mainPc w with MHoldSlot => 1 | _ => 0 end.

(** dequeueAndHandle hands the record to a new routine when the hook (if
    there is one) lets it dequeue, the store returns a record without error,
    and the id of the record is not registered yet. *)
Definition hands_off (pre : PreDequeueRet) (dq : DequeueRet) (w : Worker) : bool :=
  (negb (WithPreDequeue (handler w))
   || (bool_decide (pd_err pre = None) && pd_dequeueable pre))
  && bool_decide (dq_err dq = None) && dq_dequeued dq
  && negb (IDSet.Has (dq_record dq) (runningIDSet w)).

(** ** The calls of a routine, as the history shows them *)

Inductive phase : Type :=
| PhHandle          (* Handler.Handle *)
| PhMark            (* MarkComplete, MarkErrored or MarkFailed *)
| PhPostHandle
| PhNumJobsDec
| PhSemRelease
| PhWgDone
| PhRemove.         (* the removal from runningIDSet *)

#[global] Instance phase_eq_dec : EqDecision phase.
Proof. solve_decision. Defined.

Definition phase_of (e : event) : option phase :=
  match e with
  | EvHandle _ _ => Some PhHandle
  | EvMarkComplete _ _ | EvMarkErrored _ _ _ | EvMarkFailed _ _ _ => Some PhMark
  | EvPostHandle _ _ => Some PhPostHandle
  | EvNumJobsDec => Some PhNumJobsDec
  | EvSemRelease => Some PhSemRelease
  | EvWgDone => Some PhWgDone
  | EvRemove _ => Some PhRemove
  | _ => None
  end.

(** The events of one actor, in the order of the history. *)
Definition events_of (a : actor) (t : list (actor * event)) : list event :=
  omap (λ ae, if bool_decide (ae.1 = a) then Some ae.2 else None) t.

(** The calls the k-th routine has made so far. *)
Definition phases_of (k : nat) (t : list (actor * event)) : list phase :=
  omap phase_of (events_of (Routine k) t).

(** The phases that a call of the routine program shows. *)
Definition action_phases (a : action) : list phase :=
  match a with
  | ActHandle => [PhHandle; PhMark]
  | ActPostHandle => [PhPostHandle]
  | ActNumJobsDec => [PhNumJobsDec]
  | ActSemRelease => [PhSemRelease]
  | ActWgDone => [PhWgDone]
  | ActRemove => [PhRemove]
  end.

Definition program_phases (todo : list action) : list phase :=
  concat (action_phases <$> todo).

(** [p] happens before [q] in [l]: wherever [q] stands, a [p] stands
    earlier and none stands later. *)
Definition happens_before (p q : phase) (l : list phase) : Prop :=
  ∀ j, l !! j = Some q →
    (∃ i, (i < j)%nat ∧ l !! i = Some p) ∧ (∀ i, l !! i = Some p → (i < j)%nat).

(** The log line of a successful dequeue. *)
Definition is_dequeued_log (ae : actor * event) : bool :=
  match ae with
  | (Main, EvLog _ msg _) => bool_decide (msg = "Dequeued record for processing")
  | _ => false
  end.

(** The successful dequeues so far, as the log shows them. *)
Definition successful_dequeues (w : Worker) : nat :=
  count is_dequeued_log (trace w).

(** The terminal store calls made by the k-th routine. *)
Definition marks_of (k : nat) (t : list (actor * event)) : nat :=
  count is_mark (events_of (Routine k) t).

(** ** Invariants *)

(** The heartbeat routine writes only [runningIDSet] and the history. *)
Definition same_but_ids_trace (w w' : Worker) : Prop :=
  handler w' = handler w ∧ options w' = options w ∧ numDequeues w' = numDequeues w ∧
  handlerSemaphore w' = handlerSemaphore w ∧ rootCanceled w' = rootCanceled w ∧
  wg w' = wg w ∧ finished w' = finished w ∧ numJobs w' = numJobs w ∧
  canceled w' = canceled w ∧ nextCtx w' = nextCtx w ∧ mainPc w' = mainPc w ∧
  heartbeatRunning w' = heartbeatRunning w ∧ routines w' = routines w.

(** The semaphore, the routines and the wait group agree. *)
Record slots_inv (w : Worker) : Prop := {
  inv_slots : (handlerSemaphore w + running w + main_holds w = capacity w)%nat;
  inv_todo : Forall (λ a, act_todo a `suffix_of` routineProgram (handler w)) (routines w);
  inv_wg : wg w = Z.of_nat (count counted (routines w))
}.

(** Events of the main and the heartbeat routine: no call of a handler
    routine is among them. *)
Definition quiet (ae : actor * event) : Prop :=
  (ae.1 = Main ∨ ae.1 = Heartbeat) ∧ phase_of ae.2 = None.

(** The calls of [Handler.PreDequeue] and [store.Dequeue]. *)
Definition is_dequeue_call (e : event) : bool :=
  match e with
  | EvPreDequeue _ | EvDequeue _ _ _ _ => true
  | _ => false
  end.

(** Events of the heartbeat routine. *)
Definition hb_quiet (ae : actor * event) : Prop :=
  ae.1 = Heartbeat ∧ phase_of ae.2 = None ∧ is_dequeue_call ae.2 = false.

Definition by_routine (k : nat) (ae : actor * event) : Prop :=
  ae.1 = Routine k ∧ (is_mark ae.2 = true → mark_ctx ae.2 = Some CtxRoot).

(** What the history says about the routines.

    - the calls the k-th routine has made, followed by those it has still to
      make, are the calls of the routine program;
    - it has made one terminal store call if its handler has returned, and
      none before;
    - no event belongs to a routine that does not exist;
    - every terminal store call got the root context;
    - every logged dequeue started one routine. *)
Record history_inv (w : Worker) : Prop := {
  hist_phases : ∀ k a, routines w !! k = Some a →
    phases_of k (trace w) ++ program_phases (act_todo a)
    = program_phases (routineProgram (handler w));
  hist_marks : ∀ k a, routines w !! k = Some a →
    (marks_of k (trace w) + (if bool_decide (ActHandle ∈ act_todo a) then 1 else 0)
     = 1)%nat;
  hist_fresh : ∀ k, (length (routines w) ≤ k)%nat →
    events_of (Routine k) (trace w) = [];
  hist_root : Forall (λ ae : actor * event,
                        is_mark ae.2 = true → mark_ctx ae.2 = Some CtxRoot) (trace w);
  hist_dequeues : successful_dequeues w = length (routines w)
}.

(** The count of dequeues under a cap: it counts the routines started, it
    stays below the cap while an iteration is under way, and the loop is left
    for the cap only when the cap is reached. *)
Record cap_inv (w : Worker) : Prop := {
  cap_nonneg : 0 ≤ numDequeues w;
  cap_count :
    numDequeues w + (match mainPc w with MReturned true _ => 1 | _ => 0 end)
    = Z.of_nat (length (routines w));
  cap_bound : numDequeues w ≤ NumTotalJobs (options w);
  cap_room :
    match mainPc w with
    | MReturned true (Some _) => False
    | MAcquire | MHoldSlot | MReturned _ _ => numDequeues w < NumTotalJobs (options w)
    | _ => True
    end;
  cap_reason : ∀ r, mainPc w = MDrain r ∨ mainPc w = MFinished r →
    r = "NumTotalJobs dequeued" → numDequeues w = NumTotalJobs (options w)
}.

(** Once Start has returned no routine is counted any more. *)
Definition finished_inv (w : Worker) : Prop :=
  finished w = true → wg w = 0 ∧ ∃ r, mainPc w = MFinished r.

(** A worker without handler slots: nothing is in the channel, no routine
    exists, nothing was dequeued, and the main routine is before or in the
    first select of dequeueAndHandle, or on its way out after the root
    context was canceled. *)
Record idle_inv (w : Worker) : Prop := {
  idle_sem : handlerSemaphore w = 0%nat;
  idle_routines : routines w = [];
  idle_count : numDequeues w = 0;
  idle_calls : Forall (λ ae : actor * event, is_dequeue_call ae.2 = false) (trace w);
  idle_pc :
    match mainPc w with
    | MNotStarted | MLoopTop | MAcquire => True
    | MReturned false (Some e) => rootCanceled w = true ∧ e = context_Canceled
    | MDrain r | MFinished r => rootCanceled w = true ∧ r = ""
    | _ => False
    end
}.

(** ** Orders of the cleanup *)

(** The order of the calls of a routine: the handler, the terminal store
    call, PostHandle if the handler has hooks, the gauge, the semaphore, the
    wait group and last the removal from the running set. *)
Definition routine_order (h : Handler) : list phase :=
  [PhHandle; PhMark] ++ (if WithHooks h then [PhPostHandle] else []) ++
  [PhNumJobsDec; PhSemRelease; PhWgDone; PhRemove].

(** The order with the removal before the release of the slot. *)
Definition removal_before_release (l : list phase) : Prop :=
  happens_before PhMark PhPostHandle l ∧
  happens_before PhPostHandle PhRemove l ∧
  happens_before PhRemove PhSemRelease l.

(** The calls of [store.Dequeue] that returned the record [id]. *)
Definition store_dequeues (id : Z) (t : list (actor * event)) : nat :=
  count (λ ae, match ae.2 with
               | EvDequeue _ _ _ ret =>
                   dq_dequeued ret && bool_decide (dq_err ret = None)
                   && bool_decide (dq_record ret = id)
               | _ => false
               end) t.

(** The terminal store calls made for the record [id]. *)
Definition mark_attempts (id : Z) (t : list (actor * event)) : nat :=
  count (λ ae, bool_decide (mark_id ae.2 = Some id)) t.

(** ** Executions from a fresh worker *)

Definition start_worker (host : string) (h : Handler) (o : WorkerOptions)
    (s : list label) : option Worker :=
  w0 ← newWorker host h o; run s w0.

(** ** Scenarios *)

Module Scenario.

Definition options_of (handlers total active : Z) : WorkerOptions :=
  {| Name := "worker"; WorkerHostname := "";
     NumHandlers := handlers; NumTotalJobs := total;
     MaxActiveTime := active; Interval := 5; HeartbeatInterval := 3 |}.

Definition hooks : Handler := {| WithPreDequeue := true; WithHooks := true |}.

Definition pre_ok : PreDequeueRet :=
  {| pd_dequeueable := true; pd_extra := None; pd_err := None |}.
Definition record (id : Z) : DequeueRet :=
  {| dq_record := id; dq_dequeued := true; dq_err := None |}.
Definition no_record : DequeueRet :=
  {| dq_record := 0; dq_dequeued := false; dq_err := None |}.
Definition dequeue_fails (e : error) : DequeueRet :=
  {| dq_record := 0; dq_dequeued := false; dq_err := Some e |}.
Definition marked : MarkRet := {| mk_marked := true; mk_err := None |}.

(** One iteration of the main loop that dequeues the record [id]. *)
Definition iteration (id : Z) : list label :=
  [LLoopTop; LAcquire; LDequeue pre_ok (record id); LAfterDequeue;
   LSelect CaseAfterDelay].

(** The k-th routine runs [n] of its calls; its handler returns [err]. *)
Definition routine (k n : nat) (err : option error) : list label :=
  replicate n (LRoutine k err marked).

(** One record is dequeued and handled, then the cap ends the loop. *)
Definition one_job : list label :=
  [LStart] ++ iteration 7 ++ [LLoopTop] ++ routine 0 6 None ++ [LWaitDone].

(** Record 7 is dequeued and canceled by [Cancel(7)] before its handler
    returns. *)
Definition canceled_job : list label :=
  [LStart; LLoopTop; LAcquire; LDequeue pre_ok (record 7); LCancel 7].

(** The main routine holds a slot while record 17 is handled. *)
Definition holding_slot : list label :=
  [LStart] ++ iteration 17 ++ [LLoopTop; LAcquire].

(** The main routine holds a slot when the worker is stopped. *)
Definition stopped_with_slot : list label :=
  [LStart; LLoopTop; LAcquire; LCancelRoot].

(** Stop is called while record 7 is handled; the routine finishes and
    Start returns. *)
Definition stopped_job : list label :=
  [LStart] ++ iteration 7 ++ [LCancelRoot; LLoopTop; LAcquireCtxDone;
   LAfterDequeue; LHeartbeatExit] ++ routine 0 6 (Some context_Canceled) ++
  [LWaitDone].

(** Records 17 and 18 are being handled. *)
Definition two_jobs : list label :=
  [LStart] ++ iteration 17 ++ iteration 18.

(** A worker without handlers and with a negative cap: the loop is left
    at its first check. *)
Definition negative_cap : list label := [LStart; LLoopTop; LWaitDone].

(** A worker without handlers is stopped. *)
Definition idle_stopped : list label :=
  [LStart; LLoopTop; LHeartbeat [] None; LCancelRoot; LAcquireCtxDone;
   LAfterDequeue; LWaitDone].

(** The store hands out record 7 a second time while its routine runs;
    the shutdown timer ends the loop and the routine finishes. *)
Definition duplicate_job : list label :=
  [LStart] ++ iteration 7 ++
  [LLoopTop; LAcquire; LDequeue pre_ok (record 7); LAfterDequeue;
   LSelect CaseShutdown] ++ routine 0 6 None ++ [LWaitDone].

End Scenario.

(** ** The gauge, the running set and the contexts of the routines *)

(** A routine is in the gauge [numJobs] until its [numJobs.Dec()]. *)
Definition gauged (a : activity) : bool :=
  bool_decide (ActNumJobsDec ∈ act_todo a).

(** A routine has its removal from the running set still to make. *)
Definition removal_pending (a : activity) : bool :=
  bool_decide (ActRemove ∈ act_todo a).

(** The gauge counts the routines that have not decremented it. *)
Definition gauge_inv (w : Worker) : Prop :=
  numJobs w = Z.of_nat (count gauged (routines w)).

(** Every entry of the running set was put there for a routine that has its
    removal still to make, with the cancel function of that routine's
    context; the contexts of the routines are distinct. *)
Record registry_inv (w : Worker) : Prop := {
  reg_owner : ∀ id c, runningIDSet w !! id = Some c →
    ∃ k a, routines w !! k = Some a ∧ act_id a = id ∧ act_ctx a = c ∧
           removal_pending a = true;
  reg_fresh : Forall (λ a, (act_ctx a < nextCtx w)%nat) (routines w);
  reg_distinct : NoDup (act_ctx <$> routines w)
}.

(** Why the loop was left. *)
Definition exit_inv (w : Worker) : Prop :=
  ∀ r, mainPc w = MDrain r ∨ mainPc w = MFinished r →
    (r = "" ∧ rootCanceled w = true) ∨
    (r = "NumTotalJobs dequeued" ∧ NumTotalJobs (options w) ≠ 0 ∧
     NumTotalJobs (options w) ≤ numDequeues w) ∨
    (r = "MaxActiveTime elapsed" ∧ 0 < MaxActiveTime (options w)).

(** ** The calls of the handler and of the store *)

(** A call as the worker with handler [h] and hostname [host] makes it: the
    hooks only when the handler has them; PreDequeue, store.Dequeue,
    store.Heartbeat and PostHandle with the root context; PreHandle and
    Handle with a context of a record; Dequeue with the hostname. *)
Definition call_ok (h : Handler) (host : string) (ae : actor * event) : Prop :=
  match ae.2 with
  | EvPreDequeue c => WithPreDequeue h = true ∧ c = CtxRoot
  | EvDequeue c hn _ _ => c = CtxRoot ∧ hn = host
  | EvPreHandle c _ => WithHooks h = true ∧ c ≠ CtxRoot
  | EvHandle c _ => c ≠ CtxRoot
  | EvPostHandle c _ => WithHooks h = true ∧ c = CtxRoot
  | EvHeartbeat c _ => c = CtxRoot
  | _ => True
  end.

(** The calls in the history are made that way; the record of a routine
    went through PreHandle, with the context of the routine, if the handler
    has hooks; and the handler of a routine is called with the context and
    the record of the routine, after PreHandle if the handler has hooks. *)
Record calls_inv (w : Worker) : Prop := {
  calls_ok : Forall (call_ok (handler w) (WorkerHostname (options w))) (trace w);
  calls_pre : ∀ k a, routines w !! k = Some a → WithHooks (handler w) = true →
    (Main, EvPreHandle (CtxHandle (act_ctx a)) (act_id a)) ∈ trace w;
  calls_handle : ∀ j k c id, trace w !! j = Some (Routine k, EvHandle c id) →
    ∃ a, routines w !! k = Some a ∧ c = CtxHandle (act_ctx a) ∧ id = act_id a ∧
         (WithHooks (handler w) = true →
          ∃ i, (i < j)%nat ∧ trace w !! i = Some (Main, EvPreHandle c id))
}.

(** ** The calls still to make *)

(** The number of calls the routines have still to make. *)
Fixpoint pending_calls (l : list activity) : nat :=
  match l with
  | [] => 0%nat
  | a :: l' => (length (act_todo a) + pending_calls l')%nat
  end.

(** Start has returned only after [close(w.finished)]. *)
Definition returned_inv (w : Worker) : Prop :=
  ∀ r, mainPc w = MFinished r → finished w = true.

(** * The trace package: the values of a request context *)

Module Trace.

(** [type key int] and its constants. *)
Inductive key : Type :=
| routeNameKey
| userKey
| requestErrorCauseKey
| graphQLRequestNameKey
| originKey
| sourceKey
| GraphQLQueryKey.

#[global] Instance key_eq_dec : EqDecision key.
Proof. solve_decision. Defined.

(** A context key is any comparable value: one of this package's type
    [key], or a value of another type. *)
Inductive any_key : Type :=
| PackageKey (k : key)
| OtherKey (n : nat).

#[global] Instance any_key_eq_dec : EqDecision any_key.
Proof. solve_decision. Defined.

(** The dynamic values the package looks for: nil, a string, a SourceType,
    pointers (nil or to a variable) to string, int32 and error; and values
    of any other type. *)
Inductive value : Type :=
| VNil
| VString (s : string)
| VSourceType (s : string)
| VStringPtr (p : option nat)
| VInt32Ptr (p : option nat)
| VErrorPtr (p : option nat)
| VOther (n : nat).

(** [context.Context], as far as [Value] sees it: [context.WithValue]
    chains over a context without values.  Contexts that add a deadline or
    a cancelation pass [Value] on to their parent. *)
Inductive Context : Type :=
| Background
| WithValue (parent : Context) (k : any_key) (v : value).

(** [ctx.Value(k)]: the value of the innermost [WithValue] for [k], or nil. *)
Fixpoint Value (ctx : Context) (k : any_key) : value :=
  match ctx with
  | Background => VNil
  | WithValue parent k' v => if decide (k' = k) then v else Value parent k
  end.

(** GraphQLRequestName returns the GraphQL request name for a request
    context, "unknown" without one: [v, ok := ....(string)]. *)
Definition GraphQLRequestName (ctx : Context) : string :=
  match Value ctx (PackageKey graphQLRequestNameKey) with
  | VString v => v
  | _ => "unknown"
  end.

Definition WithGraphQLRequestName (ctx : Context) (name : string) : Context :=
  WithValue ctx (PackageKey graphQLRequestNameKey) (VString name).

(** RequestOrigin: "unknown" for nil, [v.(string)] otherwise, which panics
    (None) on a value that is no string. *)
Definition RequestOrigin (ctx : Context) : option string :=
  match Value ctx (PackageKey originKey) with
  | VNil => Some "unknown"
  | VString v => Some v
  | _ => None
  end.

Definition WithRequestOrigin (ctx : Context) (name : string) : Context :=
  WithValue ctx (PackageKey originKey) (VString name).

(** [type SourceType string] and its constants. *)
Definition SourceBrowser : string := "browser".
Definition SourceQueryRunner : string := "query-runner".
Definition SourceOther : string := "other".

Definition WithRequestSource (ctx : Context) (source : string) : Context :=
  WithValue ctx (PackageKey sourceKey) (VSourceType source).

(** RequestSource: SourceOther for nil, [v.(SourceType)] otherwise, which
    panics (None) on a value of another type. *)
Definition RequestSource (ctx : Context) : option string :=
  match Value ctx (PackageKey sourceKey) with
  | VNil => Some SourceOther
  | VSourceType s => Some s
  | _ => None
  end.

(** The variables that pointers in a context point to. *)
Inductive cell : Type :=
| CString (s : string)
| CInt32 (n : Z)
| CError (e : option error).

(** User: [if p, ok := ctx.Value(userKey).( *int32); ok { *p = userID }];
    the assignment through a nil pointer panics (None). *)
Definition User (ctx : Context) (userID : Z) (h : gmap nat cell)
  : option (gmap nat cell) :=
  match Value ctx (PackageKey userKey) with
  | VInt32Ptr (Some p) => Some (<[p := CInt32 userID]> h)
  | VInt32Ptr None => None
  | _ => Some h
  end.

(** SetRequestErrorCause will set the error for the request to err. *)
Definition SetRequestErrorCause (ctx : Context) (err : option error)
    (h : gmap nat cell) : option (gmap nat cell) :=
  match Value ctx (PackageKey requestErrorCauseKey) with
  | VErrorPtr (Some p) => Some (<[p := CError err]> h)
  | VErrorPtr None => None
  | _ => Some h
  end.

(** SetRouteName manually sets the name for the route; [ctx] is
    [r.Context()]. *)
Definition SetRouteName (ctx : Context) (routeName : string)
    (h : gmap nat cell) : option (gmap nat cell) :=
  match Value ctx (PackageKey routeNameKey) with
  | VStringPtr (Some p) => Some (<[p := CString routeName]> h)
  | VStringPtr None => None
  | _ => Some h
  end.

(** The context HTTPTraceMiddleware hands to the next handler: over the
    context of the request (with the span) it registers pointers to three
    new variables - [routeName := "unknown"], [var userID int32],
    [var requestErrorCause error] - and the origin, which is [trackOrigin]
    if the request header "Origin" has that value, "unknown" otherwise. *)
Record served : Type := {
  sv_ctx : Context;
  sv_heap : gmap nat cell;
  sv_routeName : nat;
  sv_userID : nat;
  sv_requestErrorCause : nat
}.

Definition serve_context (ctx : Context) (h : gmap nat cell)
    (originHeader trackOrigin : string) : served :=
  let pr := fresh (dom h) in
  let h := <[pr := CString "unknown"]> h in
  let ctx := WithValue ctx (PackageKey routeNameKey) (VStringPtr (Some pr)) in
  let pu := fresh (dom h) in
  let h := <[pu := CInt32 0]> h in
  let ctx := WithValue ctx (PackageKey userKey) (VInt32Ptr (Some pu)) in
  let pe := fresh (dom h) in
  let h := <[pe := CError None]> h in
  let ctx := WithValue ctx (PackageKey requestErrorCauseKey) (VErrorPtr (Some pe)) in
  let origin :=
    if bool_decide (originHeader = trackOrigin) then trackOrigin else "unknown" in
  {| sv_ctx := WithRequestOrigin ctx origin; sv_heap := h;
     sv_routeName := pr; sv_userID := pu; sv_requestErrorCause := pe |}.

(** What the handlers below the middleware do with the context: they derive
    contexts from it - with keys of other types, with the exported key
    GraphQLQueryKey, with the setters of the package - and call User,
    SetRequestErrorCause and SetRouteName. *)
Inductive derive : Type :=
| DeriveOther (n : nat) (v : value)
| DeriveGraphQLQuery (v : value)
| DeriveGraphQLRequestName (name : string)
| DeriveRequestOrigin (name : string)
| DeriveRequestSource (source : string).

Definition derive_one (ctx : Context) (d : derive) : Context :=
  match d with
  | DeriveOther n v => WithValue ctx (OtherKey n) v
  | DeriveGraphQLQuery v => WithValue ctx (PackageKey GraphQLQueryKey) v
  | DeriveGraphQLRequestName name => WithGraphQLRequestName ctx name
  | DeriveRequestOrigin name => WithRequestOrigin ctx name
  | DeriveRequestSource source => WithRequestSource ctx source
  end.

Definition derived (ctx : Context) (ds : list derive) : Context :=
  foldl derive_one ctx ds.

(** The key a derivation gives a value to. *)
Definition derive_key (d : derive) : any_key :=
  match d with
  | DeriveOther n _ => OtherKey n
  | DeriveGraphQLQuery _ => PackageKey GraphQLQueryKey
  | DeriveGraphQLRequestName _ => PackageKey graphQLRequestNameKey
  | DeriveRequestOrigin _ => PackageKey originKey
  | DeriveRequestSource _ => PackageKey sourceKey
  end.

Inductive call : Type :=
| CallUser (ds : list derive) (userID : Z)
| CallSetRequestErrorCause (ds : list derive) (err : option error)
| CallSetRouteName (ds : list derive) (routeName : string).

Definition do_call (ctx : Context) (c : call) (h : gmap nat cell)
  : option (gmap nat cell) :=
  match c with
  | CallUser ds userID => User (derived ctx ds) userID h
  | CallSetRequestErrorCause ds err => SetRequestErrorCause (derived ctx ds) err h
  | CallSetRouteName ds routeName => SetRouteName (derived ctx ds) routeName h
  end.

Fixpoint do_calls (ctx : Context) (cs : list call) (h : gmap nat cell)
  : option (gmap nat cell) :=
  match cs with
  | [] => Some h
  | c :: cs' => h' ← do_call ctx c h; do_calls ctx cs' h'
  end.

(** The last value the calls gave to each of the three variables. *)
Fixpoint last_values (cs : list call) (r : string) (u : Z) (e : option error)
  : string * Z * option error :=
  match cs with
  | [] => (r, u, e)
  | CallUser _ userID :: cs' => last_values cs' r userID e
  | CallSetRequestErrorCause _ err :: cs' => last_values cs' r u err
  | CallSetRouteName _ routeName :: cs' => last_values cs' routeName u e
  end.

End Trace.

(** * Properties *)

(** ** Tactics and first facts *)

Ltac unfold_step :=
  unfold step, Start_enter, Start_loop_top, acquire_slot, acquire_ctx_done,
    dequeue_step, after_dequeue, select_step, wait_done, routine_step,
    heartbeat_exit, Cancel, cancel, break_loop, next_delay in *.

(** [wsimpl] reads fields through updates; [wunfold] also opens the updates
    that are not under a field. *)
Ltac wsimpl :=
  cbn [emit set_numDequeues set_handlerSemaphore set_rootCanceled set_wg
       set_finished set_runningIDSet set_numJobs set_canceled set_nextCtx
       set_mainPc set_heartbeatRunning set_routines set_trace
       handler options numDequeues handlerSemaphore rootCanceled wg finished
       runningIDSet numJobs canceled nextCtx mainPc heartbeatRunning routines
       trace fst snd] in *.

Ltac bsimpl :=
  wsimpl;
  cbn [negb andb orb mbind option_bind pd_dequeueable pd_extra pd_err
       dq_record dq_dequeued dq_err mk_marked mk_err act_id act_ctx act_todo] in *;
  wsimpl.

Ltac wunfold :=
  unfold emit, set_numDequeues, set_handlerSemaphore, set_rootCanceled, set_wg,
       set_finished, set_runningIDSet, set_numJobs, set_canceled, set_nextCtx,
       set_mainPc, set_heartbeatRunning, set_routines, set_trace in *;
  wsimpl.

Ltac unfold_body :=
  unfold dequeueAndHandle, dequeueAndHandle_body, preDequeueHook, sem_send,
    perform, handle, mark, IDSet.Add in *.

Ltac solve_hb :=
  repeat (apply Forall_cons; split; [by repeat split|]);
  by apply Forall_nil.

Ltac solve_quiet :=
  repeat (apply Forall_cons; split;
          [by (split; [auto|reflexivity])|]);
  by apply Forall_nil.

(** An invariant of [step] holds in every state an execution reaches. *)
Lemma run_invariant (P : Worker → Prop) :
  (∀ l w w', P w → step l w = Some w' → P w') →
  ∀ s w w', P w → run s w = Some w' → P w'.
Proof.
  intros Hstep s. induction s as [|l s IH]; intros w w' HP Hrun; simpl in Hrun.
  - by simplify_eq.
  - destruct (step l w) as [w1|] eqn:E; simpl in Hrun; [|done].
    eapply IH; [|exact Hrun]. eauto.
Qed.

Lemma run_cons l s w : run (l :: s) w = w' ← step l w; run s w'.
Proof. done. Qed.

Lemma run_app s1 s2 w :
  run (s1 ++ s2) w = w' ← run s1 w; run s2 w'.
Proof.
  revert w. induction s1 as [|l s1 IH]; intros w; simpl; [done|].
  destruct (step l w); simpl; auto.
Qed.

Lemma reachable_step host h o l w w' :
  reachable host h o w → step l w = Some w' → reachable host h o w'.
Proof.
  intros (w0 & s & Hnew & Hrun) Hstep. exists w0, (s ++ [l]). split; [done|].
  rewrite run_app, Hrun. simpl. by rewrite Hstep.
Qed.

Lemma same_but_trans w1 w2 w3 :
  same_but_ids_trace w1 w2 → same_but_ids_trace w2 w3 → same_but_ids_trace w1 w3.
Proof.
  unfold same_but_ids_trace. intros H1 H2. destruct_and!.
  repeat split; congruence.
Qed.

Lemma heartbeat_remove_frame knownIDs w id :
  same_but_ids_trace w (heartbeat_remove knownIDs w id) ∧
  ∃ new, trace (heartbeat_remove knownIDs w id) = trace w ++ new ∧
         Forall hb_quiet new.
Proof.
  unfold heartbeat_remove. case_bool_decide.
  - split; [by repeat split|]. exists []. by rewrite app_nil_r.
  - split; [by repeat split|]. eexists. simpl. rewrite <- app_assoc.
    split; [done|]. solve_hb.
Qed.

Lemma heartbeat_fold_frame knownIDs ids w :
  same_but_ids_trace w (foldl (heartbeat_remove knownIDs) w ids) ∧
  ∃ new, trace (foldl (heartbeat_remove knownIDs) w ids) = trace w ++ new ∧
         Forall hb_quiet new.
Proof.
  revert w. induction ids as [|id ids IH]; intros w; simpl.
  - split; [by repeat split|]. exists []. by rewrite app_nil_r.
  - destruct (IH (heartbeat_remove knownIDs w id)) as [Hs (new & Ht & Hn)].
    destruct (heartbeat_remove_frame knownIDs w id) as [Hs1 (new1 & Ht1 & Hn1)].
    split; [by eapply same_but_trans|].
    exists (new1 ++ new). rewrite Ht, Ht1, app_assoc. split; [done|].
    by apply Forall_app.
Qed.

Lemma heartbeat_log_frame err w :
  same_but_ids_trace w (heartbeat_log err w) ∧
  ∃ new, trace (heartbeat_log err w) = trace w ++ new ∧
         Forall hb_quiet new.
Proof.
  unfold heartbeat_log. destruct err.
  - split; [by repeat split|]. eexists. split; [done|]. solve_hb.
  - split; [by repeat split|]. exists []. by rewrite app_nil_r.
Qed.

Lemma heartbeat_tick_frame knownIDs err w w' :
  heartbeat_tick knownIDs err w = Some w' →
  same_but_ids_trace w w' ∧
  ∃ new, trace w' = trace w ++ new ∧ Forall hb_quiet new.
Proof.
  unfold heartbeat_tick. destruct (heartbeatRunning w) eqn:Hr; [|done].
  intros [= <-].
  set (w1 := emit Heartbeat (EvHeartbeat CtxRoot (IDSet.Slice (runningIDSet w))) w).
  destruct (heartbeat_log_frame err w1) as [Hs2 (new2 & Ht2 & Hn2)].
  destruct (heartbeat_fold_frame knownIDs (IDSet.Slice (runningIDSet w))
              (heartbeat_log err w1)) as [Hs3 (new3 & Ht3 & Hn3)].
  split.
  - eapply same_but_trans; [|exact Hs3]. eapply same_but_trans; [|exact Hs2].
    by repeat split.
  - eexists. rewrite Ht3, Ht2. subst w1. simpl. rewrite <- !app_assoc.
    split; [done|]. simpl. constructor; [by repeat split|]. by apply Forall_app.
Qed.

(** What [handle] does to the state: it appends the call of the handler,
    one terminal store call under the root context, and log lines. *)
Lemma handle_spec k c id handleErr mr w :
  ∃ m logs,
    (handle k c id handleErr mr w).1 =
      set_trace (trace w ++ (Routine k, EvHandle c id) :: (Routine k, m) :: logs) w ∧
    is_mark m = true ∧ mark_ctx m = Some CtxRoot ∧ mark_id m = Some id ∧
    Forall (λ ae, ae.1 = Routine k ∧ is_log ae.2 = true) logs.
Proof.
  unfold handle, mark. destruct w; wunfold.
  repeat (case_match; simplify_eq; wunfold);
    eexists _, _; rewrite <- ?app_assoc; simpl;
    (split; [reflexivity|]); repeat split; repeat constructor.
Qed.

Lemma sem_send_Some w w' :
  sem_send w = Some w' →
  (w' = set_handlerSemaphore (S (handlerSemaphore w)) w ∧
   (handlerSemaphore w < capacity w)%nat) ∨
  (w' = set_mainPc MHoldSlot w ∧ capacity w = 0%nat ∧ mainPc w = MAcquire).
Proof.
  unfold sem_send. intros H.
  destruct (handlerSemaphore w <? capacity w)%nat eqn:E1.
  - left. apply Nat.ltb_lt in E1. by simplify_eq.
  - destruct (capacity w =? 0)%nat eqn:E2; [|done].
    apply Nat.eqb_eq in E2. destruct (mainPc w) eqn:E3; try done.
    right. by simplify_eq.
Qed.

Lemma perform_handle_spec k a handleErr mr w w1 :
  perform k a ActHandle handleErr mr w = Some w1 →
  ∃ m logs,
    w1 = set_trace (trace w ++ (Routine k, EvHandle (CtxHandle (act_ctx a)) (act_id a))
                             :: (Routine k, m) :: logs) w ∧
    is_mark m = true ∧ mark_ctx m = Some CtxRoot ∧ mark_id m = Some (act_id a) ∧
    Forall (λ ae, ae.1 = Routine k ∧ is_log ae.2 = true) logs.
Proof.
  unfold perform.
  destruct (handle_spec k (CtxHandle (act_ctx a)) (act_id a) handleErr mr w)
    as (m & logs & Hw & Hm & Hc & Hi & Hl).
  destruct (handle k (CtxHandle (act_ctx a)) (act_id a) handleErr mr w) as [w2 [e|]];
    simpl in Hw; subst w2; intros [= <-].
  - exists m, (logs ++ [(Routine k, EvLog "error" "Failed to finalize record" (Error e))]).
    wunfold. rewrite <- app_assoc. simpl. repeat split; try done.
    apply Forall_app. split; [done|]. by repeat constructor.
  - by exists m, logs.
Qed.

Lemma routine_step_spec k handleErr mr w w' :
  routine_step k handleErr mr w = Some w' →
  ∃ a act rest w1,
    routines w !! k = Some a ∧ act_todo a = act :: rest ∧
    perform k a act handleErr mr w = Some w1 ∧
    w' = set_routines (<[k := set_todo rest a]> (routines w1)) w1.
Proof.
  unfold routine_step. intros H.
  destruct (routines w !! k) as [a|] eqn:Ha; [|done].
  destruct (act_todo a) as [|act rest] eqn:Ht; [done|].
  destruct (perform k a act handleErr mr w) as [w1|] eqn:Hp; [|done].
  simpl in H. simplify_eq. by exists a, act, rest, w1.
Qed.

(** A routine step, call by call. *)
Ltac routine_cases H :=
  let a := fresh "a" in let act := fresh "act" in let rest := fresh "rest" in
  let w1 := fresh "w1" in let Ha := fresh "Ha" in let Ht := fresh "Ht" in
  let Hp := fresh "Hp" in let m := fresh "m" in let logs := fresh "logs" in
  let Hm := fresh "Hm" in let Hc := fresh "Hc" in let Hi := fresh "Hi" in
  let Hl := fresh "Hl" in let w0 := fresh "w0" in let Hs := fresh "Hs" in
  apply routine_step_spec in H as (a & act & rest & w1 & Ha & Ht & Hp & ->);
  destruct act;
  [ apply perform_handle_spec in Hp as (m & logs & -> & Hm & Hc & Hi & Hl)
  | simpl in Hp; simplify_eq
  | simpl in Hp; simplify_eq
  | simpl in Hp; destruct (sem_send _) as [w0|] eqn:Hs; simpl in Hp; [|done];
    simplify_eq; apply sem_send_Some in Hs as [[-> Hs]|(-> & Hs & ?)]
  | simpl in Hp; simplify_eq
  | simpl in Hp; simplify_eq ].

Ltac main_cases :=
  unfold_step; unfold_body; intros; simplify_option_eq;
  repeat (case_match; simplify_option_eq); wsimpl.

(** The handler and the options never change. *)
Lemma step_handler_options l w w' :
  step l w = Some w' → handler w' = handler w ∧ options w' = options w.
Proof.
  destruct l.
  9: { simpl. intros H. routine_cases H; done. }
  9: { simpl. intros H. apply heartbeat_tick_frame in H as [Hs _].
       unfold same_but_ids_trace in Hs. tauto. }
  all: main_cases; done.
Qed.

(** ** The semaphore, the wait group and the routines *)

Lemma count_app {A} (f : A → bool) l1 l2 :
  count f (l1 ++ l2) = (count f l1 + count f l2)%nat.
Proof. induction l1 as [|x l1 IH]; simpl; [done|]. rewrite IH. lia. Qed.

Lemma count_insert {A} (f : A → bool) (l : list A) k a b :
  l !! k = Some a →
  (count f (<[k := b]> l) + (if f a then 1 else 0) =
   count f l + (if f b then 1 else 0))%nat.
Proof.
  revert k. induction l as [|x l IH]; intros [|k] H; simplify_eq/=.
  - lia.
  - specialize (IH _ H). lia.
Qed.

Lemma count_zero_Forall {A} (f : A → bool) l :
  count f l = 0%nat ↔ Forall (λ x, f x = false) l.
Proof.
  induction l as [|x l IH]; simpl.
  - split; [constructor|done].
  - rewrite Forall_cons. destruct (f x); simpl.
    + split; [done|]. by intros [? _].
    + rewrite IH. tauto.
Qed.

Lemma routineProgram_NoDup h : NoDup (routineProgram h).
Proof.
  destruct h as [? []]; vm_compute; repeat (apply NoDup_cons; split; [set_solver|]);
    apply NoDup_nil_2.
Qed.

Lemma routineProgram_holds h :
  ActSemRelease ∈ routineProgram h ∧ ActWgDone ∈ routineProgram h.
Proof. destruct h as [? []]; vm_compute; set_solver. Qed.

(** The next call of a routine does not come again. *)
Lemma todo_head_fresh h act rest :
  suffix (act :: rest) (routineProgram h) →
  (act ∉ rest) ∧ suffix rest (routineProgram h).
Proof.
  intros Hs. split.
  - destruct Hs as [pre Hs]. pose proof (routineProgram_NoDup h) as Hn.
    rewrite Hs in Hn. apply NoDup_app in Hn as (_ & _ & Hn).
    by apply NoDup_cons in Hn as [? _].
  - by eapply suffix_cons_l.
Qed.

Lemma todo_head_fresh_in (w : Worker) k a act rest :
  slots_inv w → act_todo a = act :: rest → routines w !! k = Some a → act ∉ rest.
Proof.
  intros Hs Ht Hk.
  assert (Hsuf : suffix (act :: rest) (routineProgram (handler w))).
  { rewrite <- Ht. eapply (Forall_lookup_1 _ _ _ _ (inv_todo _ Hs) Hk). }
  by apply todo_head_fresh in Hsuf as [? _].
Qed.

Lemma newWorker_slots host h o w :
  newWorker host h o = Some w → slots_inv w.
Proof.
  unfold newWorker. intros H. repeat case_match; simplify_eq.
  all: split; unfold running, main_holds, capacity; simpl; try done; lia.
Qed.

(** The change of the two counts when the k-th routine has made its call. *)
Lemma routine_advance h (rs : list activity) k a act rest :
  rs !! k = Some a → act_todo a = act :: rest →
  Forall (λ a, act_todo a `suffix_of` routineProgram h) rs →
  Forall (λ a, act_todo a `suffix_of` routineProgram h) (<[k := set_todo rest a]> rs) ∧
  (count holds_slot (<[k := set_todo rest a]> rs) + (if bool_decide (act = ActSemRelease) then 1 else 0)
   = count holds_slot rs)%nat ∧
  (count counted (<[k := set_todo rest a]> rs) + (if bool_decide (act = ActWgDone) then 1 else 0)
   = count counted rs)%nat.
Proof.
  intros Hk Ht Hall.
  assert (Hsuf : (act :: rest) `suffix_of` routineProgram h).
  { rewrite <- Ht. by eapply (Forall_lookup_1 _ _ _ _ Hall Hk). }
  apply todo_head_fresh in Hsuf as [Hfresh Hsuf].
  split; [|split].
  - apply Forall_insert; done.
  - pose proof (count_insert holds_slot rs k a (set_todo rest a) Hk) as Hc.
    unfold holds_slot in *. rewrite Ht in Hc. simpl in Hc.
    repeat case_bool_decide; set_solver by lia.
  - pose proof (count_insert counted rs k a (set_todo rest a) Hk) as Hc.
    unfold counted in *. rewrite Ht in Hc. simpl in Hc.
    repeat case_bool_decide; set_solver by lia.
Qed.

Lemma step_slots l w w' :
  slots_inv w → step l w = Some w' → slots_inv w'.
Proof.
  intros [Hs Ht Hw] H. destruct l.
  9: { simpl in H. unfold running in *.
       routine_cases H;
         destruct (routine_advance (handler w) (routines w) k a _ rest Ha Ht0 Ht)
           as (Hf & Hc1 & Hc2);
         split; unfold running, main_holds, capacity in *; wsimpl;
         try rewrite H in *; simpl in *; try done; try lia. }
  9: { simpl in H. apply heartbeat_tick_frame in H as [Hf _].
       destruct Hf as (Eh & Eo & _ & Es & _ & Ew & _ & _ & _ & _ & Ep & _ & Er).
       split; unfold running, main_holds, capacity;
         rewrite ?Eh, ?Eo, ?Es, ?Ew, ?Ep, ?Er; done. }
  5: { unfold step, dequeue_step in H.
       destruct (mainPc w) eqn:Hpc; try done.
       destruct (dequeueAndHandle pre dq w) as [[w1 [ok err]]|] eqn:Hd; [|done].
       simpl in H. simplify_eq.
       unfold dequeueAndHandle, dequeueAndHandle_body, preDequeueHook, IDSet.Add in Hd.
       assert (Hprog := routineProgram_holds (handler w)).
       repeat (case_match; simplify_option_eq);
         try match goal with Hx : sem_send _ = Some _ |- _ =>
           apply sem_send_Some in Hx as [[-> Hx]|(-> & Hx & ?)] end;
         split; unfold running, main_holds, capacity, holds_slot, counted in *;
         wsimpl; rewrite ?Hpc in *; rewrite ?count_app, ?Forall_app; cbn [count act_todo];
         rewrite ?bool_decide_eq_true_2 by tauto;
         try done; try lia.
       all: split; [done|]. all: by repeat constructor. }
  all: revert H; main_cases;
    split; unfold running, main_holds, capacity, sem_ready in *; wsimpl;
    repeat match goal with Hx : mainPc _ = _ |- _ => rewrite Hx in * end;
    try done; try lia.
  all: repeat match goal with
              | Hx : (_ <? _)%nat = true |- _ => apply Nat.ltb_lt in Hx
              end; lia.
Qed.

(** The invariant of the slots holds in every state of every execution. *)
Lemma reachable_slots host h o w :
  reachable host h o w →
  slots_inv w ∧ handler w = h ∧ NumHandlers (options w) = NumHandlers o ∧
  NumTotalJobs (options w) = NumTotalJobs o ∧
  MaxActiveTime (options w) = MaxActiveTime o ∧ 0 ≤ NumHandlers o.
Proof.
  intros (w0 & s & Hnew & Hrun).
  eapply (run_invariant (λ w, slots_inv w ∧ handler w = h ∧
            NumHandlers (options w) = NumHandlers o ∧
            NumTotalJobs (options w) = NumTotalJobs o ∧
            MaxActiveTime (options w) = MaxActiveTime o ∧ 0 ≤ NumHandlers o));
    [| |exact Hrun].
  - intros l w1 w2 (Hi & Hh & Hn & Ht & Hm & H0) Hstep.
    destruct (step_handler_options _ _ _ Hstep) as [-> ->].
    split; [by eapply step_slots|done].
  - split; [by eapply newWorker_slots|].
    unfold newWorker in Hnew. repeat case_match; simplify_eq; simpl; repeat split; lia.
Qed.

(** With a slot in hand dequeueAndHandle always returns: its deferred send
    finds room in the channel. *)
Lemma dequeue_step_returns pre dq w :
  slots_inv w → mainPc w = MHoldSlot →
  ∃ w' err,
    step (LDequeue pre dq) w = Some w' ∧
    mainPc w' = MReturned (hands_off pre dq w) err ∧
    (hands_off pre dq w = false →
       handlerSemaphore w' = S (handlerSemaphore w) ∧ routines w' = routines w) ∧
    (hands_off pre dq w = true →
       handlerSemaphore w' = handlerSemaphore w ∧
       ∃ c, routines w' =
              routines w ++ [{| act_id := dq_record dq; act_ctx := c;
                                act_todo := routineProgram (handler w) |}]).
Proof.
  intros [Hs _ _] Hpc. unfold main_holds in Hs. rewrite Hpc in Hs.
  assert (Hroom : (handlerSemaphore w <? capacity w)%nat = true)
    by (apply Nat.ltb_lt; lia).
  unfold step, dequeue_step, dequeueAndHandle, dequeueAndHandle_body,
    preDequeueHook, hands_off, IDSet.Add, IDSet.Has. rewrite Hpc.
  destruct (WithPreDequeue (handler w)) eqn:Ehook; bsimpl;
    destruct (pd_err pre) eqn:E1; bsimpl;
    try destruct (pd_dequeueable pre) eqn:E2; bsimpl;
    try destruct (dq_err dq) eqn:E3; bsimpl;
    try destruct (dq_dequeued dq) eqn:E4; bsimpl;
    try destruct (runningIDSet w !! dq_record dq) eqn:E5; bsimpl;
    unfold sem_send, capacity in *; bsimpl; rewrite ?Hroom; bsimpl;
    rewrite ?bool_decide_eq_true_2 by eauto;
    rewrite ?bool_decide_eq_false_2 by (intros [? ?]; done);
    try destruct (WithHooks (handler w)) eqn:E6; bsimpl;
    eexists _, _; (split; [reflexivity|]); bsimpl; (split; [reflexivity|]);
    (split; [intros; try done|intros; try done]); eauto.
Qed.

Lemma count_lookup {A} (f : A → bool) (l : list A) k a :
  l !! k = Some a → f a = true → (1 ≤ count f l)%nat.
Proof.
  revert k. induction l as [|x l IH]; intros [|k] H Hf; simplify_eq/=.
  - rewrite Hf. lia.
  - specialize (IH _ H Hf). lia.
Qed.

(** A routine that has a call left can always make it: the only call that
    could block, the send on the semaphore, finds room. *)
Lemma routine_step_enabled k handleErr mr w a act rest :
  slots_inv w → routines w !! k = Some a → act_todo a = act :: rest →
  ∃ w', step (LRoutine k handleErr mr) w = Some w'.
Proof.
  intros [Hs Ht _] Hk Htodo. unfold step, routine_step. rewrite Hk, Htodo.
  destruct act; unfold perform.
  - destruct (handle _ _ _ _ _ _) as [w1 [e|]]; simpl; eauto.
  - simpl; eauto.
  - simpl; eauto.
  - assert (Hh : holds_slot a = true).
    { unfold holds_slot. rewrite Htodo. apply bool_decide_eq_true_2. set_solver. }
    pose proof (count_lookup holds_slot _ _ _ Hk Hh) as Hc. unfold running in Hs.
    unfold sem_send.
    assert (Hroom : (handlerSemaphore w <? capacity w)%nat = true)
      by (apply Nat.ltb_lt; lia).
    rewrite Hroom. simpl; eauto.
  - simpl; eauto.
  - simpl; eauto.
Qed.

Lemma count_le {A} (f g : A → bool) (l : list A) :
  Forall (λ a, f a = true → g a = true) l → (count f l ≤ count g l)%nat.
Proof.
  induction 1 as [|a l Ha _ IH]; simpl; [done|].
  destruct (f a); [rewrite Ha by done|destruct (g a)]; lia.
Qed.

(** A routine whose handler has not returned holds its slot. *)
Lemma handling_holds_slot h t :
  suffix t (routineProgram h) → ActHandle ∈ t → ActSemRelease ∈ t.
Proof.
  intros [pre Hs] Hn. destruct h as [? []]; vm_compute in Hs;
    do 8 (destruct pre as [|? pre]; simplify_eq/=; try set_solver).
Qed.

Lemma hands_off_false pre dq w :
  hands_off pre dq w = false ↔
  (WithPreDequeue (handler w) = true ∧ (pd_err pre ≠ None ∨ pd_dequeueable pre = false))
  ∨ dq_err dq ≠ None ∨ dq_dequeued dq = false
  ∨ IDSet.Has (dq_record dq) (runningIDSet w) = true.
Proof.
  unfold hands_off.
  destruct (WithPreDequeue (handler w)), (pd_dequeueable pre), (dq_dequeued dq),
    (IDSet.Has (dq_record dq) (runningIDSet w)), (pd_err pre), (dq_err dq);
    simpl; rewrite ?bool_decide_eq_true_2 by done;
    rewrite ?bool_decide_eq_false_2 by done; simpl; naive_solver.
Qed.

(** ** Bounded parallelism *)

(** C5. In every state of every execution the number of running handler
    activities (the routines that have not yet sent their slot back; among
    them all those whose handler has not returned) is at most NumHandlers;
    the slots in the channel, those of the running activities and the one of
    the main routine add up to NumHandlers; and an iteration that holds a
    slot always returns from dequeueAndHandle: when it does not hand the
    record to a routine (hook error or decline, dequeue error, no record,
    duplicate id) the slot is back in the channel at that point and no
    routine was started. *)
Theorem handler_slots_bounded host h o w :
  reachable host h o w →
  Z.of_nat (running w) ≤ NumHandlers o ∧
  (count (λ a, negb (handled a)) (routines w) ≤ running w)%nat ∧
  Z.of_nat (handlerSemaphore w + running w + main_holds w) = NumHandlers o ∧
  (mainPc w = MHoldSlot → ∀ pre dq, ∃ w' err,
     step (LDequeue pre dq) w = Some w' ∧
     mainPc w' = MReturned (hands_off pre dq w) err ∧
     (hands_off pre dq w = false ↔
        (WithPreDequeue (handler w) = true ∧
         (pd_err pre ≠ None ∨ pd_dequeueable pre = false))
        ∨ dq_err dq ≠ None ∨ dq_dequeued dq = false
        ∨ IDSet.Has (dq_record dq) (runningIDSet w) = true) ∧
     (hands_off pre dq w = false →
        handlerSemaphore w' = S (handlerSemaphore w) ∧ main_holds w' = 0%nat ∧
        routines w' = routines w)).
Proof.
  intros Hr. destruct (reachable_slots _ _ _ _ Hr) as (Hi & _ & Hn & _ & _ & H0).
  pose proof (inv_slots _ Hi) as Hs. unfold capacity in Hs. rewrite Hn in Hs.
  split; [lia|]. split.
  { apply count_le. eapply Forall_impl; [exact (inv_todo _ Hi)|].
    intros a Hsuf Hnh. unfold handled in Hnh. unfold holds_slot.
    apply bool_decide_eq_true_2. eapply handling_holds_slot; [exact Hsuf|].
    apply negb_true_iff, bool_decide_eq_false_1 in Hnh.
    destruct (decide (ActHandle ∈ act_todo a)); [done|]. by destruct Hnh. }
  split; [lia|].
  intros Hpc pre dq.
  destruct (dequeue_step_returns pre dq w Hi Hpc) as (w' & err & Hstep & Hpc' & Hno & _).
  exists w', err. split; [done|]. split; [done|]. split; [apply hands_off_false|].
  intros Hf. destruct (Hno Hf) as [? ?]. unfold main_holds. rewrite Hpc'. done.
Qed.

Lemma handler_slots_bounded_witness :
  ∃ w, start_worker "host" Scenario.hooks (Scenario.options_of 2 0 0)
         Scenario.holding_slot = Some w ∧
       Z.of_nat (running w) ≤ 2 ∧
       ∃ w' err,
         step (LDequeue Scenario.pre_ok Scenario.no_record) w = Some w' ∧
         mainPc w' = MReturned false err ∧
         handlerSemaphore w' = 1%nat ∧ main_holds w' = 0%nat ∧
         routines w' = routines w.
Proof.
  eexists. split; [vm_compute; reflexivity|].
  match goal with |- Z.of_nat (running ?w) ≤ _ ∧ _ =>
    assert (Hr : reachable "host" Scenario.hooks (Scenario.options_of 2 0 0) w)
      by (exists (default w (newWorker "host" Scenario.hooks (Scenario.options_of 2 0 0))),
            Scenario.holding_slot; split; vm_compute; reflexivity);
    pose proof (handler_slots_bounded "host" Scenario.hooks
                  (Scenario.options_of 2 0 0) w Hr) as (Hb & _ & _ & Hd)
  end.
  split; [exact Hb|].
  destruct (Hd eq_refl Scenario.pre_ok Scenario.no_record)
    as (w' & err & Hstep & Hpc & _ & Hno).
  exists w', err. split; [exact Hstep|]. split; [exact Hpc|]. by apply Hno.
Defined.

(** ** What a step adds to the history *)

Ltac solve_routines :=
  first [ by (left; split; reflexivity)
        | by (right; eexists; split; [reflexivity|]; split; reflexivity) ].

Ltac close_trace :=
  rewrite <- ?app_assoc;
  first [ exists []; rewrite app_nil_r; split; [reflexivity|]
        | eexists; split; [reflexivity|] ];
  (split; [solve_quiet|solve_routines]).

(** A step of the main routine, of the heartbeat, or from outside. *)
Lemma step_trace_main l w w' :
  (∀ k handleErr mr, l ≠ LRoutine k handleErr mr) →
  step l w = Some w' →
  ∃ new, trace w' = trace w ++ new ∧
    Forall quiet new ∧
    ((routines w' = routines w ∧ count is_dequeued_log new = 0%nat) ∨
     (∃ a, routines w' = routines w ++ [a] ∧
           act_todo a = routineProgram (handler w) ∧
           count is_dequeued_log new = 1%nat)).
Proof.
  intros Hl H. destruct l.
  9: { by destruct (Hl k handleErr mr). }
  9: { simpl in H. apply heartbeat_tick_frame in H as [Hf (new & Ht & Hn)].
       destruct Hf as (_ & _ & _ & _ & _ & _ & _ & _ & _ & _ & _ & _ & Er).
       exists new. split; [done|]. split.
       { eapply Forall_impl; [exact Hn|]. intros ae (? & ? & ?). split; auto. }
       left. split; [done|]. clear -Hn.
       induction Hn as [|[a e] new [Ha He] _ IH]; [done|].
       simpl in *. subst a. done. }
  5: { unfold step, dequeue_step in H.
       destruct (mainPc w) eqn:Hpc; try done.
       destruct (dequeueAndHandle pre dq w) as [[w1 [ok err]]|] eqn:Hd; [|done].
       simpl in H. simplify_eq.
       unfold dequeueAndHandle, dequeueAndHandle_body, preDequeueHook, IDSet.Add in Hd.
       repeat (case_match; simplify_option_eq);
         try match goal with Hx : sem_send _ = Some _ |- _ =>
           apply sem_send_Some in Hx as [[-> Hx]|(-> & Hx & ?)] end;
         wsimpl; unfold quiet; close_trace. }
  all: revert H; main_cases; unfold quiet; close_trace.
Qed.

Lemma logs_no_phase k (logs : list (actor * event)) :
  Forall (λ ae, ae.1 = Routine k ∧ is_log ae.2 = true) logs →
  Forall (by_routine k) logs ∧ omap phase_of logs.*2 = [] ∧
  count is_dequeued_log logs = 0%nat ∧ count is_mark logs.*2 = 0%nat.
Proof.
  induction 1 as [|[a e] logs [Ha He] _ (IH1 & IH2 & IH3 & IH4)]; [done|].
  simpl in *. subst a. destruct e; try done. simpl.
  repeat split; try done. constructor; [|done]. split; [done|]. done.
Qed.

(** A step of the k-th handler routine. *)
Lemma step_trace_routine k handleErr mr w w' :
  step (LRoutine k handleErr mr) w = Some w' →
  ∃ a act rest new,
    routines w !! k = Some a ∧ act_todo a = act :: rest ∧
    routines w' = <[k := set_todo rest a]> (routines w) ∧
    trace w' = trace w ++ new ∧
    Forall (by_routine k) new ∧
    omap phase_of new.*2 = action_phases act ∧
    count is_dequeued_log new = 0%nat ∧
    count is_mark new.*2 = (if bool_decide (act = ActHandle) then 1 else 0)%nat.
Proof.
  simpl. intros H. routine_cases H.
  - destruct (logs_no_phase _ _ Hl) as (L1 & L2 & L3 & L4).
    eexists a, ActHandle, rest, _. wsimpl.
    split; [done|]. split; [done|]. split; [done|]. split; [reflexivity|].
    split; [|split; [|split]].
    + constructor; [by split|]. constructor; [by split|]. done.
    + cbn [fmap list_fmap snd omap list_omap phase_of]. change (list_fmap _ _ snd logs) with (logs.*2).
      change (list_omap _ _ phase_of (logs.*2)) with (omap phase_of logs.*2).
      rewrite L2. destruct m; done.
    + cbn [count is_dequeued_log]. by rewrite L3.
    + cbn [fmap list_fmap snd count is_mark]. change (list_fmap _ _ snd logs) with (logs.*2).
      rewrite L4, Hm. done.
  - eexists a, ActPostHandle, rest, _. wsimpl. repeat split; try done.
    repeat constructor; done.
  - eexists a, ActNumJobsDec, rest, _. wsimpl. repeat split; try done.
    repeat constructor; done.
  - eexists a, ActSemRelease, rest, _. wsimpl. repeat split; try done.
    repeat constructor; done.
  - eexists a, ActSemRelease, rest, _. wsimpl. repeat split; try done.
    repeat constructor; done.
  - eexists a, ActWgDone, rest, _. wsimpl. repeat split; try done.
    repeat constructor; done.
  - eexists a, ActRemove, rest, _. wsimpl. repeat split; try done.
    repeat constructor; done.
Qed.

(** ** The history of a routine follows its program *)

Lemma events_of_app a t1 t2 :
  events_of a (t1 ++ t2) = events_of a t1 ++ events_of a t2.
Proof. unfold events_of. apply omap_app. Qed.

Lemma events_of_same k new :
  Forall (by_routine k) new → events_of (Routine k) new = new.*2.
Proof.
  induction 1 as [|[a e] new [Ha _] _ IH]; [done|].
  simpl in *. subst a. unfold events_of in *. simpl.
  rewrite bool_decide_eq_true_2 by done. by rewrite IH.
Qed.

Lemma events_of_other a new :
  Forall (λ ae : actor * event, ae.1 ≠ a) new → events_of a new = [].
Proof.
  induction 1 as [|[b e] new Hb _ IH]; [done|].
  simpl in *. unfold events_of in *. simpl.
  rewrite bool_decide_eq_false_2 by done. done.
Qed.

Lemma events_of_quiet k new :
  Forall quiet new → events_of (Routine k) new = [].
Proof.
  intros H. apply events_of_other. eapply Forall_impl; [exact H|].
  intros [a e] [[Ha|Ha] _]; simpl in *; subst a; done.
Qed.

Lemma by_routine_other k k' new :
  k ≠ k' → Forall (by_routine k) new →
  Forall (λ ae : actor * event, ae.1 ≠ Routine k') new.
Proof.
  intros Hk H. eapply Forall_impl; [exact H|].
  intros [a e] [Ha _]; simpl in *; subst a. congruence.
Qed.

Lemma program_phases_cons act rest :
  program_phases (act :: rest) = action_phases act ++ program_phases rest.
Proof. done. Qed.

Lemma program_has_handle h : ActHandle ∈ routineProgram h.
Proof. destruct h as [? []]; vm_compute; set_solver. Qed.

Lemma newWorker_history host h o w :
  newWorker host h o = Some w → history_inv w.
Proof.
  unfold newWorker. intros H. repeat case_match; simplify_eq.
  all: split; unfold successful_dequeues; simpl; try done.
Qed.

Lemma step_history l w w' :
  slots_inv w → history_inv w → step l w = Some w' → history_inv w'.
Proof.
  intros Hslots [Hp Hm Hf Hr Hd] H.
  destruct (step_handler_options _ _ _ H) as [Hh _].
  assert (Hcase : (∃ k handleErr mr, l = LRoutine k handleErr mr)
                  ∨ (∀ k handleErr mr, l ≠ LRoutine k handleErr mr))
    by (destruct l; eauto; right; done).
  destruct Hcase as [(k & handleErr & mr & ->)|Hmain].
  - apply step_trace_routine in H
      as (a & act & rest & new & Ha & Ht & Hrs & Htr & Hby & Hph & Hdq & Hmk).
    assert (Hsuf : suffix (act :: rest) (routineProgram (handler w))).
    { rewrite <- Ht. eapply (Forall_lookup_1 _ _ _ _ (inv_todo _ Hslots) Ha). }
    apply todo_head_fresh in Hsuf as [Hfresh _].
    assert (Hlen : (k < length (routines w))%nat) by (by eapply lookup_lt_Some).
    split; rewrite ?Hh, ?Hrs, ?Htr.
    + intros k' a' Hk'. unfold phases_of. rewrite events_of_app, omap_app.
      destruct (decide (k' = k)) as [->|Hne].
      * rewrite list_lookup_insert_eq in Hk' by done. simplify_eq. simpl.
        rewrite (events_of_same _ _ Hby), Hph. rewrite <- app_assoc.
        rewrite <- program_phases_cons, <- Ht. by apply Hp.
      * rewrite list_lookup_insert_ne in Hk' by done.
        rewrite (events_of_other _ _ (by_routine_other k k' _ ltac:(done) Hby)).
        simpl. rewrite app_nil_r. by apply Hp.
    + intros k' a' Hk'. unfold marks_of. rewrite events_of_app, count_app.
      destruct (decide (k' = k)) as [->|Hne].
      * rewrite list_lookup_insert_eq in Hk' by done. simplify_eq. simpl.
        rewrite (events_of_same _ _ Hby), Hmk.
        specialize (Hm _ _ Ha). rewrite Ht in Hm. unfold marks_of in Hm.
        repeat case_bool_decide; set_solver by lia.
      * rewrite list_lookup_insert_ne in Hk' by done.
        rewrite (events_of_other _ _ (by_routine_other k k' _ ltac:(done) Hby)).
        simpl. specialize (Hm _ _ Hk'). unfold marks_of in Hm. lia.
    + intros k' Hk'. rewrite length_insert in Hk'. rewrite events_of_app.
      rewrite (Hf _ Hk').
      rewrite (events_of_other _ _ (by_routine_other k k' _ ltac:(lia) Hby)). done.
    + apply Forall_app. split; [done|]. eapply Forall_impl; [exact Hby|].
      intros ae [_ ?]. done.
    + unfold successful_dequeues in *. rewrite Htr, count_app, Hdq, length_insert. lia.
  - apply step_trace_main in H as (new & Htr & Hq & Hrs); [|done].
    assert (Hroot : Forall (λ ae : actor * event,
               is_mark ae.2 = true → mark_ctx ae.2 = Some CtxRoot) (trace w ++ new)).
    { apply Forall_app. split; [done|]. eapply Forall_impl; [exact Hq|].
      intros [a e] [_ Hn]; simpl in *. destruct e; simpl in *; done. }
    destruct Hrs as [[Hrs Hc]|(a & Hrs & Ha & Hc)].
    + split; rewrite ?Hh, ?Hrs, ?Htr; try done.
      * intros k a Hk. unfold phases_of. rewrite events_of_app, (events_of_quiet _ _ Hq).
        rewrite app_nil_r. by apply Hp.
      * intros k a Hk. unfold marks_of. rewrite events_of_app, (events_of_quiet _ _ Hq).
        rewrite app_nil_r. by apply Hm.
      * intros k Hk. rewrite events_of_app, (events_of_quiet _ _ Hq), app_nil_r.
        by apply Hf.
      * unfold successful_dequeues in *. rewrite Htr, count_app. lia.
    + split; rewrite ?Hh, ?Hrs, ?Htr; try done.
      * intros k a' Hk. unfold phases_of. rewrite events_of_app, (events_of_quiet _ _ Hq).
        rewrite app_nil_r. apply lookup_app_Some in Hk as [Hk|[Hlen Hk]].
        -- by apply Hp.
        -- destruct (k - length (routines w))%nat eqn:E; simplify_eq/=.
           rewrite (Hf k) by lia. simpl. by rewrite Ha.
      * intros k a' Hk. unfold marks_of. rewrite events_of_app, (events_of_quiet _ _ Hq).
        rewrite app_nil_r. apply lookup_app_Some in Hk as [Hk|[Hlen Hk]].
        -- by apply Hm.
        -- destruct (k - length (routines w))%nat eqn:E; simplify_eq/=.
           rewrite (Hf k) by lia. simpl. rewrite Ha.
           rewrite bool_decide_eq_true_2 by apply program_has_handle. done.
      * intros k Hk. rewrite length_app in Hk. simpl in Hk.
        rewrite events_of_app, (events_of_quiet _ _ Hq), app_nil_r.
        apply Hf. lia.
      * unfold successful_dequeues in *. rewrite Htr, count_app, length_app. simpl. lia.
Qed.

Lemma start_worker_reachable host h o s w :
  start_worker host h o s = Some w → reachable host h o w.
Proof.
  unfold start_worker, reachable. intros H.
  destruct (newWorker host h o) as [w0|] eqn:E; [|done]. eauto.
Qed.

(** The invariants hold in every state of every execution. *)
Lemma reachable_inv host h o w :
  reachable host h o w → slots_inv w ∧ history_inv w ∧ handler w = h.
Proof.
  intros (w0 & s & Hnew & Hrun).
  eapply (run_invariant (λ w, slots_inv w ∧ history_inv w ∧ handler w = h));
    [| |exact Hrun].
  - intros l w1 w2 (Hi & Hh & He) Hstep.
    destruct (step_handler_options _ _ _ Hstep) as [-> _].
    split; [by eapply step_slots|]. split; [by eapply step_history|done].
  - split; [by eapply newWorker_slots|]. split; [by eapply newWorker_history|].
    unfold newWorker in Hnew. repeat case_match; by simplify_eq.
Qed.

Lemma program_is_order h : program_phases (routineProgram h) = routine_order h.
Proof. by destruct h as [? []]. Qed.

Lemma routine_order_NoDup h : NoDup (routine_order h).
Proof.
  destruct h as [? []]; vm_compute; repeat (apply NoDup_cons; split; [set_solver|]);
    apply NoDup_nil_2.
Qed.

(** In a prefix of a list without repetition the elements come in the
    order of the list. *)
Lemma prefix_happens_before p q (l L : list phase) ip iq :
  l `prefix_of` L → NoDup L → L !! ip = Some p → L !! iq = Some q → (ip < iq)%nat →
  happens_before p q l.
Proof.
  intros Hpre Hnd Hp Hq Hlt j Hj.
  assert (j = iq) as ->.
  { eapply NoDup_lookup; [exact Hnd| |exact Hq]. by eapply prefix_lookup_Some. }
  split.
  - exists ip. split; [done|]. destruct Hpre as [rest ->].
    rewrite lookup_app_l in Hp; [done|]. apply lookup_lt_Some in Hj. lia.
  - intros i Hi. assert (i = ip) as ->; [|done].
    eapply NoDup_lookup; [exact Hnd| |exact Hp]. by eapply prefix_lookup_Some.
Qed.

Lemma phases_prefix host h o w k :
  reachable host h o w → phases_of k (trace w) `prefix_of` routine_order h.
Proof.
  intros Hr. destruct (reachable_inv _ _ _ _ Hr) as (_ & Hh & <-).
  destruct (routines w !! k) as [a|] eqn:Hk.
  - rewrite <- program_is_order, <- (hist_phases _ Hh _ _ Hk). by eexists.
  - apply lookup_ge_None in Hk. unfold phases_of.
    rewrite (hist_fresh _ Hh _ Hk). simpl. apply prefix_nil.
Qed.

(** ** The order of the cleanup *)

(** C1, as amended.  For every handler routine of every execution, the calls
    made so far are an initial part of: Handle, the terminal store call,
    PostHandle (if the handler has hooks), numJobs.Dec, the release of the
    semaphore slot, wg.Done, the removal from the running set.  So the
    terminal call happens before PostHandle and before the release of the
    slot, PostHandle before the release of the slot, and the release of the
    slot before the removal from the registry. *)
Theorem cleanup_order host h o w k :
  reachable host h o w →
  phases_of k (trace w) `prefix_of` routine_order h ∧
  happens_before PhMark PhSemRelease (phases_of k (trace w)) ∧
  (WithHooks h = true →
     happens_before PhMark PhPostHandle (phases_of k (trace w)) ∧
     happens_before PhPostHandle PhSemRelease (phases_of k (trace w))) ∧
  happens_before PhSemRelease PhRemove (phases_of k (trace w)).
Proof.
  intros Hr. pose proof (phases_prefix _ _ _ _ k Hr) as Hp.
  pose proof (routine_order_NoDup h) as Hn.
  split; [done|]. destruct h as [pd []]; (split; [|split]).
  - eapply (prefix_happens_before _ _ _ _ 1 4); [exact Hp|exact Hn|done|done|lia].
  - intros _. split.
    + eapply (prefix_happens_before _ _ _ _ 1 2); [exact Hp|exact Hn|done|done|lia].
    + eapply (prefix_happens_before _ _ _ _ 2 4); [exact Hp|exact Hn|done|done|lia].
  - eapply (prefix_happens_before _ _ _ _ 4 6); [exact Hp|exact Hn|done|done|lia].
  - eapply (prefix_happens_before _ _ _ _ 1 3); [exact Hp|exact Hn|done|done|lia].
  - done.
  - eapply (prefix_happens_before _ _ _ _ 3 5); [exact Hp|exact Hn|done|done|lia].
Qed.

Lemma cleanup_order_witness :
  ∃ w, start_worker "host" Scenario.hooks (Scenario.options_of 1 1 0) Scenario.one_job
       = Some w ∧
       phases_of 0 (trace w)
       = [PhHandle; PhMark; PhPostHandle; PhNumJobsDec; PhSemRelease; PhWgDone; PhRemove] ∧
       happens_before PhSemRelease PhRemove (phases_of 0 (trace w)).
Proof.
  eexists. split; [vm_compute; reflexivity|]. split; [vm_compute; reflexivity|].
  apply (cleanup_order "host" Scenario.hooks (Scenario.options_of 1 1 0) _ 0).
  apply (start_worker_reachable _ _ _ Scenario.one_job). vm_compute. reflexivity.
Defined.

(** C1, as stated, fails: in the execution [Scenario.one_job] the slot is
    released before the record is removed from the running set. *)
Lemma cleanup_order_counterexample :
  ¬ (∀ host h o w k, reachable host h o w →
       removal_before_release (phases_of k (trace w))).
Proof.
  intros H.
  assert (∃ w, start_worker "host" Scenario.hooks (Scenario.options_of 1 1 0)
                 Scenario.one_job = Some w ∧
               phases_of 0 (trace w)
               = [PhHandle; PhMark; PhPostHandle; PhNumJobsDec; PhSemRelease;
                  PhWgDone; PhRemove]) as (w & Hw & Hp).
  { eexists. split; [vm_compute; reflexivity|]. vm_compute; reflexivity. }
  apply start_worker_reachable in Hw.
  destruct (H _ _ _ _ 0%nat Hw) as (_ & _ & Hbad). rewrite Hp in Hbad.
  destruct (Hbad 4%nat eq_refl) as [(i & Hi & Hrem) _].
  do 4 (destruct i as [|i]; [done|]). lia.
Qed.

(** ** Terminal store calls *)

Lemma marks_of_quiet k t new :
  Forall quiet new → marks_of k (t ++ new) = marks_of k t.
Proof.
  intros Hq. unfold marks_of. rewrite events_of_app, (events_of_quiet _ _ Hq).
  by rewrite app_nil_r.
Qed.

(** C6. Every terminal store call of every execution is made with the root
    context of the worker.  A routine whose own context was canceled while
    the root context is alive still makes its terminal call, and the context
    it hands to the store carries no error. *)
Theorem marks_use_root_context host h o w :
  reachable host h o w →
  (∀ a e c, (a, e) ∈ trace w → mark_ctx e = Some c → c = CtxRoot) ∧
  (∀ k a rest handleErr mr,
     routines w !! k = Some a → act_todo a = ActHandle :: rest →
     act_ctx a ∈ canceled w → rootCanceled w = false →
     ∃ w', step (LRoutine k handleErr mr) w = Some w' ∧
           marks_of k (trace w') = 1%nat ∧
           (∀ a e c, (a, e) ∈ trace w' → mark_ctx e = Some c →
                     c = CtxRoot ∧ ctx_Err w' c = None)).
Proof.
  intros Hr. destruct (reachable_inv _ _ _ _ Hr) as (Hs & Hh & _).
  assert (Hroot : ∀ w1, history_inv w1 →
            ∀ a e c, (a, e) ∈ trace w1 → mark_ctx e = Some c → c = CtxRoot).
  { intros w1 Hh1 a e c Hin Hc.
    pose proof (proj1 (Forall_forall _ _) (hist_root _ Hh1) _ Hin) as Hm.
    simpl in Hm. rewrite Hc in Hm. destruct e; try done; simpl in *;
      specialize (Hm eq_refl); congruence. }
  split; [by apply Hroot|].
  intros k a rest handleErr mr Hk Ht Hc Hrc.
  destruct (routine_step_enabled k handleErr mr w a _ _ Hs Hk Ht) as [w' Hstep].
  exists w'. split; [done|].
  pose proof (step_history _ _ _ Hs Hh Hstep) as Hh'.
  assert (Hrc' : rootCanceled w' = false).
  { simpl in Hstep. clear -Hstep Hrc Ht Hk. routine_cases Hstep; wsimpl; congruence. }
  split.
  - apply step_trace_routine in Hstep
      as (a0 & act & rest0 & new & Ha & Ht0 & Hrs & Htr & Hby & Hph & Hdq & Hmk).
    simplify_eq. rewrite Ht in Ht0. injection Ht0 as <- <-.
    assert (Hk' : routines w' !! k = Some (set_todo rest a)).
    { rewrite Hrs. apply list_lookup_insert_eq. by eapply lookup_lt_Some. }
    pose proof (hist_marks _ Hh' _ _ Hk') as Hm. simpl in Hm.
    pose proof (todo_head_fresh_in _ _ _ _ _ Hs Ht Hk) as Hfresh.
    rewrite bool_decide_eq_false_2 in Hm by done. lia.
  - intros b e c Hin Hmc. assert (c = CtxRoot) as -> by (by eapply Hroot).
    split; [done|]. unfold ctx_Err. by rewrite Hrc'.
Qed.

Lemma marks_use_root_context_witness :
  ∃ w, start_worker "host" Scenario.hooks (Scenario.options_of 1 0 0)
         Scenario.canceled_job = Some w ∧
       ∃ w', step (LRoutine 0 (Some context_Canceled) Scenario.marked) w = Some w' ∧
             marks_of 0 (trace w') = 1%nat ∧
             (∀ a e c, (a, e) ∈ trace w' → mark_ctx e = Some c →
                       c = CtxRoot ∧ ctx_Err w' c = None).
Proof.
  eexists. split; [vm_compute; reflexivity|].
  refine (proj2 (marks_use_root_context "host" Scenario.hooks
                   (Scenario.options_of 1 0 0) _ _) 0%nat _ _ _ _ _ _ _ _).
  - apply (start_worker_reachable _ _ _ Scenario.canceled_job). vm_compute. reflexivity.
  - vm_compute. reflexivity.
  - vm_compute. reflexivity.
  - apply (bool_decide_unpack _). vm_compute. reflexivity.
  - reflexivity.
Defined.

(** ** Every routine finishes its record *)

Lemma routine_last_step k handleErr mr w w' a act :
  slots_inv w → routines w !! k = Some a → act_todo a = [act] →
  step (LRoutine k handleErr mr) w = Some w' →
  IDSet.Has (act_id a) (runningIDSet w') = false.
Proof.
  intros Hs Hk Ht Hstep.
  assert (act = ActRemove) as ->.
  { pose proof (Forall_lookup_1 _ _ _ _ (inv_todo _ Hs) Hk) as [pre Hsuf].
    simpl in Hsuf. rewrite Ht in Hsuf.
    assert (Hlast : last (routineProgram (handler w)) = Some act)
      by (rewrite Hsuf; apply last_snoc).
    destruct (handler w) as [? []]; vm_compute in Hlast; congruence. }
  simpl in Hstep. routine_cases Hstep; simplify_eq;
    match goal with Hx : act_todo _ = _ :: _ |- _ => rewrite Ht in Hx; simplify_eq end.
  wsimpl. unfold IDSet.Has, IDSet.Remove. apply bool_decide_eq_false_2.
  rewrite lookup_delete_eq. by intros [? ?].
Qed.

(** From any state of any execution a routine can make all the calls it has
    left, whatever the other routines do or do not do meanwhile. *)
Lemma routine_runs_to_end host h o handleErr mr n :
  ∀ w k a,
    reachable host h o w → routines w !! k = Some a → length (act_todo a) = n →
    ∃ w' a',
      run (replicate n (LRoutine k handleErr mr)) w = Some w' ∧
      reachable host h o w' ∧
      routines w' !! k = Some a' ∧ act_todo a' = [] ∧ act_id a' = act_id a ∧
      (n ≠ 0%nat → IDSet.Has (act_id a) (runningIDSet w') = false).
Proof.
  induction n as [|n IH]; intros w k a Hr Hk Hlen.
  - exists w, a. simpl. repeat split; try done. by apply nil_length_inv.
  - destruct (act_todo a) as [|act rest] eqn:Ht; [done|]. simpl in Hlen.
    destruct (reachable_inv _ _ _ _ Hr) as (Hs & _ & _).
    destruct (routine_step_enabled k handleErr mr w a _ _ Hs Hk Ht) as [w1 Hstep].
    pose proof (reachable_step _ _ _ _ _ _ Hr Hstep) as Hr1.
    pose proof Hstep as Hstep'.
    apply step_trace_routine in Hstep'
      as (a0 & act0 & rest0 & new & Ha & Ht0 & Hrs & _).
    simplify_eq. rewrite Ht in Ht0. injection Ht0 as <- <-.
    assert (Hk1 : routines w1 !! k = Some (set_todo rest a)).
    { rewrite Hrs. apply list_lookup_insert_eq. by eapply lookup_lt_Some. }
    destruct (IH w1 k (set_todo rest a) Hr1 Hk1)
      as (w' & a' & Hrun & Hr' & Hk' & Ht' & Hid & Hhas); [simpl; lia|].
    exists w', a'. cbn [replicate]. rewrite run_cons, Hstep. cbn [mbind option_bind].
    split; [done|]. split; [done|]. split; [done|]. split; [done|]. split; [done|].
    intros _. destruct rest as [|act2 rest2].
    + simpl in Hrun. simplify_eq. by eapply routine_last_step.
    + apply Hhas. done.
Qed.

(** A record whose id is still registered is not handed to a routine: the
    call returns ErrJobAlreadyExists and the history gains no terminal call. *)
Lemma dequeue_duplicate pre dq w w' :
  mainPc w = MHoldSlot →
  (WithPreDequeue (handler w) = true → pd_err pre = None ∧ pd_dequeueable pre = true) →
  dq_err dq = None → dq_dequeued dq = true →
  IDSet.Has (dq_record dq) (runningIDSet w) = true →
  step (LDequeue pre dq) w = Some w' →
  mainPc w' = MReturned false (Some ErrJobAlreadyExists) ∧
  routines w' = routines w ∧ runningIDSet w' = runningIDSet w.
Proof.
  intros Hpc Hpre He Hd Hhas. unfold IDSet.Has in Hhas.
  apply bool_decide_eq_true_1 in Hhas as [c Hc].
  unfold step, dequeue_step, dequeueAndHandle, dequeueAndHandle_body,
    preDequeueHook, IDSet.Add. rewrite Hpc.
  destruct (WithPreDequeue (handler w)) eqn:Ehook;
    [destruct Hpre as [Hp1 Hp2]; [done|]; rewrite ?Hp1, ?Hp2|];
    bsimpl; rewrite He, Hd; bsimpl; rewrite Hc; bsimpl;
    intros H; destruct (sem_send _) as [w1|] eqn:Hsend; simplify_eq/=;
    apply sem_send_Some in Hsend as [[-> _]|(-> & _ & ?)]; done.
Qed.

(** C3, as amended.  A dequeue that registers its record starts a routine
    for it; a dequeue that does not (among them the one whose id is already
    registered, which returns ErrJobAlreadyExists) starts none, and no
    terminal store call is made for it.  Every routine has made one terminal
    store call once its handler has returned and none before, and from any
    state it can run to its end, where it has made exactly one terminal call
    and has removed the id of its record from the running set. *)
Theorem cleanup_completeness host h o w :
  reachable host h o w →
  (mainPc w = MHoldSlot → ∀ pre dq, ∃ w' err,
     step (LDequeue pre dq) w = Some w' ∧
     mainPc w' = MReturned (hands_off pre dq w) err ∧
     (∀ k, marks_of k (trace w') = marks_of k (trace w)) ∧
     (hands_off pre dq w = true →
        ∃ c, routines w' =
               routines w ++ [{| act_id := dq_record dq; act_ctx := c;
                                 act_todo := routineProgram (handler w) |}]) ∧
     (hands_off pre dq w = false → routines w' = routines w) ∧
     ((WithPreDequeue (handler w) = true →
         pd_err pre = None ∧ pd_dequeueable pre = true) →
      dq_err dq = None → dq_dequeued dq = true →
      IDSet.Has (dq_record dq) (runningIDSet w) = true →
      err = Some ErrJobAlreadyExists ∧ routines w' = routines w)) ∧
  (∀ k a, routines w !! k = Some a →
     marks_of k (trace w) = (if handled a then 1 else 0)%nat ∧
     ∀ handleErr mr, ∃ w' a',
       run (replicate (length (act_todo a)) (LRoutine k handleErr mr)) w = Some w' ∧
       routines w' !! k = Some a' ∧ act_todo a' = [] ∧ act_id a' = act_id a ∧
       marks_of k (trace w') = 1%nat ∧
       (act_todo a ≠ [] → IDSet.Has (act_id a) (runningIDSet w') = false)).
Proof.
  intros Hr. destruct (reachable_inv _ _ _ _ Hr) as (Hs & Hh & _). split.
  - intros Hpc pre dq.
    destruct (dequeue_step_returns pre dq w Hs Hpc)
      as (w' & err & Hstep & Hpc' & Hno & Hyes).
    exists w', err. split; [done|]. split; [done|]. split; [|split; [|split]].
    + intros k. pose proof Hstep as Hstep'.
      apply step_trace_main in Hstep' as (new & Htr & Hq & _); [|done].
      rewrite Htr. by apply marks_of_quiet.
    + intros Hy. by destruct (Hyes Hy) as [_ ?].
    + intros Hn. by destruct (Hno Hn) as [_ ?].
    + intros Hpre He Hd Hhas.
      destruct (dequeue_duplicate _ _ _ _ Hpc Hpre He Hd Hhas Hstep) as (Hpc2 & Hrs & _).
      rewrite Hpc' in Hpc2. by simplify_eq.
  - intros k a Hk. split.
    + pose proof (hist_marks _ Hh _ _ Hk) as Hm. unfold handled.
      repeat case_bool_decide; try done; lia.
    + intros handleErr mr.
      destruct (routine_runs_to_end host h o handleErr mr _ w k a Hr Hk eq_refl)
        as (w' & a' & Hrun & Hr' & Hk' & Ht' & Hid & Hhas).
      exists w', a'. repeat (split; [done|]). split.
      * destruct (reachable_inv _ _ _ _ Hr') as (_ & Hh' & _).
        pose proof (hist_marks _ Hh' _ _ Hk') as Hm. rewrite Ht' in Hm.
        rewrite bool_decide_eq_false_2 in Hm by set_solver. lia.
      * intros Hne. apply Hhas. destruct (act_todo a); done.
Qed.

Lemma cleanup_completeness_witness :
  ∃ w, start_worker "host" Scenario.hooks (Scenario.options_of 1 0 0)
         Scenario.canceled_job = Some w ∧
       ∃ w' a',
         run (replicate 6 (LRoutine 0 (Some context_Canceled) Scenario.marked)) w
         = Some w' ∧
         routines w' !! 0%nat = Some a' ∧ act_todo a' = [] ∧ act_id a' = 7 ∧
         marks_of 0 (trace w') = 1%nat ∧
         IDSet.Has 7 (runningIDSet w') = false.
Proof.
  eexists. split; [vm_compute; reflexivity|].
  match goal with |- ∃ w' a', run _ ?w = _ ∧ _ =>
    assert (Hr : reachable "host" Scenario.hooks (Scenario.options_of 1 0 0) w)
      by (apply (start_worker_reachable _ _ _ Scenario.canceled_job);
          vm_compute; reflexivity)
  end.
  destruct (proj2 (cleanup_completeness _ _ _ _ Hr) 0%nat _ eq_refl) as [_ H].
  destruct (H (Some context_Canceled) Scenario.marked)
    as (w' & a' & Hrun & Hk & Ht & Hid & Hm & Hhas).
  exists w', a'. repeat (split; [done|]). by apply Hhas.
Defined.

(** C3, as stated, fails: in the execution [Scenario.duplicate_job] the
    store returns record 7 twice, the worker has finished and every routine
    has run to its end, and one terminal store call was made for record 7. *)
Lemma cleanup_completeness_counterexample :
  ¬ (∀ host h o w id,
       reachable host h o w → finished w = true →
       Forall (λ a, act_todo a = []) (routines w) →
       mark_attempts id (trace w) = store_dequeues id (trace w)).
Proof.
  intros H.
  assert (∃ w, start_worker "host" Scenario.hooks (Scenario.options_of 2 0 10)
                 Scenario.duplicate_job = Some w ∧
               finished w = true ∧
               forallb (λ a, bool_decide (act_todo a = [])) (routines w) = true ∧
               mark_attempts 7 (trace w) = 1%nat ∧
               store_dequeues 7 (trace w) = 2%nat) as (w & Hw & Hf & Hd & Hm & Hs).
  { eexists. split; [vm_compute; reflexivity|].
    repeat split; vm_compute; reflexivity. }
  apply start_worker_reachable in Hw.
  specialize (H _ _ _ _ 7 Hw Hf). rewrite Hm, Hs in H.
  assert (1 = 2)%nat; [|done]. apply H.
  apply Forall_forall. intros a Ha.
  rewrite forallb_forall in Hd. apply list_elem_of_In in Ha.
  specialize (Hd _ Ha). by apply bool_decide_eq_true_1 in Hd.
Qed.

(** ** The outcome of the handler *)

Lemma emitted_app w w' new :
  trace w' = trace w ++ new → emitted w w' = new.
Proof. intros H. unfold emitted. rewrite H. apply drop_app_length. Qed.

(** C4. [handle] makes exactly one terminal store call: MarkComplete for a
    nil error; MarkFailed with the message of the error for an error flagged
    non-retryable; MarkFailed for an error that is the error of the record's
    context while the id is still registered; MarkErrored with the message
    of the error for every other error. *)
Theorem handle_outcome k c id handleErr mr w :
  let calls := terminal_calls w (handle k c id handleErr mr w).1 in
  (handleErr = None → calls = [(Routine k, EvMarkComplete CtxRoot id)]) ∧
  (∀ e, handleErr = Some e → chain_NonRetryable e = true →
        calls = [(Routine k, EvMarkFailed CtxRoot id (Error e))]) ∧
  (∀ e, handleErr = Some e →
        errors_Is (Some e) (ctx_Err w c) = true →
        IDSet.Has id (runningIDSet w) = true →
        calls = [(Routine k, EvMarkFailed CtxRoot id (Error e))]) ∧
  (∀ e, handleErr = Some e → chain_NonRetryable e = false →
        errors_Is (Some e) (ctx_Err w c) = false
        ∨ IDSet.Has id (runningIDSet w) = false →
        calls = [(Routine k, EvMarkErrored CtxRoot id (Error e))]).
Proof.
  assert (Hctx : ctx_Err (emit (Routine k) (EvHandle c id) w) c = ctx_Err w c)
    by (by destruct c).
  unfold terminal_calls, handle, isJobCanceled. rewrite Hctx. wsimpl.
  repeat split.
  - intros ->. simpl. unfold mark.
    destruct (mk_err mr), (mk_marked mr); wsimpl;
      (erewrite emitted_app; [|wsimpl; rewrite <- ?app_assoc; reflexivity]); done.
  - intros e -> Hn. simpl. rewrite Hn. simpl. unfold mark.
    destruct (mk_err mr), (mk_marked mr); wsimpl;
      (erewrite emitted_app; [|wsimpl; rewrite <- ?app_assoc; reflexivity]); done.
  - intros e -> Hi Hh. simpl. rewrite Hi, Hh.
    rewrite ?bool_decide_eq_true_2 by done. cbn [andb]. rewrite orb_true_r. unfold mark.
    destruct (mk_err mr), (mk_marked mr); wsimpl;
      (erewrite emitted_app; [|wsimpl; rewrite <- ?app_assoc; reflexivity]); done.
  - intros e -> Hn Hc. simpl. rewrite Hn.
    rewrite ?bool_decide_eq_true_2 by done.
    assert (errors_Is (Some e) (ctx_Err w c) && IDSet.Has id (runningIDSet w) = false)
      as -> by (destruct Hc as [-> | ->]; [done|apply andb_false_r]).
    simpl. unfold mark.
    destruct (mk_err mr), (mk_marked mr); wsimpl;
      (erewrite emitted_app; [|wsimpl; rewrite <- ?app_assoc; reflexivity]); done.
Qed.

Lemma handle_outcome_witness :
  ∃ w, start_worker "host" Scenario.hooks (Scenario.options_of 1 0 0)
         Scenario.canceled_job = Some w ∧
       terminal_calls w (handle 0 (CtxHandle 0) 7 None Scenario.marked w).1
       = [(Routine 0, EvMarkComplete CtxRoot 7)] ∧
       terminal_calls w
         (handle 0 (CtxHandle 0) 7 (Some (ErrNonRetryable (ErrNew "bad input")))
                 Scenario.marked w).1
       = [(Routine 0, EvMarkFailed CtxRoot 7 "bad input")] ∧
       terminal_calls w
         (handle 0 (CtxHandle 0) 7 (Some context_Canceled) Scenario.marked w).1
       = [(Routine 0, EvMarkFailed CtxRoot 7 "context canceled")] ∧
       terminal_calls w
         (handle 0 (CtxHandle 0) 7 (Some (ErrNew "timeout")) Scenario.marked w).1
       = [(Routine 0, EvMarkErrored CtxRoot 7 "timeout")].
Proof.
  eexists. split; [vm_compute; reflexivity|]. split; [|split; [|split]].
  - refine (proj1 (handle_outcome 0 (CtxHandle 0) 7 None Scenario.marked _) _).
    reflexivity.
  - refine (proj1 (proj2 (handle_outcome 0 (CtxHandle 0) 7 _ Scenario.marked _))
              (ErrNonRetryable (ErrNew "bad input")) _ _); reflexivity.
  - refine (proj1 (proj2 (proj2 (handle_outcome 0 (CtxHandle 0) 7 _ Scenario.marked _)))
              context_Canceled _ _ _); vm_compute; reflexivity.
  - refine (proj2 (proj2 (proj2 (handle_outcome 0 (CtxHandle 0) 7 _ Scenario.marked _)))
              (ErrNew "timeout") _ _ _); [reflexivity|reflexivity|].
    left. vm_compute. reflexivity.
Defined.

(** ** Errors of the dequeue *)

Lemma ctx_Err_root w r : ctx_Err w CtxRoot = Some r → r = context_Canceled.
Proof. unfold ctx_Err. destruct (rootCanceled w); congruence. Qed.

(** C7. When [store.Dequeue] fails with [e], dequeueAndHandle returns the
    wrapped error.  When Start then looks at it, in whatever state the
    worker is by then: if the root context is done and [e] is its error, the
    loop is left without the log of the failure (only the shutdown line is
    written, with an empty reason); otherwise the failure is logged, the
    count of dequeues stays, and the loop goes on to the select that ends
    the iteration, with the poll interval as delay. *)
Theorem dequeue_error_handling pre dq e w w1 :
  mainPc w = MHoldSlot →
  (WithPreDequeue (handler w) = true →
     pd_err pre = None ∧ pd_dequeueable pre = true) →
  dq_err dq = Some e →
  step (LDequeue pre dq) w = Some w1 →
  mainPc w1 = MReturned false (Some (errors_Wrap e "store.Dequeue")) ∧
  ∀ w2, mainPc w2 = mainPc w1 →
    (ctx_Err w2 CtxRoot ≠ None → errors_Is (Some e) (ctx_Err w2 CtxRoot) = true →
       ∃ w3, step LAfterDequeue w2 = Some w3 ∧ mainPc w3 = MDrain "" ∧
             trace w3 = trace w2 ++ [(Main, EvLog "info" "Shutting down dequeue loop" "")]) ∧
    (ctx_Err w2 CtxRoot = None ∨ errors_Is (Some e) (ctx_Err w2 CtxRoot) = false →
       ∃ w3, step LAfterDequeue w2 = Some w3 ∧
             mainPc w3 = MSelect (Interval (options w2)) ∧
             numDequeues w3 = numDequeues w2 ∧
             trace w3 = trace w2 ++
               [(Main, EvLog "error" "Failed to dequeue and handle record"
                         (Error (errors_Wrap e "store.Dequeue")))]).
Proof.
  intros Hpc Hpre He Hstep.
  assert (Hpc1 : mainPc w1 = MReturned false (Some (errors_Wrap e "store.Dequeue"))).
  { revert Hstep.
    unfold step, dequeue_step, dequeueAndHandle, dequeueAndHandle_body, preDequeueHook.
    rewrite Hpc.
    destruct (WithPreDequeue (handler w)) eqn:Ehook;
      [destruct Hpre as [Hp1 Hp2]; [done|]; rewrite ?Hp1, ?Hp2|];
      bsimpl; rewrite He; bsimpl;
      intros H; destruct (sem_send _) as [w0|] eqn:Hsend; simplify_eq/=;
      apply sem_send_Some in Hsend as [[-> _]|(-> & _ & ?)]; done. }
  split; [done|]. intros w2 Hpc2. rewrite Hpc1 in Hpc2.
  assert (Hwrap : ∀ r, ctx_Err w2 CtxRoot = Some r →
            errors_Is (Some (errors_Wrap e "store.Dequeue")) (Some r)
            = errors_Is (Some e) (Some r)).
  { intros r Hr. apply ctx_Err_root in Hr as ->. done. }
  unfold step, after_dequeue. rewrite Hpc2. split.
  - intros Hdone His. destruct (ctx_Err w2 CtxRoot) as [r|] eqn:Hr; [|done].
    rewrite bool_decide_eq_true_2 by done. rewrite (Hwrap r eq_refl), His.
    eexists. split; [reflexivity|]. done.
  - intros Hno. destruct (ctx_Err w2 CtxRoot) as [r|] eqn:Hr.
    + destruct Hno as [?|Hno]; [done|]. rewrite (Hwrap r eq_refl), Hno.
      rewrite andb_false_r. eexists. split; [reflexivity|]. done.
    + rewrite bool_decide_eq_false_2 by (intros ?; done).
      eexists. split; [reflexivity|]. done.
Qed.

Lemma dequeue_error_handling_witness :
  ∃ w w1,
    start_worker "host" Scenario.hooks (Scenario.options_of 1 0 0)
      Scenario.stopped_with_slot = Some w ∧
    step (LDequeue Scenario.pre_ok (Scenario.dequeue_fails context_Canceled)) w
    = Some w1 ∧
    ∃ w3, step LAfterDequeue w1 = Some w3 ∧ mainPc w3 = MDrain "" ∧
          trace w3 = trace w1 ++ [(Main, EvLog "info" "Shutting down dequeue loop" "")].
Proof.
  eexists _, _. split; [vm_compute; reflexivity|].
  match goal with |- step _ ?w = _ ∧ _ => pose (w0 := w) end.
  split; [vm_compute; reflexivity|].
  refine (proj1 (proj2 (dequeue_error_handling Scenario.pre_ok
                          (Scenario.dequeue_fails context_Canceled) context_Canceled
                          w0 _ _ _ _ _) _ _) _ _).
  - reflexivity.
  - intros _. split; reflexivity.
  - reflexivity.
  - vm_compute. reflexivity.
  - reflexivity.
  - vm_compute. discriminate.
  - vm_compute. reflexivity.
Defined.

(** ** Stop and Wait *)

Lemma cancel_fixed w : rootCanceled w = true → cancel w = w.
Proof. destruct w. simpl. intros ->. reflexivity. Qed.

Lemma step_monotone l w w' :
  step l w = Some w' →
  (rootCanceled w = true → rootCanceled w' = true) ∧
  (finished w = true → finished w' = true).
Proof.
  intros H. destruct l.
  9: { simpl in H. routine_cases H; done. }
  9: { simpl in H. apply heartbeat_tick_frame in H as [Hf _].
       destruct Hf as (_ & _ & _ & _ & Ec & _ & Ef & _). rewrite Ec, Ef. done. }
  5: { unfold step, dequeue_step in H.
       destruct (mainPc w) eqn:Hpc; try done.
       destruct (dequeueAndHandle pre dq w) as [[w1 [ok err]]|] eqn:Hd; [|done].
       simpl in H. simplify_eq.
       unfold dequeueAndHandle, dequeueAndHandle_body, preDequeueHook, IDSet.Add in Hd.
       repeat (case_match; simplify_option_eq);
         try match goal with Hx : sem_send _ = Some _ |- _ =>
           apply sem_send_Some in Hx as [[-> Hx]|(-> & Hx & ?)] end;
         done. }
  all: revert H; main_cases; done.
Qed.

Lemma run_monotone s w w' :
  run s w = Some w' →
  (rootCanceled w = true → rootCanceled w' = true) ∧
  (finished w = true → finished w' = true).
Proof.
  revert w. induction s as [|l s IH]; intros w H; simpl in H.
  - by simplify_eq.
  - destruct (step l w) as [w1|] eqn:E; simpl in H; [|done].
    destruct (step_monotone _ _ _ E). destruct (IH _ H). auto.
Qed.

(** C9. After a first Stop (its [w.cancel()] made in [w]), whatever the
    worker has done since: another [w.cancel()] changes nothing; and once
    the signal "finished" has fired, now or at any later time, Wait returns
    at once and Stop returns at once without changing the state. *)
Theorem Stop_idempotent w s w' :
  run s (cancel w) = Some w' →
  cancel (cancel w) = cancel w ∧ cancel w' = w' ∧
  (finished w' = true →
     ∀ s' w'', run s' w' = Some w'' → Wait w'' = Some w'' ∧ Stop w'' = Some w'').
Proof.
  intros Hrun. destruct (run_monotone _ _ _ Hrun) as [Hc _].
  specialize (Hc eq_refl).
  split; [done|]. split; [by apply cancel_fixed|].
  intros Hf s' w'' Hrun'. destruct (run_monotone _ _ _ Hrun') as [Hc' Hf'].
  specialize (Hc' Hc). specialize (Hf' Hf).
  unfold Stop. rewrite (cancel_fixed _ Hc'). unfold Wait. by rewrite Hf'.
Qed.

Lemma Stop_idempotent_witness :
  ∃ w w',
    start_worker "host" Scenario.hooks (Scenario.options_of 1 0 0)
      ([LStart] ++ Scenario.iteration 7) = Some w ∧
    run (drop 7 Scenario.stopped_job) (cancel w) = Some w' ∧
    finished w' = true ∧ cancel w' = w' ∧ Wait w' = Some w' ∧ Stop w' = Some w'.
Proof.
  eexists _, _. split; [vm_compute; reflexivity|].
  match goal with |- run _ (cancel ?w) = _ ∧ _ => pose (w0 := w) end.
  split; [vm_compute; reflexivity|]. split; [reflexivity|].
  match goal with |- cancel ?w' = _ ∧ _ =>
    assert (Hrun : run (drop 7 Scenario.stopped_job) (cancel w0) = Some w')
      by (vm_compute; reflexivity);
    pose proof (Stop_idempotent w0 _ w' Hrun) as (_ & Hc & Hw)
  end.
  split; [exact Hc|]. exact (Hw eq_refl [] _ eq_refl).
Defined.

(** ** A failed heartbeat *)

Lemma heartbeat_fold_lookup knownIDs ids w i :
  runningIDSet (foldl (heartbeat_remove knownIDs) w ids) !! i
  = if bool_decide (i ∈ ids ∧ i ∉ knownIDs) then None else runningIDSet w !! i.
Proof.
  revert w. induction ids as [|id ids IH]; intros w.
  - cbn [foldl]. case_bool_decide as H; [|done]. destruct H as [H _]. by inv H.
  - cbn [foldl]. rewrite IH. unfold heartbeat_remove, IDSet.Remove.
    destruct (decide (id ∈ knownIDs)) as [Hin|Hnin].
    + rewrite (bool_decide_eq_true_2 _ Hin).
      repeat case_bool_decide; try done; set_solver.
    + rewrite (bool_decide_eq_false_2 _ Hnin). wsimpl.
      destruct (decide (i = id)) as [->|Hne].
      * rewrite lookup_delete_eq.
        rewrite (bool_decide_eq_true_2 (id ∈ id :: ids ∧ id ∉ knownIDs)) by set_solver.
        by case_bool_decide.
      * rewrite lookup_delete_ne by done.
        repeat case_bool_decide; try done; set_solver.
Qed.

(** A heartbeat that fails and returns no ids empties the running set: the
    loop over [ids] runs after the log of the error. *)
Lemma heartbeat_error_empties e w :
  heartbeatRunning w = true →
  ∃ w', step (LHeartbeat [] (Some e)) w = Some w' ∧ runningIDSet w' = ∅.
Proof.
  intros Hr. unfold step, heartbeat_tick. rewrite Hr. eexists. split; [reflexivity|].
  apply map_eq. intros i. rewrite heartbeat_fold_lookup, lookup_empty.
  case_bool_decide as Hi; [done|]. unfold heartbeat_log. wsimpl.
  destruct (runningIDSet w !! i) as [c|] eqn:Hc; [|done].
  exfalso. apply Hi. split; [|set_solver].
  unfold IDSet.Slice. apply list_elem_of_fmap. exists (i, c).
  split; [done|]. by apply elem_of_map_to_list.
Qed.

(** C2: what the code does.  Records 17 and 18 are being handled when
    [store.Heartbeat] fails: the failure is logged, and then both ids are
    removed from the running set in the same turn of the loop. *)
Theorem heartbeat_error_drops_running_ids :
  ∃ w w',
    start_worker "host" Scenario.hooks (Scenario.options_of 2 0 0) Scenario.two_jobs
    = Some w ∧
    IDSet.Slice (runningIDSet w) = [17; 18] ∧
    step (LHeartbeat [] (Some (ErrNew "connection refused"))) w = Some w' ∧
    IDSet.Slice (runningIDSet w') = [] ∧
    emitted w w' =
      [(Heartbeat, EvHeartbeat CtxRoot [17; 18]);
       (Heartbeat, EvLog "error" "Failed to refresh heartbeats" "connection refused");
       (Heartbeat, EvLog "error" "Removed unknown job from running set" "");
       (Heartbeat, EvHeartbeatRemove 17);
       (Heartbeat, EvLog "error" "Removed unknown job from running set" "");
       (Heartbeat, EvHeartbeatRemove 18)].
Proof.
  eexists _, _. split; [vm_compute; reflexivity|].
  split; [vm_compute; reflexivity|]. split; [vm_compute; reflexivity|].
  split; vm_compute; reflexivity.
Qed.

(** ** The cap on the number of jobs *)

Lemma wrap_int_small z : 0 ≤ z ≤ max_int → wrap_int z = z.
Proof.
  unfold wrap_int, max_int. intros H. rewrite Z.mod_small; lia.
Qed.

Lemma newWorker_cap host h o w :
  0 < NumTotalJobs o → newWorker host h o = Some w → cap_inv w ∧ finished_inv w.
Proof.
  unfold newWorker, finished_inv. intros Hn H. repeat case_match; simplify_eq.
  all: split; [split; simpl; try done; try lia; by intros r [?|?]|done].
Qed.

Ltac cap_goal :=
  split; wsimpl;
  repeat match goal with Hx : mainPc _ = _ |- _ => rewrite Hx in * end;
  rewrite ?length_app, ?length_insert; cbn [length];
  try (intros ? [?|?] ?; simplify_eq);
  rewrite ?wrap_int_small by lia;
  try done; try lia;
  try match goal with
      | Hx : ∀ r : string, _ → _ → numDequeues _ = _ |- _ =>
          by (eapply Hx; [eauto|reflexivity])
      end.

Lemma step_cap l w w' :
  0 < NumTotalJobs (options w) ≤ max_int →
  cap_inv w → step l w = Some w' → cap_inv w'.
Proof.
  intros Hn [H0 Hc Hb Hr Hx] H. destruct l.
  9: { simpl in H. routine_cases H; cap_goal. }
  9: { simpl in H. apply heartbeat_tick_frame in H as [Hf _].
       destruct Hf as (_ & Eo & En & _ & _ & _ & _ & _ & _ & _ & Ep & _ & Er).
       split; rewrite ?Eo, ?En, ?Ep, ?Er; done. }
  5: { unfold step, dequeue_step in H.
       destruct (mainPc w) eqn:Hpc; try done.
       destruct (dequeueAndHandle pre dq w) as [[w1 [ok err]]|] eqn:Hd; [|done].
       simpl in H. simplify_eq.
       unfold dequeueAndHandle, dequeueAndHandle_body, preDequeueHook, IDSet.Add in Hd.
       repeat (case_match; simplify_option_eq);
         try match goal with Hy : sem_send _ = Some _ |- _ =>
           apply sem_send_Some in Hy as [[-> Hy]|(-> & Hy & ?)] end;
         cap_goal. }
  all: revert H; main_cases; cap_goal.
Qed.

Lemma step_finished l w w' :
  slots_inv w → finished_inv w → step l w = Some w' → finished_inv w'.
Proof.
  intros Hs Hf H. unfold finished_inv in *. destruct l.
  9: { simpl in H. pose proof (inv_wg _ Hs) as Hwg. unfold step in *.
       routine_cases H; wsimpl; intros Hfin; destruct (Hf Hfin) as [Hw [r Hr]];
         try (split; [done|by eauto]); try congruence.
       assert (Hcnt : counted a = true).
       { unfold counted. rewrite Ht. apply bool_decide_eq_true_2. set_solver. }
       pose proof (count_lookup counted _ _ _ Ha Hcnt). lia. }
  9: { simpl in H. apply heartbeat_tick_frame in H as [Hx _].
       destruct Hx as (_ & _ & _ & _ & _ & Ew & Ef & _ & _ & _ & Ep & _).
       rewrite Ew, Ef, Ep. done. }
  5: { unfold step, dequeue_step in H. intros Hfin.
       destruct (mainPc w) eqn:Hpc; try done.
       destruct (decide (finished w = true)) as [Hfw|Hfw].
       - destruct (Hf Hfw) as [_ [r Hr]]. congruence.
       - exfalso. apply Hfw. revert Hfin.
         destruct (dequeueAndHandle pre dq w) as [[w1 [ok err]]|] eqn:Hd; [|done].
         simpl in H. simplify_eq.
         unfold dequeueAndHandle, dequeueAndHandle_body, preDequeueHook, IDSet.Add in Hd.
         repeat (case_match; simplify_option_eq);
           try match goal with Hy : sem_send _ = Some _ |- _ =>
             apply sem_send_Some in Hy as [[-> Hy]|(-> & Hy & ?)] end;
           done. }
  all: revert H; main_cases;
    try match goal with
        | Hfin : finished _ = true |- _ => destruct (Hf Hfin) as [? [? ?]]
        end;
    try done; try congruence; try (split; [lia|by eauto]).
Qed.

(** A routine that the wait group does not count any more has had its
    handler return. *)
Lemma uncounted_handled h t :
  suffix t (routineProgram h) → ActWgDone ∉ t → ActHandle ∉ t.
Proof.
  intros [pre Hs] Hn. destruct h as [? []]; vm_compute in Hs;
    do 8 (destruct pre as [|? pre]; simplify_eq/=; try set_solver).
Qed.

Lemma reachable_cap host h o w :
  0 < NumTotalJobs o ≤ max_int → reachable host h o w →
  cap_inv w ∧ finished_inv w ∧ NumTotalJobs (options w) = NumTotalJobs o.
Proof.
  intros Hn (w0 & s & Hnew & Hrun).
  assert (Hgoal : slots_inv w ∧ cap_inv w ∧ finished_inv w ∧
                  NumTotalJobs (options w) = NumTotalJobs o); [|tauto].
  eapply (run_invariant (λ w, slots_inv w ∧ cap_inv w ∧ finished_inv w ∧
            NumTotalJobs (options w) = NumTotalJobs o)); [| |exact Hrun].
  - intros l w1 w2 (Hs & Hc & Hf & Ho) Hstep.
    destruct (step_handler_options _ _ _ Hstep) as [_ Heq].
    split; [by eapply step_slots|]. split.
    { eapply step_cap; [|done|done]. rewrite Ho. done. }
    split; [by eapply step_finished|]. by rewrite Heq.
  - split; [by eapply newWorker_slots|].
    destruct (newWorker_cap _ _ _ _ (proj1 Hn) Hnew) as [? ?].
    split; [done|]. split; [done|].
    unfold newWorker in Hnew. repeat case_match; by simplify_eq.
Qed.

(** C8. With NumTotalJobs = n > 0: the count of the worker is the number of
    successful dequeues (the attempts that dequeued nothing do not count),
    it never exceeds n, the loop leaves with the reason "NumTotalJobs
    dequeued" at the head of the iteration that finds the count at n, and
    whenever it has left with that reason exactly n dequeues were successful.
    When Start has returned, the handler of every dequeued record has
    returned and its terminal store call was made. *)
Theorem NumTotalJobs_cap host h o w n :
  NumTotalJobs o = n → 0 < n ≤ max_int →
  reachable host h o w →
  Z.of_nat (successful_dequeues w)
    = numDequeues w + (match mainPc w with MReturned true _ => 1 | _ => 0 end) ∧
  Z.of_nat (successful_dequeues w) ≤ n ∧
  (mainPc w = MLoopTop →
     ∃ w', step LLoopTop w = Some w' ∧
       mainPc w' = if bool_decide (Z.of_nat (successful_dequeues w) = n)
                   then MDrain "NumTotalJobs dequeued" else MAcquire) ∧
  (∀ r, mainPc w = MDrain r ∨ mainPc w = MFinished r →
        r = "NumTotalJobs dequeued" → Z.of_nat (successful_dequeues w) = n) ∧
  (finished w = true →
     Forall (λ a, handled a = true) (routines w) ∧
     ∀ k, (k < successful_dequeues w)%nat → marks_of k (trace w) = 1%nat).
Proof.
  intros <- Hn Hr.
  destruct (reachable_cap _ _ _ _ Hn Hr) as ([H0 Hc Hb Hroom Hx] & Hf & Ho).
  destruct (reachable_inv _ _ _ _ Hr) as (Hs & Hh & _).
  pose proof (hist_dequeues _ Hh) as Hd. rewrite Hd. rewrite Ho in *.
  split; [lia|]. split.
  { destruct (mainPc w) as [| | | |[] [e|]| | |]; try done; lia. }
  split; [|split].
  - intros Hpc. unfold step, Start_loop_top. rewrite Hpc, Ho in *.
    case_bool_decide as E.
    + assert ((negb (NumTotalJobs o =? 0) && (NumTotalJobs o <=? numDequeues w)) = true)
        as -> by lia.
      eexists. split; [reflexivity|]. done.
    + assert ((negb (NumTotalJobs o =? 0) && (NumTotalJobs o <=? numDequeues w)) = false)
        as -> by lia.
      eexists. split; [reflexivity|]. done.
  - intros r Hpc Hreason. specialize (Hx r Hpc Hreason).
    destruct Hpc as [Hpc|Hpc]; rewrite Hpc in Hc; lia.
  - intros Hfin. destruct (Hf Hfin) as [Hwg _].
    pose proof (inv_wg _ Hs) as Hcount. rewrite Hwg in Hcount.
    assert (Hzero : count counted (routines w) = 0%nat) by lia.
    apply count_zero_Forall in Hzero.
    assert (Hall : Forall (λ a, handled a = true) (routines w)).
    { apply Forall_forall. intros a Ha.
      pose proof (proj1 (Forall_forall _ _) Hzero _ Ha) as Hnc.
      pose proof (proj1 (Forall_forall _ _) (inv_todo _ Hs) _ Ha) as Hsuf.
      cbv beta in Hnc, Hsuf.
      unfold counted in Hnc. apply bool_decide_eq_false_1 in Hnc.
      unfold handled. apply bool_decide_eq_true_2.
      exact (uncounted_handled _ _ Hsuf Hnc). }
    split; [done|]. intros k Hk.
    destruct (lookup_lt_is_Some_2 (routines w) k Hk) as [a Ha].
    pose proof (hist_marks _ Hh _ _ Ha) as Hm.
    pose proof (proj1 (Forall_lookup _ _) Hall _ _ Ha) as Hhd.
    unfold handled in Hhd. apply bool_decide_eq_true_1 in Hhd.
    rewrite bool_decide_eq_false_2 in Hm by done. lia.
Qed.

Lemma NumTotalJobs_cap_witness :
  ∃ w, start_worker "host" Scenario.hooks (Scenario.options_of 1 1 0) Scenario.one_job
       = Some w ∧
       mainPc w = MFinished "NumTotalJobs dequeued" ∧
       Z.of_nat (successful_dequeues w) = 1 ∧
       Forall (λ a, handled a = true) (routines w).
Proof.
  eexists. split; [vm_compute; reflexivity|]. split; [reflexivity|].
  match goal with |- Z.of_nat (successful_dequeues ?w) = _ ∧ _ =>
    assert (Hr : reachable "host" Scenario.hooks (Scenario.options_of 1 1 0) w)
      by (apply (start_worker_reachable _ _ _ Scenario.one_job);
          vm_compute; reflexivity);
    pose proof (NumTotalJobs_cap "host" Scenario.hooks (Scenario.options_of 1 1 0)
                  w 1 eq_refl ltac:(unfold max_int; lia) Hr)
      as (_ & _ & _ & Hx & Hf)
  end.
  split.
  - apply (Hx "NumTotalJobs dequeued"); [right|]; reflexivity.
  - apply Hf. reflexivity.
Defined.

(** ** A worker without handlers *)

Lemma reachable_finished host h o w : reachable host h o w → finished_inv w.
Proof.
  intros (w0 & s & Hnew & Hrun).
  assert (Hgoal : slots_inv w ∧ finished_inv w); [|tauto].
  eapply (run_invariant (λ w, slots_inv w ∧ finished_inv w)); [| |exact Hrun].
  - intros l w1 w2 (Hs & Hf) Hstep.
    split; [by eapply step_slots|by eapply step_finished].
  - split; [by eapply newWorker_slots|].
    unfold newWorker, finished_inv in *. repeat case_match; by simplify_eq.
Qed.

Lemma newWorker_idle host h o w :
  NumHandlers o = 0 → newWorker host h o = Some w → idle_inv w.
Proof.
  unfold newWorker. intros Hn H. repeat case_match; simplify_eq.
  all: split; simpl; try done; by rewrite Hn.
Qed.

Ltac idle_goal :=
  split; wsimpl;
  repeat match goal with Hx : mainPc _ = _ |- _ => rewrite Hx in * end;
  rewrite ?Forall_app; try done; try lia;
  try (split; [done|by repeat constructor]).

Lemma step_idle l w w' :
  0 ≤ NumTotalJobs (options w) →
  idle_inv w → step l w = Some w' → idle_inv w'.
Proof.
  intros Hn [Hs Hr Hc Ht Hp] H. destruct l.
  9: { simpl in H. unfold routine_step in H. rewrite Hr in H. done. }
  9: { simpl in H. apply heartbeat_tick_frame in H as [Hf (new & Htr & Hq)].
       destruct Hf as (_ & _ & En & Es & Ec & _ & _ & _ & _ & _ & Ep & _ & Er).
       split; rewrite ?En, ?Es, ?Ec, ?Ep, ?Er, ?Htr; try done.
       apply Forall_app. split; [done|]. eapply Forall_impl; [exact Hq|].
       by intros ae (_ & _ & ?). }
  5: { unfold step, dequeue_step in H. destruct (mainPc w); done. }
  all: revert H; main_cases; unfold sem_ready in *; idle_goal.
  all: try (rewrite Hs in *; done).
  all: try (destruct Hp as [? ?]; by split).
  destruct Hp as [_ ->]. done.
Qed.

Lemma reachable_idle host h o w :
  NumHandlers o = 0 → 0 ≤ NumTotalJobs o → reachable host h o w → idle_inv w.
Proof.
  intros Hh Hn (w0 & s & Hnew & Hrun).
  assert (Hgoal : idle_inv w ∧ NumTotalJobs (options w) = NumTotalJobs o); [|tauto].
  eapply (run_invariant (λ w, idle_inv w ∧
            NumTotalJobs (options w) = NumTotalJobs o)); [| |exact Hrun].
  - intros l w1 w2 (Hi & Ho) Hstep.
    destruct (step_handler_options _ _ _ Hstep) as [_ Heq].
    split; [|by rewrite Heq]. eapply step_idle; [|done|done]. by rewrite Ho.
  - split; [by eapply newWorker_idle|].
    unfold newWorker in Hnew. repeat case_match; by simplify_eq.
Qed.

(** C10, as amended.  With NumHandlers = 0 and NumTotalJobs not negative,
    in every state of every execution: neither PreDequeue nor store.Dequeue
    was ever called and no routine was started; the main routine never holds
    a slot and never reaches the select that ends an iteration (the only
    place where the MaxActiveTime timer is looked at); in the select that
    opens dequeueAndHandle no slot can be taken, and nothing but the root
    context being done lets the routine go on; when the loop is left, and
    when Start has returned, the root context was canceled and the reason is
    empty, so it is not "MaxActiveTime elapsed". *)
Theorem no_handlers_blocks host h o w :
  NumHandlers o = 0 → 0 ≤ NumTotalJobs o →
  reachable host h o w →
  Forall (λ ae : actor * event, is_dequeue_call ae.2 = false) (trace w) ∧
  routines w = [] ∧
  mainPc w ≠ MHoldSlot ∧ (∀ d, mainPc w ≠ MSelect d) ∧
  (mainPc w = MAcquire →
     step LAcquire w = None ∧
     (rootCanceled w = false → step LAcquireCtxDone w = None)) ∧
  (∀ r, mainPc w = MDrain r ∨ mainPc w = MFinished r →
        rootCanceled w = true ∧ r = "" ∧ r ≠ "MaxActiveTime elapsed") ∧
  (finished w = true → rootCanceled w = true).
Proof.
  intros Hh Hn Hr. destruct (reachable_idle _ _ _ _ Hh Hn Hr) as [Hs Hrs Hc Ht Hp].
  pose proof (reachable_finished _ _ _ _ Hr) as Hf.
  split; [done|]. split; [done|].
  split; [by intros E; rewrite E in Hp|].
  split; [by intros d E; rewrite E in Hp|].
  split; [|split].
  - intros Hpc. unfold step, acquire_slot, acquire_ctx_done, sem_ready.
    rewrite Hpc, Hs. split; [done|]. by intros ->.
  - intros r [E|E]; rewrite E in Hp; destruct Hp as [? ->]; done.
  - intros Hfin. destruct (Hf Hfin) as [_ [r E]]. rewrite E in Hp. tauto.
Qed.

Lemma no_handlers_blocks_witness :
  ∃ w, start_worker "host" Scenario.hooks (Scenario.options_of 0 0 10)
         Scenario.idle_stopped = Some w ∧
       finished w = true ∧ rootCanceled w = true ∧ routines w = [] ∧
       Forall (λ ae : actor * event, is_dequeue_call ae.2 = false) (trace w).
Proof.
  eexists. split; [vm_compute; reflexivity|]. split; [reflexivity|].
  match goal with |- rootCanceled ?w = _ ∧ _ =>
    assert (Hr : reachable "host" Scenario.hooks (Scenario.options_of 0 0 10) w)
      by (apply (start_worker_reachable _ _ _ Scenario.idle_stopped);
          vm_compute; reflexivity);
    pose proof (no_handlers_blocks "host" Scenario.hooks (Scenario.options_of 0 0 10)
                  w eq_refl ltac:(simpl; lia) Hr)
      as (Ht & Hrs & _ & _ & _ & _ & Hf)
  end.
  split; [by apply Hf|]. split; [exact Hrs|exact Ht].
Defined.

(** C10, as stated, fails: with NumHandlers = 0 and NumTotalJobs = -1 the
    first check of the loop finds 0 >= -1 and Start returns, with the reason
    "NumTotalJobs dequeued", while the root context is alive. *)
Lemma no_handlers_counterexample :
  ¬ (∀ host h o w,
       NumHandlers o = 0 → reachable host h o w →
       finished w = true → rootCanceled w = true).
Proof.
  intros H.
  assert (∃ w, start_worker "host" Scenario.hooks (Scenario.options_of 0 (-1) 10)
                 Scenario.negative_cap = Some w ∧
               finished w = true ∧ rootCanceled w = false ∧
               mainPc w = MFinished "NumTotalJobs dequeued") as (w & Hw & Hf & Hc & _).
  { eexists. split; [vm_compute; reflexivity|]. repeat split; reflexivity. }
  apply start_worker_reachable in Hw.
  specialize (H "host" Scenario.hooks (Scenario.options_of 0 (-1) 10) w eq_refl Hw Hf).
  congruence.
Qed.

(** * Further properties of the worker *)

(** ** What a step changes *)

(** A step of the main routine other than the dequeue, an exit of the
    heartbeat, or a call from outside. *)
Lemma step_plain_frame l w w' :
  (∀ k handleErr mr, l ≠ LRoutine k handleErr mr) →
  (∀ knownIDs err, l ≠ LHeartbeat knownIDs err) →
  (∀ pre dq, l ≠ LDequeue pre dq) →
  step l w = Some w' →
  runningIDSet w' = runningIDSet w ∧ routines w' = routines w ∧
  numJobs w' = numJobs w ∧ nextCtx w' = nextCtx w ∧ wg w' = wg w.
Proof.
  intros H1 H2 H3 H. destruct l.
  9: { by destruct (H1 k handleErr mr). }
  9: { by destruct (H2 knownIDs err). }
  5: { by destruct (H3 pre dq). }
  all: revert H; main_cases; done.
Qed.

(** The dequeue: nothing is started, or one routine is started for the
    record, with a fresh context, and the record is registered. *)
Lemma dequeue_step_frame pre dq w w' :
  step (LDequeue pre dq) w = Some w' →
  (routines w' = routines w ∧ runningIDSet w' = runningIDSet w ∧
   numJobs w' = numJobs w ∧ wg w' = wg w ∧ (nextCtx w ≤ nextCtx w')%nat) ∨
  (runningIDSet w !! dq_record dq = None ∧
   routines w' = routines w ++
     [{| act_id := dq_record dq; act_ctx := nextCtx w;
         act_todo := routineProgram (handler w) |}] ∧
   runningIDSet w' = <[dq_record dq := nextCtx w]> (runningIDSet w) ∧
   numJobs w' = numJobs w + 1 ∧ wg w' = wg w + 1 ∧ nextCtx w' = S (nextCtx w)).
Proof.
  unfold step, dequeue_step. intros H.
  destruct (mainPc w) eqn:Hpc; try done.
  destruct (dequeueAndHandle pre dq w) as [[w1 [ok err]]|] eqn:Hd; [|done].
  simpl in H. simplify_eq.
  unfold dequeueAndHandle, dequeueAndHandle_body, preDequeueHook, IDSet.Add in Hd.
  repeat (case_match; simplify_option_eq);
    try match goal with Hx : sem_send _ = Some _ |- _ =>
      apply sem_send_Some in Hx as [[-> Hx]|(-> & Hx & ?)] end;
    wsimpl; first [ by (left; repeat split; try done; lia) | by right ].
Qed.

(** A call of a routine. *)
Lemma routine_step_frame k handleErr mr w w' :
  step (LRoutine k handleErr mr) w = Some w' →
  ∃ a act rest,
    routines w !! k = Some a ∧ act_todo a = act :: rest ∧
    routines w' = <[k := set_todo rest a]> (routines w) ∧
    nextCtx w' = nextCtx w ∧ canceled w' = canceled w ∧
    rootCanceled w' = rootCanceled w ∧
    runningIDSet w' =
      (if bool_decide (act = ActRemove)
       then IDSet.Remove (act_id a) (runningIDSet w) else runningIDSet w) ∧
    numJobs w' =
      (if bool_decide (act = ActNumJobsDec) then numJobs w - 1 else numJobs w).
Proof.
  simpl. intros H. routine_cases H; eexists a, _, rest; wsimpl; repeat split; done.
Qed.

(** One turn of the heartbeat keeps, of the registered ids, exactly those
    that the store returned. *)
Lemma heartbeat_tick_lookup knownIDs err w w' i :
  step (LHeartbeat knownIDs err) w = Some w' →
  runningIDSet w' !! i
  = if bool_decide (i ∈ knownIDs) then runningIDSet w !! i else None.
Proof.
  unfold step, heartbeat_tick. destruct (heartbeatRunning w); [|done].
  intros [= <-]. rewrite heartbeat_fold_lookup. unfold heartbeat_log.
  assert (Hsame : runningIDSet
            match err with
            | Some e => emit Heartbeat (EvLog "error" "Failed to refresh heartbeats" (Error e))
                          (emit Heartbeat (EvHeartbeat CtxRoot (IDSet.Slice (runningIDSet w))) w)
            | None => emit Heartbeat (EvHeartbeat CtxRoot (IDSet.Slice (runningIDSet w))) w
            end = runningIDSet w) by (by destruct err).
  rewrite Hsame.
  destruct (runningIDSet w !! i) as [c|] eqn:Hc.
  - assert (i ∈ IDSet.Slice (runningIDSet w)).
    { unfold IDSet.Slice. apply list_elem_of_fmap. exists (i, c).
      split; [done|]. by apply elem_of_map_to_list. }
    repeat case_bool_decide; try done; tauto.
  - by repeat case_bool_decide.
Qed.

Lemma label_cases (l : label) :
  (∃ k handleErr mr, l = LRoutine k handleErr mr) ∨
  (∃ knownIDs err, l = LHeartbeat knownIDs err) ∨
  (∃ pre dq, l = LDequeue pre dq) ∨
  ((∀ k handleErr mr, l ≠ LRoutine k handleErr mr) ∧
   (∀ knownIDs err, l ≠ LHeartbeat knownIDs err) ∧
   (∀ pre dq, l ≠ LDequeue pre dq)).
Proof. destruct l; eauto 10; right; right; right; done. Qed.

(** The routines that have a given call still to make, when one routine
    has made its next call. *)
Lemma count_pending_advance (x : action) (rs : list activity) k a act rest :
  rs !! k = Some a → act_todo a = act :: rest → act ∉ rest →
  (count (λ a, bool_decide (x ∈ act_todo a)) (<[k := set_todo rest a]> rs)
   + (if bool_decide (act = x) then 1 else 0)
   = count (λ a, bool_decide (x ∈ act_todo a)) rs)%nat.
Proof.
  intros Hk Ht Hfresh.
  pose proof (count_insert (λ a, bool_decide (x ∈ act_todo a)) rs k a
                (set_todo rest a) Hk) as Hc.
  simpl in Hc. rewrite Ht in Hc.
  repeat case_bool_decide; set_solver by lia.
Qed.

(** ** The gauge of running jobs *)

Lemma step_gauge l w w' :
  slots_inv w → gauge_inv w → step l w = Some w' → gauge_inv w'.
Proof.
  unfold gauge_inv. intros Hs Hg H.
  destruct (label_cases l) as [(k & he & mr & ->)|[(kn & e & ->)|[(pre & dq & ->)|(H1 & H2 & H3)]]].
  - pose proof H as H'. apply routine_step_frame in H'
      as (a & act & rest & Ha & Ht & -> & _ & _ & _ & _ & ->).
    pose proof (todo_head_fresh_in _ _ _ _ _ Hs Ht Ha) as Hfresh.
    pose proof (count_pending_advance ActNumJobsDec _ _ _ _ _ Ha Ht Hfresh) as Hc.
    unfold gauged in *. repeat case_bool_decide; simplify_eq; lia.
  - simpl in H. apply heartbeat_tick_frame in H as [Hf _].
    destruct Hf as (_ & _ & _ & _ & _ & _ & _ & -> & _ & _ & _ & _ & ->). done.
  - apply dequeue_step_frame in H
      as [(-> & _ & -> & _)|(_ & -> & _ & -> & _)]; [done|].
    rewrite count_app. simpl. unfold gauged at 2. simpl.
    rewrite bool_decide_eq_true_2; [lia|].
    destruct (handler w) as [? []]; vm_compute; set_solver.
  - destruct (step_plain_frame _ _ _ H1 H2 H3 H) as (_ & -> & -> & _). done.
Qed.

(** ** The running set belongs to the routines *)

Lemma newWorker_registry host h o w :
  newWorker host h o = Some w → gauge_inv w ∧ registry_inv w ∧ exit_inv w.
Proof.
  unfold newWorker, gauge_inv, exit_inv. intros H. repeat case_match; simplify_eq.
  all: split; [done|]; split; [|by intros r [?|?]].
  all: split; simpl;
    [intros id c Hc; unfold IDSet.newIDSet in Hc; by rewrite lookup_empty in Hc
    |constructor|constructor].
Qed.

Lemma program_has_remove h : ActRemove ∈ routineProgram h.
Proof. destruct h as [? []]; vm_compute; set_solver. Qed.

Lemma step_registry l w w' :
  registry_inv w → step l w = Some w' → registry_inv w'.
Proof.
  intros [Ho Hf Hd] H.
  destruct (label_cases l) as [(k & he & mr & ->)|[(kn & e & ->)|[(pre & dq & ->)|(H1 & H2 & H3)]]].
  - apply routine_step_frame in H
      as (a & act & rest & Ha & Ht & Hrs & Hn & _ & _ & Hreg & _).
    assert (Hlen : (k < length (routines w))%nat) by (by eapply lookup_lt_Some).
    split; rewrite ?Hrs, ?Hn, ?Hreg.
    + intros id c Hid.
      assert (Hold : runningIDSet w !! id = Some c ∧
                     (act = ActRemove → id ≠ act_id a)).
      { case_bool_decide as Hact.
        - unfold IDSet.Remove in Hid. apply lookup_delete_Some in Hid as [? ?]. done.
        - done. }
      destruct Hold as [Hold Hne].
      destruct (Ho _ _ Hold) as (k' & a' & Hk' & Hid' & Hc' & Hp').
      destruct (decide (k' = k)) as [->|Hk].
      * simplify_eq. exists k, (set_todo rest a).
        rewrite list_lookup_insert_eq by done. repeat split; try done.
        unfold removal_pending in *. simpl. rewrite Ht in Hp'.
        apply bool_decide_eq_true_1 in Hp'. apply bool_decide_eq_true_2.
        apply elem_of_cons in Hp' as [Heq|?]; [|done].
        symmetry in Heq. by destruct (Hne Heq).
      * exists k', a'. rewrite list_lookup_insert_ne by done. done.
    + apply Forall_insert; [done|]. simpl.
      by apply (Forall_lookup_1 _ _ _ _ Hf Ha).
    + rewrite list_fmap_insert. simpl. rewrite list_insert_id; [done|].
      by rewrite list_lookup_fmap, Ha.
  - pose proof H as H'. simpl in H'. apply heartbeat_tick_frame in H' as [Hfr _].
    destruct Hfr as (_ & _ & _ & _ & _ & _ & _ & _ & _ & Hn & _ & _ & Hrs).
    split; rewrite ?Hrs, ?Hn; try done.
    intros id c Hid. rewrite (heartbeat_tick_lookup _ _ _ _ _ H) in Hid.
    case_bool_decide; [|done]. by apply Ho.
  - apply dequeue_step_frame in H
      as [(Hrs & Hreg & _ & _ & Hn)|(Hnone & Hrs & Hreg & _ & _ & Hn)].
    + split; rewrite ?Hrs, ?Hreg; try done.
      eapply Forall_impl; [exact Hf|]. simpl. intros; lia.
    + split; rewrite ?Hrs, ?Hreg, ?Hn.
      * intros id c Hid. apply lookup_insert_Some in Hid as [[<- <-]|[Hne Hid]].
        -- eexists (length (routines w)), _. split.
           { rewrite lookup_app_r by done. by rewrite Nat.sub_diag. }
           repeat split; try done. unfold removal_pending. simpl.
           apply bool_decide_eq_true_2, program_has_remove.
        -- destruct (Ho _ _ Hid) as (k' & a' & Hk' & ?).
           exists k', a'. split; [|done]. by apply lookup_app_l_Some.
      * apply Forall_app. split.
        -- eapply Forall_impl; [exact Hf|]. simpl. intros; lia.
        -- constructor; [simpl; lia|done].
      * rewrite fmap_app. simpl. apply NoDup_app. split; [done|]. split.
        -- intros c Hc. apply list_elem_of_fmap in Hc as (a' & -> & Ha').
           pose proof (proj1 (Forall_forall _ _) Hf _ Ha') as Hlt. simpl in Hlt.
           intros Hin. apply list_elem_of_singleton in Hin. lia.
        -- apply NoDup_singleton.
  - destruct (step_plain_frame _ _ _ H1 H2 H3 H) as (Hreg & Hrs & _ & Hn & _).
    split; rewrite ?Hreg, ?Hrs, ?Hn; done.
Qed.

(** ** The reason of the shutdown *)

Ltac exit_goal :=
  unfold exit_inv in *; wsimpl;
  repeat match goal with Hx : mainPc _ = _ |- _ => rewrite Hx in * end;
  intros ? [?|?]; simplify_eq;
  first [ match goal with
          | Hx : ∀ r : string, _ ∨ _ → _ |- _ => by (eapply Hx; eauto)
          end
        | by (left; split; [reflexivity|auto])
        | by (right; left; split; [reflexivity|split; lia])
        | by (right; right; split; [reflexivity|lia])
        | match goal with
          | Hx : ∀ r : string, _ ∨ _ → _ |- _ =>
              destruct (Hx _ ltac:(eauto)) as [[? ?]|[?|?]];
              [left; by split|right; by left|right; by right]
          end ].

Lemma step_exit l w w' : exit_inv w → step l w = Some w' → exit_inv w'.
Proof.
  intros He H. destruct l.
  9: { simpl in H. routine_cases H; exit_goal. }
  9: { simpl in H. apply heartbeat_tick_frame in H as [Hf _].
       destruct Hf as (_ & Eo & En & _ & Ec & _ & _ & _ & _ & _ & Ep & _).
       unfold exit_inv. rewrite Eo, En, Ec, Ep. done. }
  5: { unfold step, dequeue_step in H.
       destruct (mainPc w) eqn:Hpc; try done.
       destruct (dequeueAndHandle pre dq w) as [[w1 [ok err]]|] eqn:Hd; [|done].
       simpl in H. simplify_eq. unfold exit_inv. wsimpl. by intros r [?|?]. }
  all: revert H; main_cases; exit_goal.
Qed.

Lemma reachable_more host h o w :
  reachable host h o w → gauge_inv w ∧ registry_inv w ∧ exit_inv w.
Proof.
  intros (w0 & s & Hnew & Hrun).
  assert (Hgoal : slots_inv w ∧ gauge_inv w ∧ registry_inv w ∧ exit_inv w); [|tauto].
  eapply (run_invariant (λ w, slots_inv w ∧ gauge_inv w ∧ registry_inv w ∧ exit_inv w));
    [| |exact Hrun].
  - intros l w1 w2 (Hs & Hg & Hr & He) Hstep.
    split; [by eapply step_slots|]. split; [by eapply step_gauge|].
    split; [by eapply step_registry|by eapply step_exit].
  - split; [by eapply newWorker_slots|]. by eapply newWorker_registry.
Qed.

(** A routine that the wait group does not count any more has given its
    slot back and has left the gauge. *)
Lemma uncounted_released h t :
  suffix t (routineProgram h) → ActWgDone ∉ t →
  (ActSemRelease ∉ t) ∧ (ActNumJobsDec ∉ t).
Proof.
  intros [pre Hs] Hn. destruct h as [? []]; vm_compute in Hs;
    do 8 (destruct pre as [|? pre]; simplify_eq/=; try set_solver).
Qed.

(** A routine in the gauge holds its slot; a routine that holds its slot is
    counted by the wait group. *)
Lemma gauged_holds_counted h t :
  suffix t (routineProgram h) →
  (ActNumJobsDec ∈ t → ActSemRelease ∈ t) ∧ (ActSemRelease ∈ t → ActWgDone ∈ t).
Proof.
  intros [pre Hs]. destruct h as [? []]; vm_compute in Hs;
    do 8 (destruct pre as [|? pre]; simplify_eq/=; try set_solver).
Qed.

(** X1. When Start has returned, in every execution: every slot is back in
    the semaphore, no handler activity is running, the wait group is at
    zero and the gauge of running jobs is at zero. *)
Theorem Start_returns_drained host h o w :
  reachable host h o w → finished w = true →
  Z.of_nat (handlerSemaphore w) = NumHandlers o ∧ running w = 0%nat ∧
  wg w = 0 ∧ numJobs w = 0.
Proof.
  intros Hr Hfin.
  destruct (reachable_slots _ _ _ _ Hr) as (Hs & _ & Hn & _ & _ & H0).
  destruct (reachable_more _ _ _ _ Hr) as (Hg & _ & _).
  destruct (reachable_finished _ _ _ _ Hr Hfin) as [Hwg [r Hpc]].
  pose proof (inv_wg _ Hs) as Hcount. rewrite Hwg in Hcount.
  assert (Hzero : count counted (routines w) = 0%nat) by lia.
  apply count_zero_Forall in Hzero.
  assert (Hrel : Forall (λ a, holds_slot a = false ∧ gauged a = false) (routines w)).
  { apply Forall_forall. intros a Ha.
    pose proof (proj1 (Forall_forall _ _) Hzero _ Ha) as Hnc.
    pose proof (proj1 (Forall_forall _ _) (inv_todo _ Hs) _ Ha) as Hsuf.
    cbv beta in Hnc, Hsuf. unfold counted in Hnc.
    apply bool_decide_eq_false_1 in Hnc.
    destruct (uncounted_released _ _ Hsuf Hnc).
    unfold holds_slot, gauged. split; by apply bool_decide_eq_false_2. }
  assert (Hrun : running w = 0%nat).
  { apply count_zero_Forall. eapply Forall_impl; [exact Hrel|]. by intros a [? ?]. }
  assert (Hgz : count gauged (routines w) = 0%nat).
  { apply count_zero_Forall. eapply Forall_impl; [exact Hrel|]. by intros a [? ?]. }
  pose proof (inv_slots _ Hs) as Hslots. unfold main_holds, capacity in Hslots.
  rewrite Hpc, Hrun, Hn in Hslots. unfold gauge_inv in Hg. rewrite Hgz in Hg.
  repeat split; try done; lia.
Qed.

Lemma Start_returns_drained_witness :
  ∃ w, start_worker "host" Scenario.hooks (Scenario.options_of 2 0 10)
         Scenario.duplicate_job = Some w ∧
       Z.of_nat (handlerSemaphore w) = 2 ∧ running w = 0%nat ∧ wg w = 0 ∧ numJobs w = 0.
Proof.
  eexists. split; [vm_compute; reflexivity|].
  match goal with |- Z.of_nat (handlerSemaphore ?w) = _ ∧ _ =>
    assert (Hr : reachable "host" Scenario.hooks (Scenario.options_of 2 0 10) w)
      by (apply (start_worker_reachable _ _ _ Scenario.duplicate_job);
          vm_compute; reflexivity);
    pose proof (Start_returns_drained "host" Scenario.hooks
                  (Scenario.options_of 2 0 10) w Hr eq_refl) as Hd
  end.
  exact Hd.
Defined.

(** X2. In every execution the gauge of running jobs is the number of
    routines that have not yet decremented it; it is never negative and
    never above the number of running handler activities, so never above
    NumHandlers. *)
Theorem numJobs_gauge host h o w :
  reachable host h o w →
  numJobs w = Z.of_nat (count gauged (routines w)) ∧
  0 ≤ numJobs w ≤ Z.of_nat (running w) ∧ numJobs w ≤ NumHandlers o.
Proof.
  intros Hr.
  destruct (reachable_slots _ _ _ _ Hr) as (Hs & _ & Hn & _ & _ & H0).
  destruct (reachable_more _ _ _ _ Hr) as (Hg & _ & _).
  assert (Hle : (count gauged (routines w) ≤ running w)%nat).
  { apply count_le. eapply Forall_impl; [exact (inv_todo _ Hs)|].
    intros a Hsuf Hga. unfold gauged in Hga. apply bool_decide_eq_true_1 in Hga.
    unfold holds_slot. apply bool_decide_eq_true_2.
    by apply (gauged_holds_counted _ _ Hsuf). }
  pose proof (inv_slots _ Hs) as Hslots. unfold capacity in Hslots.
  unfold gauge_inv in Hg. rewrite Hn in Hslots. split; [done|]. lia.
Qed.

Lemma numJobs_gauge_witness :
  ∃ w, start_worker "host" Scenario.hooks (Scenario.options_of 2 0 0)
         Scenario.two_jobs = Some w ∧
       numJobs w = 2 ∧ 0 ≤ numJobs w ≤ Z.of_nat (running w) ∧ numJobs w ≤ 2.
Proof.
  eexists. split; [vm_compute; reflexivity|].
  match goal with |- numJobs ?w = _ ∧ _ =>
    assert (Hr : reachable "host" Scenario.hooks (Scenario.options_of 2 0 0) w)
      by (apply (start_worker_reachable _ _ _ Scenario.two_jobs);
          vm_compute; reflexivity);
    pose proof (numJobs_gauge "host" Scenario.hooks
                  (Scenario.options_of 2 0 0) w Hr) as (Hg & Hb & Hn)
  end.
  split; [reflexivity|]. split; [exact Hb|exact Hn].
Defined.

(** X3. In every execution the wait group is the number of routines that
    have not yet called Done: it is never negative and never below the
    number of running handler activities; and [w.wg.Wait()] at the end of
    Start can return exactly when no routine is counted any more. *)
Theorem wait_group_counts host h o w :
  reachable host h o w →
  wg w = Z.of_nat (count counted (routines w)) ∧
  Z.of_nat (running w) ≤ wg w ∧
  (∀ r, mainPc w = MDrain r →
     (is_Some (step LWaitDone w) ↔ Forall (λ a, counted a = false) (routines w))).
Proof.
  intros Hr. destruct (reachable_slots _ _ _ _ Hr) as (Hs & _).
  pose proof (inv_wg _ Hs) as Hwg. split; [done|]. split.
  - rewrite Hwg. apply inj_le. apply count_le.
    eapply Forall_impl; [exact (inv_todo _ Hs)|].
    intros a Hsuf Hh. unfold holds_slot in Hh. apply bool_decide_eq_true_1 in Hh.
    unfold counted. apply bool_decide_eq_true_2.
    by apply (gauged_holds_counted _ _ Hsuf).
  - intros r Hpc. unfold step, wait_done. rewrite Hpc.
    rewrite <- count_zero_Forall. destruct (wg w =? 0) eqn:E.
    + split; [intros _; lia|eauto].
    + split; [by intros [? ?]|intros ?; lia].
Qed.

Lemma wait_group_counts_witness :
  ∃ w, start_worker "host" Scenario.hooks (Scenario.options_of 2 0 0)
         Scenario.two_jobs = Some w ∧
       wg w = 2 ∧ Z.of_nat (running w) ≤ wg w.
Proof.
  eexists. split; [vm_compute; reflexivity|].
  match goal with |- wg ?w = _ ∧ _ =>
    assert (Hr : reachable "host" Scenario.hooks (Scenario.options_of 2 0 0) w)
      by (apply (start_worker_reachable _ _ _ Scenario.two_jobs);
          vm_compute; reflexivity);
    pose proof (wait_group_counts "host" Scenario.hooks
                  (Scenario.options_of 2 0 0) w Hr) as (H1 & H2 & _)
  end.
  split; [reflexivity|exact H2].
Defined.

(** X4. The reason with which Start leaves its loop is "" only if the root
    context is canceled, "NumTotalJobs dequeued" only if NumTotalJobs is not
    zero and the count of dequeues has reached it, and "MaxActiveTime
    elapsed" only if MaxActiveTime is positive; there is no other reason. *)
Theorem shutdown_reason host h o w r :
  reachable host h o w →
  mainPc w = MDrain r ∨ mainPc w = MFinished r →
  (r = "" ∧ rootCanceled w = true) ∨
  (r = "NumTotalJobs dequeued" ∧ NumTotalJobs o ≠ 0 ∧ NumTotalJobs o ≤ numDequeues w) ∨
  (r = "MaxActiveTime elapsed" ∧ 0 < MaxActiveTime o).
Proof.
  intros Hr Hpc.
  destruct (reachable_slots _ _ _ _ Hr) as (_ & _ & _ & Ht & Hm & _).
  destruct (reachable_more _ _ _ _ Hr) as (_ & _ & He).
  rewrite <- Ht, <- Hm. by apply He.
Qed.

Lemma shutdown_reason_witness :
  ∃ w, start_worker "host" Scenario.hooks (Scenario.options_of 2 0 10)
         Scenario.duplicate_job = Some w ∧
       mainPc w = MFinished "MaxActiveTime elapsed" ∧
       ((("MaxActiveTime elapsed" : string) = "" ∧ rootCanceled w = true) ∨
        (("MaxActiveTime elapsed" : string) = "NumTotalJobs dequeued" ∧
         (0 : Z) ≠ 0 ∧ 0 ≤ numDequeues w) ∨
        (("MaxActiveTime elapsed" : string) = "MaxActiveTime elapsed" ∧ 0 < 10)).
Proof.
  eexists. split; [vm_compute; reflexivity|]. split; [reflexivity|].
  match goal with |- (_ ∧ rootCanceled ?w = _) ∨ _ =>
    assert (Hr : reachable "host" Scenario.hooks (Scenario.options_of 2 0 10) w)
      by (apply (start_worker_reachable _ _ _ Scenario.duplicate_job);
          vm_compute; reflexivity);
    pose proof (shutdown_reason "host" Scenario.hooks (Scenario.options_of 2 0 10) w
                  "MaxActiveTime elapsed" Hr (or_intror eq_refl)) as Hd
  end.
  exact Hd.
Defined.

(** ** The heartbeat and the running set *)

(** X5. One turn of the heartbeat loop leaves in the running set exactly
    the registered ids that [store.Heartbeat] returned (an id the store
    returned but that is not registered is not added), whether or not the
    call returned an error; it changes nothing else of the worker but the
    history: no slot, no wait group count, no routine, no context. *)
Theorem heartbeat_keeps_known_ids knownIDs err w w' :
  step (LHeartbeat knownIDs err) w = Some w' →
  (∀ i, runningIDSet w' !! i
        = if bool_decide (i ∈ knownIDs) then runningIDSet w !! i else None) ∧
  same_but_ids_trace w w'.
Proof.
  intros H. split.
  - intros i. by apply (heartbeat_tick_lookup knownIDs err).
  - simpl in H. by apply heartbeat_tick_frame in H as [? _].
Qed.

Lemma heartbeat_keeps_known_ids_witness :
  ∃ w w', start_worker "host" Scenario.hooks (Scenario.options_of 2 0 0)
            Scenario.two_jobs = Some w ∧
          step (LHeartbeat [18; 99] None) w = Some w' ∧
          IDSet.Slice (runningIDSet w') = [18] ∧
          (∀ i, runningIDSet w' !! i
                = if bool_decide (i ∈ [18; 99]) then runningIDSet w !! i else None).
Proof.
  eexists _, _. split; [vm_compute; reflexivity|].
  split; [vm_compute; reflexivity|]. split; [vm_compute; reflexivity|].
  match goal with |- ∀ i, runningIDSet ?w' !! i = if _ then runningIDSet ?w !! i else _ =>
    assert (Hs : step (LHeartbeat [18; 99] None) w = Some w')
      by (vm_compute; reflexivity);
    exact (proj1 (heartbeat_keeps_known_ids [18; 99] None w w' Hs))
  end.
Defined.

(** X6. In every execution every id in the running set is the id of the
    record of a routine that has its removal from the set still to make; so
    when every routine has run to its end the running set is empty. *)
Theorem running_set_owned host h o w :
  reachable host h o w →
  (∀ id, IDSet.Has id (runningIDSet w) = true →
     ∃ k a, routines w !! k = Some a ∧ act_id a = id ∧ removal_pending a = true) ∧
  (Forall (λ a, act_todo a = []) (routines w) → runningIDSet w = ∅).
Proof.
  intros Hr. destruct (reachable_more _ _ _ _ Hr) as (_ & [Ho _ _] & _).
  split.
  - intros id Hhas. unfold IDSet.Has in Hhas.
    apply bool_decide_eq_true_1 in Hhas as [c Hc].
    destruct (Ho _ _ Hc) as (k & a & Hk & Hid & _ & Hp). eauto.
  - intros Hall. apply map_eq. intros id. rewrite lookup_empty.
    destruct (runningIDSet w !! id) as [c|] eqn:Hc; [|done].
    destruct (Ho _ _ Hc) as (k & a & Hk & _ & _ & Hp).
    pose proof (Forall_lookup_1 _ _ _ _ Hall Hk) as Hnil. simpl in Hnil.
    unfold removal_pending in Hp. rewrite Hnil in Hp.
    apply bool_decide_eq_true_1 in Hp. by apply elem_of_nil in Hp.
Qed.

Lemma running_set_owned_witness :
  ∃ w, start_worker "host" Scenario.hooks (Scenario.options_of 2 0 10)
         Scenario.duplicate_job = Some w ∧
       Forall (λ a, act_todo a = []) (routines w) ∧ runningIDSet w = ∅.
Proof.
  eexists. split; [vm_compute; reflexivity|].
  match goal with |- Forall _ (routines ?w) ∧ _ =>
    assert (Hr : reachable "host" Scenario.hooks (Scenario.options_of 2 0 10) w)
      by (apply (start_worker_reachable _ _ _ Scenario.duplicate_job);
          vm_compute; reflexivity);
    pose proof (running_set_owned "host" Scenario.hooks
                  (Scenario.options_of 2 0 10) w Hr) as [_ He]
  end.
  assert (Hall : Forall (λ a, act_todo a = [])
                   [{| act_id := 7; act_ctx := 0%nat; act_todo := [] |}])
    by (constructor; [reflexivity|constructor]).
  split; [exact Hall|exact (He Hall)].
Defined.

(** ** Cancel *)

Lemma Cancel_unregistered id w :
  runningIDSet w !! id = None → Cancel id w = w.
Proof.
  unfold Cancel, IDSet.Cancel. intros ->. by destruct w.
Qed.

(** X7. [Cancel(id)] on an id that is not in the running set changes
    nothing.  On a registered id it cancels the context of the routine the
    id is registered for: the error of that context is context.Canceled
    afterwards, while the root context and the context of every other
    routine keep the error they had. *)
Theorem Cancel_one_routine host h o w id :
  reachable host h o w →
  (runningIDSet w !! id = None → Cancel id w = w) ∧
  (∀ c, runningIDSet w !! id = Some c →
     ∃ k a, routines w !! k = Some a ∧ act_id a = id ∧ act_ctx a = c ∧
       ctx_Err (Cancel id w) (CtxHandle c) = Some context_Canceled ∧
       ctx_Err (Cancel id w) CtxRoot = ctx_Err w CtxRoot ∧
       ∀ k' a', routines w !! k' = Some a' → k' ≠ k →
         ctx_Err (Cancel id w) (CtxHandle (act_ctx a'))
         = ctx_Err w (CtxHandle (act_ctx a'))).
Proof.
  intros Hr. destruct (reachable_more _ _ _ _ Hr) as (_ & [Ho _ Hd] & _).
  split; [apply Cancel_unregistered|].
  intros c Hc. destruct (Ho _ _ Hc) as (k & a & Hk & Hid & Hctx & _).
  exists k, a. repeat (split; [done|]).
  unfold Cancel, IDSet.Cancel, ctx_Err. rewrite Hc. wsimpl.
  split; [|split; [done|]].
  - rewrite (bool_decide_eq_true_2 (c ∈ {[c]} ∪ canceled w)) by set_solver.
    by rewrite orb_true_r.
  - intros k' a' Hk' Hne.
    assert (Hdiff : act_ctx a' ≠ c).
    { intros Heq. apply Hne.
      eapply (NoDup_lookup _ _ _ _ Hd); rewrite list_lookup_fmap.
      - by rewrite Hk'.
      - rewrite Hk. simpl. congruence. }
    destruct (rootCanceled w); [done|]. simpl.
    repeat case_bool_decide; try done; set_solver.
Qed.

Lemma Cancel_one_routine_witness :
  ∃ w, start_worker "host" Scenario.hooks (Scenario.options_of 2 0 0)
         Scenario.two_jobs = Some w ∧
       ctx_Err (Cancel 18 w) (CtxHandle 1) = Some context_Canceled ∧
       ctx_Err (Cancel 18 w) (CtxHandle 0) = None ∧
       Cancel 5 w = w.
Proof.
  eexists. split; [vm_compute; reflexivity|].
  match goal with |- ctx_Err (Cancel 18 ?w) _ = _ ∧ _ =>
    assert (Hr : reachable "host" Scenario.hooks (Scenario.options_of 2 0 0) w)
      by (apply (start_worker_reachable _ _ _ Scenario.two_jobs);
          vm_compute; reflexivity);
    pose proof (Cancel_one_routine "host" Scenario.hooks
                  (Scenario.options_of 2 0 0) w 18 Hr) as [_ H18];
    pose proof (Cancel_one_routine "host" Scenario.hooks
                  (Scenario.options_of 2 0 0) w 5 Hr) as [H5 _]
  end.
  destruct (H18 1%nat ltac:(vm_compute; reflexivity))
    as (k & a & Hk & Hid & Hctx & Hc & _ & _).
  split; [exact Hc|]. split; [vm_compute; reflexivity|].
  apply H5. vm_compute. reflexivity.
Defined.

(** ** Hooks, contexts and the hostname *)

Lemma heartbeat_remove_calls h host knownIDs w id :
  ∃ new, trace (heartbeat_remove knownIDs w id) = trace w ++ new ∧
         Forall (call_ok h host) new.
Proof.
  unfold heartbeat_remove. case_bool_decide.
  - exists []. by rewrite app_nil_r.
  - eexists. simpl. rewrite <- app_assoc. split; [done|]. by repeat constructor.
Qed.

Lemma heartbeat_fold_calls h host knownIDs ids w :
  ∃ new, trace (foldl (heartbeat_remove knownIDs) w ids) = trace w ++ new ∧
         Forall (call_ok h host) new.
Proof.
  revert w. induction ids as [|id ids IH]; intros w; simpl.
  - exists []. by rewrite app_nil_r.
  - destruct (IH (heartbeat_remove knownIDs w id)) as (new & Ht & Hn).
    destruct (heartbeat_remove_calls h host knownIDs w id) as (new1 & Ht1 & Hn1).
    exists (new1 ++ new). rewrite Ht, Ht1, app_assoc. split; [done|].
    by apply Forall_app.
Qed.

Lemma heartbeat_tick_calls h host knownIDs err w w' :
  heartbeat_tick knownIDs err w = Some w' →
  ∃ new, trace w' = trace w ++ new ∧ Forall (call_ok h host) new.
Proof.
  unfold heartbeat_tick. destruct (heartbeatRunning w); [|done]. intros [= <-].
  match goal with |- context [foldl _ ?w0 ?l] =>
    destruct (heartbeat_fold_calls h host knownIDs l w0) as (new & Ht & Hn)
  end.
  rewrite Ht. unfold heartbeat_log. destruct err; wsimpl; rewrite <- ?app_assoc;
    eexists; (split; [reflexivity|]); simpl; repeat (constructor; [done|]); done.
Qed.

Ltac solve_calls :=
  repeat (apply Forall_cons; split; [by (unfold call_ok; simpl; auto)|]);
  by apply Forall_nil.

Ltac close_calls :=
  wsimpl; rewrite <- ?app_assoc;
  first [ exists []; rewrite app_nil_r; split; [reflexivity|]
        | eexists; split; [reflexivity|] ];
  solve_calls.

Lemma program_has_posthandle h t :
  suffix t (routineProgram h) → ActPostHandle ∈ t → WithHooks h = true.
Proof.
  intros [pre Hs] Hn. destruct h as [? []]; [done|]. exfalso.
  vm_compute in Hs.
  do 8 (destruct pre as [|? pre]; simplify_eq/=; try set_solver).
Qed.

(** What a step adds to the history, call by call. *)
Lemma step_calls l w w' :
  slots_inv w → step l w = Some w' →
  ∃ new, trace w' = trace w ++ new ∧
         Forall (call_ok (handler w) (WorkerHostname (options w))) new.
Proof.
  intros Hs H. destruct l.
  9: { pose proof H as H'. apply step_trace_routine in H'
         as (a0 & act0 & rest0 & new0 & Ha0 & Ht0 & _).
       assert (Hhooks : act0 = ActPostHandle → WithHooks (handler w) = true).
       { intros ->. eapply program_has_posthandle.
         - eapply (Forall_lookup_1 _ _ _ _ (inv_todo _ Hs) Ha0).
         - rewrite Ht0. set_solver. }
       simpl in H. routine_cases H; simplify_eq;
         try (rewrite Ht0 in *; simplify_eq).
       - eexists. wsimpl. split; [reflexivity|].
         constructor; [done|]. constructor; [by destruct m|].
         eapply Forall_impl; [exact Hl|]. intros [b e] [_ He]. by destruct e.
       - close_calls.
       - close_calls.
       - close_calls.
       - close_calls.
       - close_calls.
       - close_calls. }
  9: { simpl in H. by eapply heartbeat_tick_calls. }
  5: { unfold step, dequeue_step in H.
       destruct (mainPc w) eqn:Hpc; try done.
       destruct (dequeueAndHandle pre dq w) as [[w1 [ok err]]|] eqn:Hd; [|done].
       simpl in H. simplify_eq.
       unfold dequeueAndHandle, dequeueAndHandle_body, preDequeueHook, IDSet.Add in Hd.
       repeat (case_match; simplify_option_eq);
         try match goal with Hx : sem_send _ = Some _ |- _ =>
           apply sem_send_Some in Hx as [[-> Hx]|(-> & Hx & ?)] end;
         close_calls. }
  all: revert H; main_cases; close_calls.
Qed.

(** A record that gets a routine went through PreHandle with the context of
    the routine, if the handler has hooks. *)
Lemma dequeue_step_prehandle pre dq w w' :
  step (LDequeue pre dq) w = Some w' →
  routines w' = routines w ∨
  ∃ a, routines w' = routines w ++ [a] ∧
       (WithHooks (handler w) = true →
        (Main, EvPreHandle (CtxHandle (act_ctx a)) (act_id a)) ∈ trace w').
Proof.
  intros H. unfold step, dequeue_step in H.
  destruct (mainPc w) eqn:Hpc; try done.
  destruct (dequeueAndHandle pre dq w) as [[w1 [ok err]]|] eqn:Hd; [|done].
  simpl in H. simplify_eq.
  unfold dequeueAndHandle, dequeueAndHandle_body, preDequeueHook, IDSet.Add in Hd.
  repeat (case_match; simplify_option_eq);
    try match goal with Hx : sem_send _ = Some _ |- _ =>
      apply sem_send_Some in Hx as [[-> Hx]|(-> & Hx & ?)] end;
    wsimpl;
    first [ by left
          | right; eexists; split; [reflexivity|]; intros Hh; try congruence;
            cbn [act_ctx act_id]; apply elem_of_app; right;
            by apply list_elem_of_singleton ].
Qed.

(** The handler calls a routine step adds are those of the routine. *)
Lemma routine_step_handle_events k handleErr mr w w' :
  step (LRoutine k handleErr mr) w = Some w' →
  ∃ a new, routines w !! k = Some a ∧ trace w' = trace w ++ new ∧
    ∀ k' c id, (Routine k', EvHandle c id) ∈ new →
      k' = k ∧ c = CtxHandle (act_ctx a) ∧ id = act_id a.
Proof.
  intros H. simpl in H. routine_cases H; simplify_eq.
  - eexists a, _. wsimpl. split; [done|]. split; [reflexivity|].
    intros k' c id Hin.
    apply elem_of_cons in Hin as [Hin|Hin]; [by simplify_eq|].
    apply elem_of_cons in Hin as [Hin|Hin]; [by simplify_eq|].
    eapply Forall_forall in Hl; [|exact Hin]. by destruct Hl as [_ ?].
  - eexists a, _. wsimpl. split; [done|]. split; [reflexivity|].
    intros k' c id Hin.
    repeat (apply elem_of_cons in Hin as [Hin|Hin]; [by simplify_eq|]).
    by apply elem_of_nil in Hin.
  - eexists a, _. wsimpl. split; [done|]. split; [reflexivity|].
    intros k' c id Hin.
    repeat (apply elem_of_cons in Hin as [Hin|Hin]; [by simplify_eq|]).
    by apply elem_of_nil in Hin.
  - eexists a, _. wsimpl. split; [done|]. split; [reflexivity|].
    intros k' c id Hin.
    repeat (apply elem_of_cons in Hin as [Hin|Hin]; [by simplify_eq|]).
    by apply elem_of_nil in Hin.
  - eexists a, _. wsimpl. split; [done|]. split; [reflexivity|].
    intros k' c id Hin.
    repeat (apply elem_of_cons in Hin as [Hin|Hin]; [by simplify_eq|]).
    by apply elem_of_nil in Hin.
  - eexists a, _. wsimpl. split; [done|]. split; [reflexivity|].
    intros k' c id Hin.
    repeat (apply elem_of_cons in Hin as [Hin|Hin]; [by simplify_eq|]).
    by apply elem_of_nil in Hin.
  - eexists a, _. wsimpl. split; [done|]. split; [reflexivity|].
    intros k' c id Hin.
    repeat (apply elem_of_cons in Hin as [Hin|Hin]; [by simplify_eq|]).
    by apply elem_of_nil in Hin.
Qed.

Lemma step_calls_inv l w w' :
  slots_inv w → calls_inv w → step l w = Some w' → calls_inv w'.
Proof.
  intros Hs [Hok Hpre Hhandle] Hstep.
  destruct (step_handler_options _ _ _ Hstep) as [Hh Ho].
  destruct (step_calls _ _ _ Hs Hstep) as (new & Htr & Hnew).
  assert (Hold : ∀ j x, trace w !! j = Some x → trace w' !! j = Some x).
  { intros j x Hj. rewrite Htr. by apply lookup_app_l_Some. }
  assert (Hin : ∀ x, x ∈ trace w → x ∈ trace w').
  { intros x Hx. rewrite Htr. apply elem_of_app. by left. }
  split.
  - rewrite Hh, Ho, Htr. by apply Forall_app.
  - (* the record of every routine went through PreHandle *)
    rewrite Hh. intros k a Hk Hhooks.
    destruct (label_cases l) as [(k0 & he & mr & ->)|[(ids & err & ->)|
      [(pre & dq & ->)|(Hn1 & Hn2 & Hn3)]]].
    + apply routine_step_frame in Hstep
        as (a0 & act & rest & Ha0 & _ & Hr & _).
      rewrite Hr in Hk. destruct (decide (k = k0)) as [->|Hne].
      * rewrite list_lookup_insert_eq in Hk by (by eapply lookup_lt_Some).
        simplify_eq. apply Hin. by eapply (Hpre k0 a0).
      * rewrite list_lookup_insert_ne in Hk by done. apply Hin. by eapply Hpre.
    + simpl in Hstep. apply heartbeat_tick_frame in Hstep as [Hf _].
      destruct Hf as (_ & _ & _ & _ & _ & _ & _ & _ & _ & _ & _ & _ & Hr).
      rewrite Hr in Hk. apply Hin. by eapply Hpre.
    + apply dequeue_step_prehandle in Hstep as [Hr|(a1 & Hr & Ha1)];
        rewrite Hr in Hk.
      * apply Hin. by eapply Hpre.
      * apply lookup_app_Some in Hk as [Hk|[_ Hk]]; [apply Hin; by eapply Hpre|].
        apply list_lookup_singleton_Some in Hk as [_ <-]. by apply Ha1.
    + apply step_plain_frame in Hstep as (_ & Hr & _); [|done..].
      rewrite Hr in Hk. apply Hin. by eapply Hpre.
  - (* the handler is called with the context of its routine *)
    rewrite Hh.
    assert (Hkeep : ∀ k a, routines w !! k = Some a →
              ∃ a', routines w' !! k = Some a' ∧ act_ctx a' = act_ctx a ∧
                    act_id a' = act_id a).
    { intros k a Hk.
      destruct (label_cases l) as [(k0 & he & mr & ->)|[(ids & err & ->)|
        [(pre & dq & ->)|(Hn1 & Hn2 & Hn3)]]].
      - apply routine_step_frame in Hstep
          as (a0 & act & rest & Ha0 & _ & Hr & _).
        rewrite Hr. destruct (decide (k = k0)) as [->|Hne].
        + rewrite list_lookup_insert_eq by (by eapply lookup_lt_Some).
          simplify_eq. by eexists.
        + rewrite list_lookup_insert_ne by done. by eexists.
      - simpl in Hstep. apply heartbeat_tick_frame in Hstep as [Hf _].
        destruct Hf as (_ & _ & _ & _ & _ & _ & _ & _ & _ & _ & _ & _ & Hr).
        rewrite Hr. by eexists.
      - apply dequeue_step_prehandle in Hstep as [Hr|(a1 & Hr & Ha1)];
          rewrite Hr; [by eexists|].
        exists a. split; [|done]. by apply lookup_app_l_Some.
      - apply step_plain_frame in Hstep as (_ & Hr & _); [|done..].
        rewrite Hr. by eexists. }
    intros j k c id Hj. rewrite Htr in Hj.
    apply lookup_app_Some in Hj as [Hj|[Hlen Hj]].
    + destruct (Hhandle _ _ _ _ Hj) as (a & Hk & -> & -> & Hp).
      destruct (Hkeep _ _ Hk) as (a' & Hk' & Hc & Hi).
      exists a'. rewrite Hc, Hi. split; [done|]. split; [done|]. split; [done|].
      intros Hhooks. destruct (Hp Hhooks) as (i & Hlt & Hi'). eauto.
    + assert (Hnewin : (Routine k, EvHandle c id) ∈ new)
        by (by eapply list_elem_of_lookup_2).
      destruct (label_cases l) as [(k0 & he & mr & ->)|Hmain].
      * destruct (routine_step_handle_events _ _ _ _ _ Hstep)
          as (a & new' & Hk & Htr' & Hev).
        assert (new' = new) as -> by (rewrite Htr in Htr'; by eapply app_inv_head).
        destruct (Hev _ _ _ Hnewin) as (-> & -> & ->).
        destruct (Hkeep _ _ Hk) as (a' & Hk' & Hc & Hi).
        exists a'. rewrite Hc, Hi. split; [done|]. split; [done|]. split; [done|].
        intros Hhooks. pose proof (Hpre _ _ Hk Hhooks) as Hp.
        apply list_elem_of_lookup_1 in Hp as [i Hi'].
        exists i. split; [|by apply Hold].
        apply lookup_lt_Some in Hi'. lia.
      * exfalso.
        assert (Hnr : ∀ k1 he mr, l ≠ LRoutine k1 he mr).
        { intros k1 he mr ->.
          destruct Hmain as [(? & ? & ?)|[(? & ? & ?)|(Hx & _ & _)]]; try done.
          by eapply Hx. }
        destruct (step_trace_main _ _ _ Hnr Hstep) as (new' & Htr' & Hq & _).
        assert (new' = new) as -> by (rewrite Htr in Htr'; by eapply app_inv_head).
        eapply Forall_forall in Hq; [|exact Hnewin].
        by destruct Hq as [[?|?] _].
Qed.

Lemma newWorker_calls host h o w :
  newWorker host h o = Some w →
  calls_inv w ∧ handler w = h ∧
  WorkerHostname (options w)
  = (if bool_decide (WorkerHostname o = "") then host else WorkerHostname o).
Proof.
  unfold newWorker. intros H. repeat case_match; simplify_eq; simpl.
  all: split; [|done].
  all: split; simpl; [by apply Forall_nil| |]; intros; by simplify_list_eq.
Qed.

(** X8. In every execution the worker calls the optional hooks only if the
    handler has them; PreDequeue, store.Dequeue, store.Heartbeat and
    PostHandle get the root context, PreHandle and Handle the context of a
    record; store.Dequeue gets the hostname of the options, or the one of
    the machine when the options name none; and, when the handler has
    hooks, every call of Handle comes after a call of PreHandle with the
    same context and the same record. *)
Theorem hooks_and_contexts host h o w :
  reachable host h o w →
  Forall (call_ok h (if bool_decide (WorkerHostname o = "") then host
                     else WorkerHostname o)) (trace w) ∧
  (∀ j k c id, trace w !! j = Some (Routine k, EvHandle c id) →
     WithHooks h = true →
     ∃ i, (i < j)%nat ∧ trace w !! i = Some (Main, EvPreHandle c id)).
Proof.
  intros (w0 & s & Hnew & Hrun).
  set (hn := if bool_decide (WorkerHostname o = "") then host else WorkerHostname o).
  assert (Hgoal : slots_inv w ∧ calls_inv w ∧ handler w = h ∧
                  WorkerHostname (options w) = hn).
  { eapply (run_invariant (λ w, slots_inv w ∧ calls_inv w ∧ handler w = h ∧
                                WorkerHostname (options w) = hn)); [| |exact Hrun].
    - intros l w1 w2 (Hs & Hc & Hh & Ho) Hstep.
      destruct (step_handler_options _ _ _ Hstep) as [Hh' Ho'].
      split; [by eapply step_slots|]. split; [by eapply step_calls_inv|].
      by rewrite Hh', Ho'.
    - split; [by eapply newWorker_slots|]. by apply newWorker_calls. }
  destruct Hgoal as (_ & [Hok _ Hhandle] & Hh & Ho).
  rewrite Hh, Ho in Hok. split; [exact Hok|].
  intros j k c id Hj Hhooks.
  destruct (Hhandle _ _ _ _ Hj) as (a & _ & _ & _ & Hp).
  apply Hp. by rewrite Hh.
Qed.

Lemma hooks_and_contexts_witness :
  ∃ w, start_worker "host" Scenario.hooks (Scenario.options_of 2 1 0)
         Scenario.one_job = Some w ∧
       trace w !! 5%nat = Some (Routine 0, EvHandle (CtxHandle 0) 7) ∧
       Forall (call_ok Scenario.hooks "host") (trace w) ∧
       ∃ i, (i < 5)%nat ∧ trace w !! i = Some (Main, EvPreHandle (CtxHandle 0) 7).
Proof.
  eexists. split; [vm_compute; reflexivity|].
  match goal with |- trace ?w !! _ = _ ∧ _ =>
    assert (Hr : reachable "host" Scenario.hooks (Scenario.options_of 2 1 0) w)
      by (apply (start_worker_reachable _ _ _ Scenario.one_job);
          vm_compute; reflexivity);
    pose proof (hooks_and_contexts "host" Scenario.hooks
                  (Scenario.options_of 2 1 0) w Hr) as [Hok Hpre]
  end.
  split; [vm_compute; reflexivity|].
  split; [exact Hok|].
  apply (Hpre 5%nat 0%nat (CtxHandle 0) 7); [vm_compute; reflexivity|reflexivity].
Defined.

(** ** The outcome of a canceled record *)

(** The call of the handler by a routine, and the terminal store call that
    follows it. *)
Lemma routine_handle_step k a rest handleErr mr w :
  routines w !! k = Some a → act_todo a = ActHandle :: rest →
  ∃ w', step (LRoutine k handleErr mr) w = Some w' ∧
    terminal_calls w w' =
      [(Routine k,
        match handleErr with
        | None => EvMarkComplete CtxRoot (act_id a)
        | Some e =>
            if chain_NonRetryable e
               || (errors_Is (Some e) (ctx_Err w (CtxHandle (act_ctx a)))
                   && IDSet.Has (act_id a) (runningIDSet w))
            then EvMarkFailed CtxRoot (act_id a) (Error e)
            else EvMarkErrored CtxRoot (act_id a) (Error e)
        end)].
Proof.
  intros Hk Ht. cbn [step]. unfold routine_step. rewrite Hk, Ht.
  unfold perform, handle, isJobCanceled.
  assert (Hctx : ctx_Err (emit (Routine k) (EvHandle (CtxHandle (act_ctx a)) (act_id a)) w)
                   (CtxHandle (act_ctx a)) = ctx_Err w (CtxHandle (act_ctx a)))
    by done.
  rewrite Hctx.
  change (runningIDSet (emit (Routine k)
            (EvHandle (CtxHandle (act_ctx a)) (act_id a)) w))
    with (runningIDSet w).
  destruct handleErr as [e|]; cbn [IsNonRetryable Error_of].
  - rewrite (bool_decide_eq_true_2 (Some e ≠ None)) by done. cbn [andb].
    destruct (chain_NonRetryable e
              || errors_Is (Some e) (ctx_Err w (CtxHandle (act_ctx a)))
                 && IDSet.Has (act_id a) (runningIDSet w)); unfold mark;
      destruct (mk_err mr), (mk_marked mr); simpl; (eexists; split; [reflexivity|]);
      unfold terminal_calls;
      (erewrite emitted_app; [|wsimpl; rewrite <- ?app_assoc; reflexivity]); done.
  - rewrite (bool_decide_eq_false_2 (None ≠ None)) by (by intros []).
    cbn [andb orb]. unfold mark.
    destruct (mk_err mr), (mk_marked mr); simpl; (eexists; split; [reflexivity|]);
      unfold terminal_calls;
      (erewrite emitted_app; [|wsimpl; rewrite <- ?app_assoc; reflexivity]); done.
Qed.

(** X9. A record whose id is registered with the context of a routine that
    has still to call the handler is the record of that routine.  After
    Cancel of the id, or after the root context is canceled (Stop), the
    routine can call the handler, and the terminal store call depends on
    what the handler returns: MarkComplete for nil, MarkFailed for an error
    that is non-retryable or is context.Canceled, MarkErrored for any other
    error. *)
Theorem cancellation_outcome host h o w id c k a rest w1 :
  reachable host h o w →
  runningIDSet w !! id = Some c →
  routines w !! k = Some a → act_ctx a = c → act_todo a = ActHandle :: rest →
  w1 = Cancel id w ∨ w1 = cancel w →
  act_id a = id ∧
  ∀ handleErr mr, ∃ w',
    step (LRoutine k handleErr mr) w1 = Some w' ∧
    terminal_calls w1 w' =
      [(Routine k,
        match handleErr with
        | None => EvMarkComplete CtxRoot id
        | Some e =>
            if chain_NonRetryable e || chain_Is e context_Canceled
            then EvMarkFailed CtxRoot id (Error e)
            else EvMarkErrored CtxRoot id (Error e)
        end)].
Proof.
  intros Hr Hreg Hk Hc Ht Hw1.
  destruct (reachable_more _ _ _ _ Hr) as (_ & [Hown _ Hnd] & _).
  assert (Hid : act_id a = id).
  { destruct (Hown _ _ Hreg) as (k' & a' & Hk' & Hid' & Hc' & _).
    assert (k = k') as <-.
    { eapply NoDup_lookup; [exact Hnd| |].
      - rewrite list_lookup_fmap, Hk. simpl. by rewrite Hc.
      - rewrite list_lookup_fmap, Hk'. simpl. by rewrite Hc'. }
    by simplify_eq. }
  split; [exact Hid|]. intros handleErr mr.
  assert (Hk1 : routines w1 !! k = Some a) by (by destruct Hw1 as [->| ->]).
  assert (Hs1 : runningIDSet w1 = runningIDSet w) by (by destruct Hw1 as [->| ->]).
  assert (Hctx : ctx_Err w1 (CtxHandle (act_ctx a)) = Some context_Canceled).
  { destruct Hw1 as [->| ->]; unfold ctx_Err, Cancel, IDSet.Cancel, cancel; wsimpl.
    - rewrite Hreg, Hc.
      rewrite (bool_decide_eq_true_2 (c ∈ {[c]} ∪ canceled w)) by set_solver.
      by rewrite orb_true_r.
    - done. }
  destruct (routine_handle_step k a rest handleErr mr w1 Hk1 Ht) as (w' & Hstep & Hcalls).
  exists w'. split; [exact Hstep|]. rewrite Hcalls, Hctx, Hs1, Hid.
  unfold IDSet.Has. rewrite Hreg. simpl.
  destruct handleErr as [e|]; [|done]. by rewrite andb_true_r.
Qed.

Lemma cancellation_outcome_witness :
  ∃ w, start_worker "host" Scenario.hooks (Scenario.options_of 2 0 0)
         Scenario.two_jobs = Some w ∧
       ∃ w', step (LRoutine 1 (Some (ErrWrap context_Canceled "handler")) Scenario.marked)
               (Cancel 18 w) = Some w' ∧
             terminal_calls (Cancel 18 w) w' =
               [(Routine 1, EvMarkFailed CtxRoot 18 "handler: context canceled")].
Proof.
  eexists. split; [vm_compute; reflexivity|].
  match goal with |- ∃ w', step _ (Cancel 18 ?w) = _ ∧ _ =>
    assert (Hr : reachable "host" Scenario.hooks (Scenario.options_of 2 0 0) w)
      by (apply (start_worker_reachable _ _ _ Scenario.two_jobs);
          vm_compute; reflexivity);
    pose proof (cancellation_outcome "host" Scenario.hooks
                  (Scenario.options_of 2 0 0) w 18 1%nat 1%nat
                  {| act_id := 18; act_ctx := 1;
                     act_todo := routineProgram Scenario.hooks |}
                  (tail (routineProgram Scenario.hooks)) (Cancel 18 w) Hr
                  eq_refl eq_refl eq_refl eq_refl (or_introl eq_refl)) as [_ Hout]
  end.
  exact (Hout (Some (ErrWrap context_Canceled "handler")) Scenario.marked).
Defined.

(** ** Stop returns *)

Lemma reachable_run host h o s w w' :
  reachable host h o w → run s w = Some w' → reachable host h o w'.
Proof.
  intros (w0 & s0 & Hnew & Hrun) Hs. exists w0, (s0 ++ s). split; [done|].
  rewrite run_app, Hrun. done.
Qed.

Lemma pending_insert l k a act rest :
  l !! k = Some a → act_todo a = act :: rest →
  S (pending_calls (<[k := set_todo rest a]> l)) = pending_calls l.
Proof.
  revert k. induction l as [|b l IH]; intros [|k] Hk Ht; simplify_eq/=.
  - rewrite Ht. simpl. lia.
  - rewrite <- (IH k Hk Ht). lia.
Qed.

Lemma pending_cases (l : list activity) :
  Forall (λ a, act_todo a = []) l ∨
  ∃ k a act rest, l !! k = Some a ∧ act_todo a = act :: rest.
Proof.
  induction l as [|b l [IH|(k & a & act & rest & Hk & Ht)]].
  - left. constructor.
  - destruct (act_todo b) as [|act rest] eqn:E.
    + left. by constructor.
    + right. by exists 0%nat, b, act, rest.
  - right. by exists (S k), a, act, rest.
Qed.

Lemma count_counted_done (l : list activity) :
  Forall (λ a, act_todo a = []) l → count counted l = 0%nat.
Proof.
  induction 1 as [|a l Ha _ IH]; [done|].
  cbn [count]. unfold counted at 1. rewrite Ha.
  rewrite bool_decide_eq_false_2 by set_solver. exact IH.
Qed.

Lemma routine_step_main k handleErr mr w w' :
  slots_inv w → step (LRoutine k handleErr mr) w = Some w' →
  mainPc w' = mainPc w ∧ finished w' = finished w.
Proof.
  intros [Hsl _ _]. simpl. intros H. routine_cases H; try done.
  exfalso. assert (1 ≤ running w)%nat; [|lia].
  eapply count_lookup; [exact Ha|].
  unfold holds_slot. rewrite Ht. apply bool_decide_eq_true_2. set_solver.
Qed.

(** Every routine can run to its end, whatever the other routines do. *)
Lemma routines_finish n :
  ∀ w, slots_inv w → (pending_calls (routines w) ≤ n)%nat →
  ∃ s w', run s w = Some w' ∧
    Forall (λ a, act_todo a = []) (routines w') ∧
    mainPc w' = mainPc w ∧ finished w' = finished w ∧
    rootCanceled w' = rootCanceled w.
Proof.
  induction n as [|n IH]; intros w Hs Hn;
    (destruct (pending_cases (routines w))
       as [Hall|(k & a & act & rest & Hk & Ht)]; [by exists [], w|]);
    pose proof (pending_insert _ _ _ _ _ Hk Ht) as Hp; [lia|].
  destruct (routine_step_enabled k None {| mk_marked := true; mk_err := None |}
              w a act rest Hs Hk Ht) as [w1 H1].
  destruct (routine_step_main _ _ _ _ _ Hs H1) as [Hpc Hf].
  pose proof H1 as H1'.
  apply routine_step_frame in H1'
    as (a' & act' & rest' & Hk' & Ht' & Hr & _ & _ & Hrc & _).
  assert (a' = a) as -> by congruence.
  assert (rest' = rest) as -> by congruence.
  destruct (IH w1) as (s & w' & Hrun & Hall & Hpc' & Hf' & Hrc').
  - by eapply step_slots.
  - rewrite Hr. lia.
  - exists (LRoutine k None {| mk_marked := true; mk_err := None |} :: s), w'.
    rewrite run_cons, H1. simpl. rewrite Hpc', Hf', Hrc'. done.
Qed.

Lemma drain_select d w :
  mainPc w = MSelect d → rootCanceled w = true →
  ∃ s w', run s w = Some w' ∧ ∃ r, mainPc w' = MDrain r.
Proof.
  intros Hpc Hc. exists [LSelect CaseCtxDone]. simpl. unfold select_step.
  rewrite Hpc, Hc. eexists. split; [reflexivity|]. by exists "".
Qed.

Lemma drain_returned ok err w :
  mainPc w = MReturned ok err → rootCanceled w = true →
  ∃ s w', run s w = Some w' ∧ ∃ r, mainPc w' = MDrain r.
Proof.
  intros Hpc Hc.
  assert (∃ w1, step LAfterDequeue w = Some w1 ∧ rootCanceled w1 = true ∧
                ((∃ r, mainPc w1 = MDrain r) ∨ ∃ d, mainPc w1 = MSelect d))
    as (w1 & H1 & Hc1 & [Hd|[d Hd]]).
  { simpl. unfold after_dequeue. rewrite Hpc.
    destruct err as [e|]; [destruct (bool_decide _ && _)|];
      unfold next_delay, break_loop; destruct ok;
      (eexists; split; [reflexivity|]); wsimpl; eauto. }
  - exists [LAfterDequeue], w1. rewrite run_cons, H1. done.
  - destruct (drain_select d w1 Hd Hc1) as (s & w' & Hrun & Hr).
    exists (LAfterDequeue :: s), w'. rewrite run_cons, H1. done.
Qed.

Lemma drain_acquire w :
  mainPc w = MAcquire → rootCanceled w = true →
  ∃ s w', run s w = Some w' ∧ ∃ r, mainPc w' = MDrain r.
Proof.
  intros Hpc Hc.
  destruct (drain_returned false (ctx_Err w CtxRoot)
              (set_mainPc (MReturned false (ctx_Err w CtxRoot)) w))
    as (s & w' & Hrun & Hr); [done..|].
  exists (LAcquireCtxDone :: s), w'. rewrite run_cons. simpl.
  unfold acquire_ctx_done. rewrite Hpc, Hc. done.
Qed.

Lemma drain_loop_top w :
  mainPc w = MLoopTop → rootCanceled w = true →
  ∃ s w', run s w = Some w' ∧ ∃ r, mainPc w' = MDrain r.
Proof.
  intros Hpc Hc.
  destruct (negb (NumTotalJobs (options w) =? 0)
            && (NumTotalJobs (options w) <=? numDequeues w)) eqn:E.
  - exists [LLoopTop]. simpl. unfold Start_loop_top. rewrite Hpc, E.
    eexists. split; [reflexivity|]. by eexists.
  - destruct (drain_acquire (set_mainPc MAcquire w)) as (s & w' & Hrun & Hr);
      [done..|].
    exists (LLoopTop :: s), w'. rewrite run_cons. simpl.
    unfold Start_loop_top. rewrite Hpc, E. done.
Qed.

Lemma drain_hold_slot w :
  slots_inv w → mainPc w = MHoldSlot → rootCanceled w = true →
  ∃ s w', run s w = Some w' ∧ ∃ r, mainPc w' = MDrain r.
Proof.
  intros Hs Hpc Hc.
  set (pre := {| pd_dequeueable := false; pd_extra := None; pd_err := None |}).
  set (dq := {| dq_record := 0; dq_dequeued := false; dq_err := None |}).
  destruct (dequeue_step_returns pre dq w Hs Hpc) as (w1 & err & H1 & Hpc1 & _).
  destruct (step_monotone _ _ _ H1) as [Hc1 _].
  destruct (drain_returned _ _ w1 Hpc1 (Hc1 Hc)) as (s & w' & Hrun & Hr).
  exists (LDequeue pre dq :: s), w'. rewrite run_cons, H1. done.
Qed.

(** Once the root context is canceled, the main routine can leave the loop
    from wherever it is. *)
Lemma drain_main w :
  slots_inv w → mainPc w ≠ MNotStarted → rootCanceled w = true →
  ∃ s w', run s w = Some w' ∧
          ∃ r, mainPc w' = MDrain r ∨ mainPc w' = MFinished r.
Proof.
  intros Hs Hpc Hc.
  assert (Hd : (∃ s w', run s w = Some w' ∧ ∃ r, mainPc w' = MDrain r) →
               ∃ s w', run s w = Some w' ∧
                 ∃ r, mainPc w' = MDrain r ∨ mainPc w' = MFinished r).
  { intros (s & w' & Hrun & r & Hr). exists s, w'. eauto. }
  destruct (mainPc w) eqn:E; try done.
  - apply Hd. by apply drain_loop_top.
  - apply Hd. by apply drain_acquire.
  - apply Hd. by apply drain_hold_slot.
  - apply Hd. by eapply drain_returned.
  - apply Hd. by eapply drain_select.
  - exists [], w. rewrite E. eauto.
  - exists [], w. rewrite E. eauto.
Qed.

Lemma step_returned l w w' :
  slots_inv w → returned_inv w → step l w = Some w' → returned_inv w'.
Proof.
  unfold returned_inv. intros Hs Hi H. destruct l.
  9: { destruct (routine_step_main _ _ _ _ _ Hs H) as [-> ->]. done. }
  9: { simpl in H. apply heartbeat_tick_frame in H as [Hf _].
       destruct Hf as (_ & _ & _ & _ & _ & _ & Ef & _ & _ & _ & Ep & _).
       rewrite Ef, Ep. done. }
  5: { unfold step, dequeue_step in H.
       destruct (mainPc w) eqn:Hpc; try done.
       destruct (dequeueAndHandle pre dq w) as [[w1 [ok err]]|] eqn:Hd; [|done].
       simpl in H. simplify_eq. done. }
  all: revert H; main_cases; try done; eauto.
Qed.

Lemma reachable_returned host h o w :
  reachable host h o w → returned_inv w.
Proof.
  intros (w0 & s & Hnew & Hrun).
  assert (Hgoal : slots_inv w ∧ returned_inv w); [|tauto].
  eapply (run_invariant (λ w, slots_inv w ∧ returned_inv w)); [| |exact Hrun].
  - intros l w1 w2 [Hs Hi] Hstep.
    split; [by eapply step_slots|by eapply step_returned].
  - split; [by eapply newWorker_slots|].
    unfold newWorker in Hnew. repeat case_match; simplify_eq; by intros r.
Qed.

(** X10. Stop returns if the handlers do: from every state of every
    execution in which Start has been called, after the cancel of Stop the
    worker has a way to go on - no dequeue succeeds, every routine runs to
    its end - that lets Start return, so that the Wait of Stop returns;
    by then no routine has a call left to make. *)
Theorem Stop_can_return host h o w :
  reachable host h o w → mainPc w ≠ MNotStarted →
  ∃ s w', run s (cancel w) = Some w' ∧ Wait w' = Some w' ∧
          Forall (λ a, act_todo a = []) (routines w').
Proof.
  intros Hr Hpc.
  assert (Hr0 : reachable host h o (cancel w))
    by (by eapply (reachable_step _ _ _ LCancelRoot)).
  destruct (reachable_slots _ _ _ _ Hr0) as (Hs0 & _).
  destruct (drain_main (cancel w) Hs0 Hpc eq_refl) as (s1 & w1 & Hrun1 & r & Hpc1).
  pose proof (reachable_run _ _ _ _ _ _ Hr0 Hrun1) as Hr1.
  destruct (reachable_slots _ _ _ _ Hr1) as (Hs1 & _).
  destruct (routines_finish _ w1 Hs1 (le_n _))
    as (s2 & w2 & Hrun2 & Hall & Hpc2 & Hf2 & _).
  pose proof (reachable_run _ _ _ _ _ _ Hr1 Hrun2) as Hr2.
  destruct (reachable_slots _ _ _ _ Hr2) as ([_ _ Hwg] & _).
  destruct Hpc1 as [Hpc1|Hpc1].
  - exists (s1 ++ s2 ++ [LWaitDone]).
    rewrite run_app, Hrun1. simpl. rewrite run_app, Hrun2. simpl.
    unfold wait_done. rewrite Hpc2, Hpc1, Hwg, count_counted_done by done.
    simpl. eexists. split; [reflexivity|]. split; [|done].
    unfold Wait. by wsimpl.
  - exists (s1 ++ s2), w2. rewrite run_app, Hrun1. simpl.
    split; [done|]. split; [|done].
    unfold Wait. rewrite Hf2, (reachable_returned _ _ _ _ Hr1 r Hpc1). done.
Qed.

Lemma Stop_can_return_witness :
  ∃ w, start_worker "host" Scenario.hooks (Scenario.options_of 2 0 0)
         Scenario.two_jobs = Some w ∧
       mainPc w ≠ MNotStarted ∧
       ∃ s w', run s (cancel w) = Some w' ∧ Wait w' = Some w' ∧
               Forall (λ a, act_todo a = []) (routines w').
Proof.
  eexists. split; [vm_compute; reflexivity|].
  match goal with |- mainPc ?w ≠ _ ∧ _ =>
    assert (Hr : reachable "host" Scenario.hooks (Scenario.options_of 2 0 0) w)
      by (apply (start_worker_reachable _ _ _ Scenario.two_jobs);
          vm_compute; reflexivity);
    assert (Hpc : mainPc w ≠ MNotStarted) by (vm_compute; discriminate);
    pose proof (Stop_can_return "host" Scenario.hooks
                  (Scenario.options_of 2 0 0) w Hr Hpc) as Hstop
  end.
  split; [vm_compute; discriminate|exact Hstop].
Defined.

(** * The values of a request context *)

Lemma trace_Value_kept ctx ds k :
  Forall (λ d, Trace.derive_key d ≠ k) ds →
  Trace.Value (Trace.derived ctx ds) k = Trace.Value ctx k.
Proof.
  unfold Trace.derived. intros H. revert ctx.
  induction H as [|d ds Hd _ IH]; intros ctx; [done|]. simpl. rewrite IH.
  destruct d; simpl in *; by case_decide.
Qed.

Lemma trace_Value_derived ctx ds k :
  (∀ n, k ≠ Trace.OtherKey n) →
  k ≠ Trace.PackageKey Trace.GraphQLQueryKey →
  k ≠ Trace.PackageKey Trace.graphQLRequestNameKey →
  k ≠ Trace.PackageKey Trace.originKey →
  k ≠ Trace.PackageKey Trace.sourceKey →
  Trace.Value (Trace.derived ctx ds) k = Trace.Value ctx k.
Proof.
  intros H1 H0 H2 H3 H4. apply trace_Value_kept.
  apply Forall_forall. intros d _ <-. destruct d; simpl in *; try done.
  by destruct (H1 n).
Qed.

(** X11. Each getter returns what its setter put into the context, also
    through every context derived from that one, as long as no derivation
    sets the same value again: values for other keys, of this package or
    of others, never hide it. *)
Theorem request_values_round_trip ctx ds v :
  (Forall (λ d, Trace.derive_key d
                ≠ Trace.PackageKey Trace.graphQLRequestNameKey) ds →
   Trace.GraphQLRequestName
     (Trace.derived (Trace.WithGraphQLRequestName ctx v) ds) = v) ∧
  (Forall (λ d, Trace.derive_key d ≠ Trace.PackageKey Trace.originKey) ds →
   Trace.RequestOrigin (Trace.derived (Trace.WithRequestOrigin ctx v) ds)
   = Some v) ∧
  (Forall (λ d, Trace.derive_key d ≠ Trace.PackageKey Trace.sourceKey) ds →
   Trace.RequestSource (Trace.derived (Trace.WithRequestSource ctx v) ds)
   = Some v).
Proof.
  split; [|split]; intros H.
  - unfold Trace.GraphQLRequestName. by rewrite trace_Value_kept.
  - unfold Trace.RequestOrigin. by rewrite trace_Value_kept.
  - unfold Trace.RequestSource. by rewrite trace_Value_kept.
Qed.

Lemma request_values_round_trip_witness :
  Trace.GraphQLRequestName
    (Trace.derived (Trace.WithGraphQLRequestName Trace.Background "Repositories")
       [Trace.DeriveRequestOrigin "https://gitlab.com";
        Trace.DeriveGraphQLQuery (Trace.VString "query");
        Trace.DeriveRequestSource Trace.SourceBrowser])
  = "Repositories".
Proof.
  apply (request_values_round_trip Trace.Background
           [Trace.DeriveRequestOrigin "https://gitlab.com";
            Trace.DeriveGraphQLQuery (Trace.VString "query");
            Trace.DeriveRequestSource Trace.SourceBrowser] "Repositories").
  repeat (constructor; [discriminate|]). constructor.
Defined.

Lemma trace_derived_getters ctx ds :
  is_Some (Trace.RequestOrigin ctx) → is_Some (Trace.RequestSource ctx) →
  is_Some (Trace.RequestOrigin (Trace.derived ctx ds)) ∧
  is_Some (Trace.RequestSource (Trace.derived ctx ds)).
Proof.
  unfold Trace.derived. revert ctx.
  induction ds as [|d ds IH]; intros ctx Ho Hs; [done|]. simpl.
  apply IH; destruct d; try done.
Qed.

Lemma trace_serve_getters ctx h originHeader trackOrigin :
  is_Some (Trace.RequestSource ctx) →
  Trace.RequestOrigin (Trace.sv_ctx (Trace.serve_context ctx h originHeader trackOrigin))
    = Some (if bool_decide (originHeader = trackOrigin)
            then trackOrigin else "unknown") ∧
  is_Some (Trace.RequestSource
             (Trace.sv_ctx (Trace.serve_context ctx h originHeader trackOrigin))).
Proof. intros Hs. split; [done|]. exact Hs. Qed.

(** X12. Below HTTPTraceMiddleware the getters with a bare type assertion
    do not panic: if RequestSource returns on the context of the request,
    then on the context the middleware hands on, and on every context
    derived from it with the setters of the package, with GraphQLQueryKey
    or with keys of other types, RequestOrigin and RequestSource return; RequestOrigin returns
    the tracked origin or "unknown" until a handler sets another one. *)
Theorem request_getters_return ctx h originHeader trackOrigin ds :
  is_Some (Trace.RequestSource ctx) →
  let ctx' := Trace.sv_ctx (Trace.serve_context ctx h originHeader trackOrigin) in
  (Trace.RequestOrigin ctx' = Some trackOrigin
   ∨ Trace.RequestOrigin ctx' = Some "unknown") ∧
  is_Some (Trace.RequestOrigin (Trace.derived ctx' ds)) ∧
  is_Some (Trace.RequestSource (Trace.derived ctx' ds)).
Proof.
  intros Hs ctx'.
  destruct (trace_serve_getters ctx h originHeader trackOrigin Hs) as [Ho Hs'].
  split.
  - subst ctx'. rewrite Ho. case_bool_decide; auto.
  - apply trace_derived_getters; [|exact Hs']. subst ctx'. by rewrite Ho.
Qed.

Lemma request_getters_return_witness :
  is_Some (Trace.RequestOrigin
    (Trace.derived
       (Trace.sv_ctx (Trace.serve_context Trace.Background ∅
                        "https://gitlab.com" "https://gitlab.com"))
       [Trace.DeriveOther 0 (Trace.VString "span");
        Trace.DeriveRequestSource Trace.SourceBrowser])).
Proof.
  exact (proj1 (proj2 (request_getters_return Trace.Background ∅
           "https://gitlab.com" "https://gitlab.com"
           [Trace.DeriveOther 0 (Trace.VString "span");
            Trace.DeriveRequestSource Trace.SourceBrowser]
           (mk_is_Some _ _ eq_refl)))).
Defined.

Lemma trace_serve_pointers ctx h originHeader trackOrigin :
  let sv := Trace.serve_context ctx h originHeader trackOrigin in
  Trace.Value (Trace.sv_ctx sv) (Trace.PackageKey Trace.routeNameKey)
    = Trace.VStringPtr (Some (Trace.sv_routeName sv)) ∧
  Trace.Value (Trace.sv_ctx sv) (Trace.PackageKey Trace.userKey)
    = Trace.VInt32Ptr (Some (Trace.sv_userID sv)) ∧
  Trace.Value (Trace.sv_ctx sv) (Trace.PackageKey Trace.requestErrorCauseKey)
    = Trace.VErrorPtr (Some (Trace.sv_requestErrorCause sv)) ∧
  (Trace.sv_routeName sv ∉ dom h) ∧ (Trace.sv_userID sv ∉ dom h) ∧
  (Trace.sv_requestErrorCause sv ∉ dom h) ∧
  Trace.sv_routeName sv ≠ Trace.sv_userID sv ∧
  Trace.sv_routeName sv ≠ Trace.sv_requestErrorCause sv ∧
  Trace.sv_userID sv ≠ Trace.sv_requestErrorCause sv ∧
  Trace.sv_heap sv !! Trace.sv_routeName sv = Some (Trace.CString "unknown") ∧
  Trace.sv_heap sv !! Trace.sv_userID sv = Some (Trace.CInt32 0) ∧
  Trace.sv_heap sv !! Trace.sv_requestErrorCause sv = Some (Trace.CError None) ∧
  ∀ q, q ∈ dom h → Trace.sv_heap sv !! q = h !! q.
Proof.
  intros sv. subst sv. unfold Trace.serve_context. cbn.
  set (pr := fresh (dom h)).
  set (h1 := <[pr := Trace.CString "unknown"]> h).
  set (pu := fresh (dom h1)).
  set (h2 := <[pu := Trace.CInt32 0]> h1).
  set (pe := fresh (dom h2)).
  assert (Hr : pr ∉ dom h) by apply is_fresh.
  assert (Hu : pu ∉ dom h1) by apply is_fresh.
  assert (He : pe ∉ dom h2) by apply is_fresh.
  assert (Hd1 : dom h1 = {[pr]} ∪ dom h) by (subst h1; by rewrite dom_insert_L).
  assert (Hd2 : dom h2 = {[pu]} ∪ dom h1) by (subst h2; by rewrite dom_insert_L).
  assert (Hru : pr ≠ pu) by set_solver.
  assert (Hre : pr ≠ pe) by set_solver.
  assert (Hue : pu ≠ pe) by set_solver.
  assert (Hnu : pu ∉ dom h) by set_solver.
  assert (Hne : pe ∉ dom h) by set_solver.
  clearbody pe. clearbody pu. clearbody pr.
  split; [reflexivity|]. split; [reflexivity|]. split; [reflexivity|].
  split; [exact Hr|]. split; [exact Hnu|]. split; [exact Hne|].
  split; [exact Hru|]. split; [exact Hre|]. split; [exact Hue|].
  split; [|split; [|split]].
  - subst h2 h1. by rewrite !lookup_insert_ne, lookup_insert_eq by done.
  - subst h2. by rewrite lookup_insert_ne, lookup_insert_eq by done.
  - by rewrite lookup_insert_eq.
  - intros q Hq. subst h2 h1.
    rewrite !lookup_insert_ne; [done|intros ->; done..].
Qed.

Lemma trace_do_calls ctx pr pu pe cs :
  Trace.Value ctx (Trace.PackageKey Trace.routeNameKey) = Trace.VStringPtr (Some pr) →
  Trace.Value ctx (Trace.PackageKey Trace.userKey) = Trace.VInt32Ptr (Some pu) →
  Trace.Value ctx (Trace.PackageKey Trace.requestErrorCauseKey)
    = Trace.VErrorPtr (Some pe) →
  pr ≠ pu → pr ≠ pe → pu ≠ pe →
  ∀ h r u e,
    h !! pr = Some (Trace.CString r) → h !! pu = Some (Trace.CInt32 u) →
    h !! pe = Some (Trace.CError e) →
    ∃ h', Trace.do_calls ctx cs h = Some h' ∧
      h' !! pr = Some (Trace.CString (Trace.last_values cs r u e).1.1) ∧
      h' !! pu = Some (Trace.CInt32 (Trace.last_values cs r u e).1.2) ∧
      h' !! pe = Some (Trace.CError (Trace.last_values cs r u e).2) ∧
      ∀ q, q ≠ pr → q ≠ pu → q ≠ pe → h' !! q = h !! q.
Proof.
  intros Hr Hu He Hru Hre Hue.
  induction cs as [|c cs IH]; intros h r u e Hhr Hhu Hhe.
  - exists h. done.
  - destruct c as [ds userID|ds err|ds routeName]; cbn [Trace.do_calls Trace.do_call].
    + unfold Trace.User. rewrite trace_Value_derived, Hu by done.
      destruct (IH (<[pu := Trace.CInt32 userID]> h) r userID e)
        as (h' & Hrun & ? & ? & ? & Hq).
      * by rewrite lookup_insert_ne.
      * by rewrite lookup_insert_eq.
      * by rewrite lookup_insert_ne.
      * exists h'. split; [exact Hrun|]. repeat split; try done.
        intros q ? ? ?. rewrite Hq by done. by rewrite lookup_insert_ne.
    + unfold Trace.SetRequestErrorCause. rewrite trace_Value_derived, He by done.
      destruct (IH (<[pe := Trace.CError err]> h) r u err)
        as (h' & Hrun & ? & ? & ? & Hq).
      * by rewrite lookup_insert_ne.
      * by rewrite lookup_insert_ne.
      * by rewrite lookup_insert_eq.
      * exists h'. split; [exact Hrun|]. repeat split; try done.
        intros q ? ? ?. rewrite Hq by done. by rewrite lookup_insert_ne.
    + unfold Trace.SetRouteName. rewrite trace_Value_derived, Hr by done.
      destruct (IH (<[pr := Trace.CString routeName]> h) routeName u e)
        as (h' & Hrun & ? & ? & ? & Hq).
      * by rewrite lookup_insert_eq.
      * by rewrite lookup_insert_ne.
      * by rewrite lookup_insert_ne.
      * exists h'. split; [exact Hrun|]. repeat split; try done.
        intros q ? ? ?. rewrite Hq by done. by rewrite lookup_insert_ne.
Qed.

(** X13. The three variables HTTPTraceMiddleware registers in the context
    are new, and the setters User, SetRequestErrorCause and SetRouteName
    reach them through every context derived from the one it hands on:
    whatever calls the handlers make, none panics; when they are done the
    route name, the user and the error cause are those of the last call
    of each setter, or "unknown", 0 and nil without one; and no variable
    that existed before the request has changed. *)
Theorem setters_reach_the_request ctx h originHeader trackOrigin cs :
  let sv := Trace.serve_context ctx h originHeader trackOrigin in
  ∃ h', Trace.do_calls (Trace.sv_ctx sv) cs (Trace.sv_heap sv) = Some h' ∧
    h' !! Trace.sv_routeName sv
      = Some (Trace.CString (Trace.last_values cs "unknown" 0 None).1.1) ∧
    h' !! Trace.sv_userID sv
      = Some (Trace.CInt32 (Trace.last_values cs "unknown" 0 None).1.2) ∧
    h' !! Trace.sv_requestErrorCause sv
      = Some (Trace.CError (Trace.last_values cs "unknown" 0 None).2) ∧
    ∀ q, q ∈ dom h → h' !! q = h !! q.
Proof.
  intros sv.
  destruct (trace_serve_pointers ctx h originHeader trackOrigin)
    as (Hr & Hu & He & Hnr & Hnu & Hne & Hru & Hre & Hue & Hhr & Hhu & Hhe & Hold).
  fold sv in Hr, Hu, He, Hnr, Hnu, Hne, Hru, Hre, Hue, Hhr, Hhu, Hhe, Hold.
  destruct (trace_do_calls _ _ _ _ cs Hr Hu He Hru Hre Hue _ _ _ _ Hhr Hhu Hhe)
    as (h' & Hrun & ? & ? & ? & Hq).
  exists h'. split; [exact Hrun|]. repeat split; try done.
  intros q Hin. rewrite Hq; [by apply Hold| | |]; intros ->; done.
Qed.
